(** * pagespeed-diagnostics: score normalisation, audit bucketing,
      security checklist, report history and the analyse handler.

    A shallow embedding of the TypeScript sources
    - [pages/api/analyze.ts]           (module [Analyze]),
    - [components/DiagnosticsDisplay.tsx] (module [Diagnostics]),
    - [pages/api/security-scan.ts]     (module [SecurityScan]),
    - [pages/api/reports.ts]           (module [Reports]),
    - [pages/security-checker.tsx] and [pages/index.tsx]
      (modules [Forms], [SecurityPage] and [HomePage]),
    - [components/MetricsDisplay.tsx], [components/ReportCard.tsx] and
      [components/PerformanceGauge.tsx] (modules [Metrics] and [Card]),
    - [pages/api/nextauth.ts]          (module [Auth]).

    Conventions.  A JavaScript number is modelled by its exact value, a
    rational [Q]; a product, sum or quotient that the sources compute is
    rounded to the nearest binary64 number as IEEE 754 arithmetic does
    ([JS.toDouble]), and a decimal literal that takes part in it is the
    double it denotes.  NaN and the infinities are outside the model.  A
    string is the sequence of bytes of its UTF-8 encoding.  [null] and
    [undefined] are [None]; JS objects used as dictionaries are
    [gmap string _]; a thrown exception is a value of type [Exn]; console
    output, browser and database calls are events of a trace threaded
    through a small state-and-exception monad. *)

From Stdlib Require Import ZArith QArith Qround Qpower Lqa Lia List Ascii String.
From stdpp Require Import base option list sorting gmap strings pretty.

Local Open Scope Z_scope.

(** ** JavaScript primitives used by the sources *)

Module JS.

(** *** Numbers *)

(** [2^e]. *)
Definition pow2 (e : Z) : Q := Qpower 2 e.

(** The exponent of the binade of a positive [x]: the [e] with
    [2^e <= x < 2^(e+1)]. *)
Definition ilog2 (x : Q) : Z :=
  let e := Z.log2 (Qnum x) - Z.log2 (Zpos (Qden x)) in
  if Qle_bool (pow2 e) x then e else e - 1.

(** The integer nearest to [y]; a tie goes to the even one. *)
Definition roundEven (y : Q) : Z :=
  let f := Qfloor y in
  match (y - inject_Z f ?= 1 # 2)%Q with
  | Lt => f
  | Gt => f + 1
  | Eq => if Z.even f then f else f + 1
  end.

(** The exponent of the spacing of the doubles around a positive [x]:
    53 significant bits, and no spacing below [2^-1074]. *)
Definition binade (x : Q) : Z := Z.max (ilog2 x - 52) (-1074).

(** The double nearest to a positive [x]. *)
Definition nearest64 (x : Q) : Q :=
  (inject_Z (roundEven (x / pow2 (binade x))) * pow2 (binade x))%Q.

(** Rounding of an exact result to binary64: to nearest, ties to even.
    (A magnitude of [2^1024] or more would be an infinity.) *)
Definition toDouble (x : Q) : Q :=
  match (x ?= 0)%Q with
  | Eq => 0%Q
  | Gt => nearest64 x
  | Lt => (- nearest64 (- x))%Q
  end.

(** [x * y], [x + y] and [x / y] on doubles. *)
Definition times (x y : Q) : Q := toDouble (x * y).
Definition plus (x y : Q) : Q := toDouble (x + y).
Definition divide (x y : Q) : Q := toDouble (x / y).

(** [Math.round]: nearest integer, a tie goes towards +infinity. *)
Definition Math_round (x : Q) : Z := Qfloor (x + (1 # 2))%Q.

(** *** Strings *)

(** [s.startsWith(p)]. *)
Definition startsWith (p s : string) : bool := String.prefix p s.

(** [s.includes(needle)]: [needle] occurs at some offset of [s]. *)
Fixpoint includes (needle s : string) : bool :=
  String.prefix needle s ||
  match s with
  | EmptyString => false
  | String _ rest => includes needle rest
  end.

(** The white space and line terminators that [String.prototype.trim]
    removes, by the length of their encoding.  One byte: TAB, LF, VT, FF,
    CR and SPACE. *)
Definition isWhite (c : ascii) : bool :=
  let n := nat_of_ascii c in
  ((9 <=? n)%nat && (n <=? 13)%nat) || (n =? 32)%nat.

(** Two bytes: U+00A0. *)
Definition isWhite2 (a b : ascii) : bool :=
  (nat_of_ascii a =? 194)%nat && (nat_of_ascii b =? 160)%nat.

(** Three bytes: U+1680, U+2000 to U+200A, U+2028, U+2029, U+202F,
    U+205F, U+3000 and U+FEFF. *)
Definition isWhite3 (a b c : ascii) : bool :=
  let x := nat_of_ascii a in
  let y := nat_of_ascii b in
  let z := nat_of_ascii c in
  ((x =? 225) && (y =? 154) && (z =? 128))%nat
  || ((x =? 226) && (y =? 128)
      && (((128 <=? z) && (z <=? 138)) || (z =? 168) || (z =? 169)
          || (z =? 175)))%nat
  || ((x =? 226) && (y =? 129) && (z =? 159))%nat
  || ((x =? 227) && (y =? 128) && (z =? 128))%nat
  || ((x =? 239) && (y =? 187) && (z =? 191))%nat.

(** The rest of [s] after its first character, when that character is
    white space. *)
Definition dropWhite (s : string) : option string :=
  match s with
  | String a r1 =>
      if isWhite a then Some r1
      else match r1 with
           | String b r2 =>
               if isWhite2 a b then Some r2
               else match r2 with
                    | String c r3 => if isWhite3 a b c then Some r3 else None
                    | EmptyString => None
                    end
           | EmptyString => None
           end
  | EmptyString => None
  end.

(** White space dropped from the front, at most [fuel] characters. *)
Fixpoint dropWhites (fuel : nat) (s : string) : string :=
  match fuel, dropWhite s with
  | S n, Some rest => dropWhites n rest
  | _, _ => s
  end.

(** [s.trimStart()]: a string has no more characters than bytes. *)
Definition trimStart (s : string) : string := dropWhites (String.length s) s.

(** [s.trimEnd()]: cut where only white space is left. *)
Fixpoint trimEnd (s : string) : string :=
  match trimStart s with
  | EmptyString => EmptyString
  | _ => match s with
         | String c rest => String c (trimEnd rest)
         | EmptyString => EmptyString
         end
  end.

(** [s.trim()]. *)
Definition trim (s : string) : string := trimEnd (trimStart s).

(** Truthiness of a string: the empty string is falsy. *)
Definition truthy (s : string) : bool :=
  match s with EmptyString => false | _ => true end.

End JS.

(** ** The audit engine's report, as far as the sources read it *)

Record AuditRef := { ref_id : string }.

Record Audit := {
  audit_id : string;
  audit_title : string;
  audit_description : option string;
  score : option Q;                    (* number in [0,1], or null *)
  scoreDisplayMode : string;
  displayValue : option string
}.

Record Category := {
  cat_id : string;
  cat_title : string;
  cat_description : option string;
  cat_score : option Q;                (* number in [0,1], or null *)
  auditRefs : option (list AuditRef)   (* may be missing *)
}.

(** [score != null ? Math.round(score * 100) : null]. *)
Definition roundScore (s : option Q) : option Z :=
  match s with
  | Some x => Some (JS.Math_round (JS.times x 100))
  | None => None
  end.

(** [categories.k?.score != null ? Math.round(categories.k.score * 100) : null]:
    optional chaining yields [undefined] for an absent category, and
    [undefined != null] is false. *)
Definition normalizedScore (categories : gmap string Category) (k : string)
  : option Z :=
  roundScore (categories !! k ≫= cat_score).

(** ** Effects: a trace of observable events, with exceptions *)

Module Eff.

(** A thrown JavaScript value: a validation error of the schema library
    (with the messages of its issues) or a plain [Error]. *)
Inductive Exn :=
| ZodError (issues : list string)
| Error (message : string) (stack : string).

Definition exn_message (e : Exn) : string :=
  match e with
  | ZodError issues => String.concat ", " issues
  | Error m _ => m
  end.

Definition exn_stack (e : Exn) : string :=
  match e with
  | ZodError _ => EmptyString
  | Error _ s => s
  end.

(** An outcome of a computation: a value, or a thrown exception. *)
Inductive Outcome (A : Type) :=
| Ret (a : A)
| Throw (e : Exn).
Arguments Ret {A} a.
Arguments Throw {A} e.

Section Monad.
Context {S : Type}.

Definition M (A : Type) : Type := S -> Outcome A * S.

Definition ret {A} (a : A) : M A := fun s => (Ret a, s).

Definition bind {A B} (m : M A) (k : A -> M B) : M B :=
  fun s =>
    match m s with
    | (Ret a, s') => k a s'
    | (Throw e, s') => (Throw e, s')
    end.

Definition throw {A} (e : Exn) : M A := fun s => (Throw e, s).

(** [try { body } catch (e) { handler e }]. *)
Definition try_catch {A} (body : M A) (handler : Exn -> M A) : M A :=
  fun s =>
    match body s with
    | (Ret a, s') => (Ret a, s')
    | (Throw e, s') => handler e s'
    end.

(** [try { body } finally { fin }]: [fin] always runs; when it
    completes normally the outcome of [body] stands. *)
Definition try_finally {A} (body : M A) (fin : M unit) : M A :=
  fun s =>
    match body s with
    | (o, s') =>
        match fin s' with
        | (Ret _, s'') => (o, s'')
        | (Throw e, s'') => (Throw e, s'')
        end
    end.

Definition get : M S := fun s => (Ret s, s).
Definition modify (f : S -> S) : M unit := fun s => (Ret tt, f s).
End Monad.

Arguments M : clear implicits.

#[global] Instance M_ret {S} : MRet (M S) := fun _ => ret.
#[global] Instance M_bind {S} : MBind (M S) := fun _ _ k m => bind m k.

End Eff.

Import Eff.

(** ** [pages/api/analyze.ts] *)

Module Analyze.

Local Open Scope string_scope.

Inductive Strategy := desktop | mobile.

Definition strategy_name (s : Strategy) : string :=
  match s with desktop => "desktop" | mobile => "mobile" end.

(** The engine's result object ([runnerResult.lhr]). *)
Record LHR := {
  categories : gmap string Category;
  audits : gmap string Audit;
  timing : Z;
  finalUrl : string;
  lighthouseVersion : string;
  fetchTime : string
}.

Record FullLighthouseDetails := {
  fld_categories : gmap string Category;
  fld_audits : gmap string Audit;
  fld_timing : Z;
  fld_finalUrl : string;
  fld_lighthouseVersion : string;
  fld_fetchTime : string
}.

Record ApiAnalyzeResponseData := {
  url : string;
  strategy : string;
  performanceScore : option Z;
  accessibilityScore : option Z;
  bestPracticesScore : option Z;
  seoScore : option Z;
  pwaScore : option Z;
  fullLighthouseDetails : option FullLighthouseDetails
}.

(** The row handed to [prisma.report.create]. *)
Record ReportData := {
  rd_url : string;
  rd_strategy : string;
  rd_performanceScore : option Z;
  rd_accessibilityScore : option Z;
  rd_bestPracticesScore : option Z;
  rd_seoScore : option Z;
  rd_pwaScore : option Z;
  rd_metrics : gmap string Category;
  rd_userId : string
}.

Inductive Body :=
| Data (d : ApiAnalyzeResponseData)
| Message (message : string) (errorDetails : option string)
          (stack : option string)
| Invalid (message : string) (errors : list string).

Record Response := { status : Z; json : Body }.

Record Throttling := {
  rttMs : Q; throughputKbps : Q; requestLatencyMs : Q;
  downloadThroughputKbps : Q; uploadThroughputKbps : Q;
  cpuSlowdownMultiplier : Q
}.

Record ScreenEmulation := {
  se_mobile : bool; width : Z; height : Z; deviceScaleFactor : Z
}.

Record Settings := {
  formFactor : Strategy;
  throttlingMethod : string;
  throttling : Throttling;
  screenEmulation : ScreenEmulation;
  onlyCategories : list string
}.

Definition currentCategories : list string :=
  ["performance"; "accessibility"; "best-practices"; "seo"; "pwa"].

Definition currentThrottlingSettings (s : Strategy) : Throttling :=
  match s with
  | mobile =>
      {| rttMs := 150;
         throughputKbps := JS.times (JS.toDouble (16 # 10)) 1024;
         requestLatencyMs := JS.times 150 (JS.toDouble (4 # 10));
         downloadThroughputKbps :=
           JS.times (JS.times (JS.toDouble (16 # 10)) 1024)
                    (JS.toDouble (9 # 10));
         uploadThroughputKbps := JS.times 750 (JS.toDouble (9 # 10));
         cpuSlowdownMultiplier := 4 |}%Q
  | desktop =>
      {| rttMs := 100; throughputKbps := 5 * 1024;
         cpuSlowdownMultiplier := 2; requestLatencyMs := 0;
         downloadThroughputKbps := 0; uploadThroughputKbps := 0 |}%Q
  end.

Definition currentScreenEmulation (s : Strategy) : ScreenEmulation :=
  match s with
  | mobile => {| se_mobile := true; width := 360; height := 640;
                 deviceScaleFactor := 2 |}
  | desktop => {| se_mobile := false; width := 1280; height := 720;
                  deviceScaleFactor := 1 |}
  end.

Definition lighthouseConfig (s : Strategy) : Settings :=
  {| formFactor := s;
     throttlingMethod := "simulate";
     throttling := currentThrottlingSettings s;
     screenEmulation := currentScreenEmulation s;
     onlyCategories := currentCategories |}.

(** Events the handler leaves behind, in the order they happen. *)
Inductive Event :=
| ConsoleLog (text : string)
| ConsoleError (text : string)
| BrowserLaunch
| BrowserClose
| LighthouseRun (target : string) (port : string) (config : Settings)
| ReportCreate (data : ReportData)
| Send (r : Response).

(** The browser process started by [puppeteer.launch]. *)
Inductive Process := NotStarted | Running | Closed.

(** The handler's mutable surroundings: the local variable [browser]
    (null until the launch returns), the browser process itself, and the
    trace. *)
Record State := {
  browser : bool;
  process : Process;
  trace : list Event
}.

Definition initial : State :=
  {| browser := false; process := NotStarted; trace := [] |}.

Definition emit (e : Event) : M State unit :=
  modify (fun s => {| browser := browser s; process := process s;
                      trace := trace s ++ [e] |}).

Definition console_log (t : string) : M State unit := emit (ConsoleLog t).
Definition console_error (t : string) : M State unit := emit (ConsoleError t).

(** [res.status(code).json(body)]. *)
Definition respond (code : Z) (b : Body) : M State Response :=
  let r := {| status := code; json := b |} in
  emit (Send r) ;; mret r.

Record User := { user_id : option string }.
Record Session := { user : option User }.

(** A request body that is an object: [url] and [strategy] are strings,
    or missing. *)
Record RequestBody := {
  body_url : option string;
  body_strategy : option string
}.

(** [req.body] is [None] when it is [null] or [undefined], and an object
    otherwise. *)
Record Request := { method : string; body : option RequestBody }.

Record RunnerResult := { lhr : option LHR }.

(** What the collaborators of one request do: the session lookup (which
    may throw), the browser launch, the port of the browser's endpoint,
    the audit engine, the database insert, [browser.close()], and
    [NODE_ENV]. *)
Record Env := {
  session : Exn + option Session;
  launch : option Exn;
  puppeteerPortStr : string;
  lighthouse : Exn + option RunnerResult;
  create : option Exn;
  close : option Exn;
  development : bool;
  newStack : string          (* the stack a [new Error] captures *)
}.

Section Handler.
Variable isUrl : string -> bool.   (* the schema's URL check *)
Variable env : Env.

Definition parseStrategy (s : string) : option Strategy :=
  if String.eqb s "desktop" then Some desktop
  else if String.eqb s "mobile" then Some mobile
  else None.

Definition urlIssues (b : RequestBody) : list string :=
  match body_url b with
  | None => ["Required"]
  | Some u =>
      if isUrl u then []
      else ["Invalid URL format. Please include http:// or https://"]
  end.

Definition strategyIssues (b : RequestBody) : list string :=
  match body_strategy b with
  | None => ["Required"]
  | Some s =>
      match parseStrategy s with
      | Some _ => []
      | None => ["Invalid enum value. Expected 'desktop' | 'mobile', received '"
                   +:+ s +:+ "'"]
      end
  end.

(** [analyzeSchema.parse(req.body)]. *)
Definition analyzeSchema_parse (b : RequestBody)
  : M State (string * Strategy) :=
  match body_url b, body_strategy b ≫= parseStrategy,
        (urlIssues b ++ strategyIssues b)%list with
  | Some u, Some s, [] => mret (u, s)
  | _, _, issues => throw (ZodError issues)
  end.

(** [browser = await puppeteer.launch(...)]. *)
Definition puppeteer_launch : M State unit :=
  match launch env with
  | Some e => throw e
  | None =>
      modify (fun s => {| browser := true; process := Running;
                          trace := trace s ++ [BrowserLaunch] |})
  end.

(** [await browser.close()]. *)
Definition browser_close : M State unit :=
  emit BrowserClose ;;
  match close env with
  | Some e => throw e
  | None =>
      modify (fun s => {| browser := browser s; process := Closed;
                          trace := trace s |})
  end.

(** [await lighthouse(url, lighthouseOptions, lighthouseConfig)]. *)
Definition run_lighthouse (target port : string) (cfg : Settings)
  : M State (option RunnerResult) :=
  emit (LighthouseRun target port cfg) ;;
  match lighthouse env with
  | inl e => throw e
  | inr r => mret r
  end.

(** [await prisma.report.create({ data })]. *)
Definition prisma_report_create (d : ReportData) : M State unit :=
  match create env with
  | Some e => throw e
  | None => emit (ReportCreate d)
  end.

(** [await getServerSession(req, res, authOptions)]. *)
Definition getServerSession : M State (option Session) :=
  match session env with
  | inl e => throw e
  | inr s => mret s
  end.

(** [session?.user ? session.user.id : null]. *)
Definition userId : option string :=
  match session env with
  | inr found => s ← found; u ← user s; user_id u
  | inl _ => None
  end.

Definition responseData (u sname : string) (l : LHR)
  : ApiAnalyzeResponseData :=
  {| url := u;
     strategy := sname;
     performanceScore := normalizedScore (categories l) "performance";
     accessibilityScore := normalizedScore (categories l) "accessibility";
     bestPracticesScore := normalizedScore (categories l) "best-practices";
     seoScore := normalizedScore (categories l) "seo";
     pwaScore := normalizedScore (categories l) "pwa";
     fullLighthouseDetails :=
       Some {| fld_categories := categories l;
               fld_audits := audits l;
               fld_timing := timing l;
               fld_finalUrl := finalUrl l;
               fld_lighthouseVersion := lighthouseVersion l;
               fld_fetchTime := fetchTime l |} |}.

Definition reportData (d : ApiAnalyzeResponseData) (l : LHR)
           (uid : string) : ReportData :=
  {| rd_url := url d;
     rd_strategy := strategy d;
     rd_performanceScore := performanceScore d;
     rd_accessibilityScore := accessibilityScore d;
     rd_bestPracticesScore := bestPracticesScore d;
     rd_seoScore := seoScore d;
     rd_pwaScore := pwaScore d;
     rd_metrics := categories l;
     rd_userId := uid |}.

Definition tag (u sname : string) : string :=
  u +:+ " (" +:+ sname +:+ ")".

(** The [if (userId) { try { create } catch (dbError) { log } }] step. *)
Definition persist (d : ApiAnalyzeResponseData) (l : LHR)
  : M State unit :=
  match userId with
  | Some uid =>
      if JS.truthy uid then
        try_catch
          (prisma_report_create (reportData d l uid) ;;
           console_log ("[API /analyze] Lighthouse report saved for user "
                          +:+ uid +:+ ", URL " +:+ tag (url d) (strategy d)))
          (fun dbError =>
             console_error
               ("[API /analyze] Error saving Lighthouse report to DB for URL "
                  +:+ tag (url d) (strategy d) +:+ ": "
                  +:+ exn_message dbError))
      else mret tt
  | None => mret tt
  end.

(** The inner [try { lighthouse } catch (lighthouseError) { ... }]. *)
Definition audit (u : string) (st : Strategy) (port : string)
  : M State (option RunnerResult) :=
  let sname := strategy_name st in
  try_catch
    (r ← run_lighthouse u port (lighthouseConfig st);
     console_log ("[API /analyze] Lighthouse run completed for "
                    +:+ tag u sname +:+ ".") ;;
     mret r)
    (fun lighthouseError =>
       let m := exn_message lighthouseError in
       console_error
         ("[API /analyze] Lighthouse execution itself threw an error for URL "
            +:+ u +:+ " (Strategy: " +:+ sname +:+ "): " +:+ m) ;;
       if JS.truthy m && JS.includes "performance mark has not been set" m
       then throw (Error ("Lighthouse failed early (Strategy: " +:+ sname
                            +:+ ") for URL: " +:+ u
                            +:+ ". Site may be incompatible. Original: "
                            +:+ m) (newStack env))
       else throw lighthouseError).

(** The body of the outer [try]. *)
Definition try_block (b : RequestBody) : M State Response :=
  '(u, st) ← analyzeSchema_parse b;
  let sname := strategy_name st in
  console_log ("[API /analyze] Starting Lighthouse analysis for: " +:+ u
                 +:+ " (Strategy: " +:+ sname +:+ ")") ;;
  puppeteer_launch ;;
  console_log ("[API /analyze] Puppeteer browser launched for "
                 +:+ tag u sname +:+ ".") ;;
  let port := puppeteerPortStr env in
  if negb (JS.truthy port) then
    console_error ("[API /analyze] Failed to get Puppeteer port for "
                     +:+ tag u sname +:+ ". WSEndpoint:") ;;
    (s ← get; if browser s then browser_close else mret tt) ;;
    respond 500
      (Message "Internal server error: Puppeteer port not found." None None)
  else
    console_log ("[API /analyze] Puppeteer listening on port: " +:+ port
                   +:+ " for " +:+ tag u sname) ;;
    console_log ("[API /analyze] Lighthouse config for " +:+ sname +:+ ":") ;;
    runnerResult ← audit u st port;
    match runnerResult ≫= lhr with
    | None =>
        console_error
          ("[API /analyze] Lighthouse analysis failed to return a report (lhr) for URL "
             +:+ u +:+ " (Strategy: " +:+ sname +:+ ").") ;;
        throw (Error "Lighthouse analysis failed to produce a report."
                     (newStack env))
    | Some l =>
        let d := responseData u sname l in
        persist d l ;;
        console_log ("[API /analyze] Successfully processed Lighthouse report for: "
                       +:+ tag u sname) ;;
        respond 200 (Data d)
    end.

Definition errorMessage (R_URL R_STRATEGY m : string) : string :=
  if JS.truthy m then
    if JS.includes "ERR_NAME_NOT_RESOLVED" m || JS.includes "ECONNREFUSED" m
    then "Could not resolve/connect to URL: " +:+ R_URL
           +:+ ". Check URL & site status."
    else if JS.includes "Protocol error" m && JS.includes "Target closed" m
    then "Browser tab crashed/closed for URL: " +:+ R_URL +:+ "."
    else if JS.includes "Failed to launch the browser process" m
    then "Failed to launch browser. Check server logs for Puppeteer/Chrome issues."
    else if JS.includes "performance mark has not been set" m
            || JS.includes "Lighthouse failed early" m
            || JS.includes "Lighthouse analysis failed to produce a report" m
    then m
    else "An unexpected error occurred: " +:+ m
  else "Failed to perform Lighthouse analysis for " +:+ R_STRATEGY +:+ ".".

(** The outer [catch (error)]. *)
Definition catch_block (b : RequestBody) (error : Exn) : M State Response :=
  let R_URL := default "unknown" (body_url b) in
  let R_STRATEGY := default "unknown" (body_strategy b) in
  console_error ("[API /analyze] CRITICAL ERROR in handler for URL "
                   +:+ R_URL +:+ " (Strategy: " +:+ R_STRATEGY +:+ "): "
                   +:+ exn_message error) ;;
  match error with
  | ZodError issues =>
      respond 400
        (Invalid ("Validation failed: " +:+ String.concat ", " issues) issues)
  | Error m stk =>
      respond 500
        (Message ("Error during Lighthouse analysis for " +:+ R_STRATEGY +:+ ".")
                 (Some (errorMessage R_URL R_STRATEGY m))
                 (if development env then Some stk else None))
  end.

Definition orUnknown (o : option string) : string :=
  match o with
  | Some s => if JS.truthy s then s else "unknown"
  | None => "unknown"
  end.

(** The outer [finally]. *)
Definition finally_block (b : RequestBody) : M State unit :=
  let where_ := "URL " +:+ orUnknown (body_url b) +:+ " (Strategy: "
                  +:+ orUnknown (body_strategy b) +:+ ")" in
  s ← get;
  if browser s then
    try_catch
      (console_log ("[API /analyze] Finally block: Closing browser for "
                      +:+ where_ +:+ ".") ;;
       browser_close ;;
       console_log ("[API /analyze] Finally block: Browser closed for "
                      +:+ where_ +:+ "."))
      (fun closeError =>
         console_error ("[API /analyze] Finally block: Error closing browser for "
                          +:+ where_ +:+ ": " +:+ exn_message closeError))
  else mret tt.

(** The [TypeError] of destructuring a body that is [null] (in the
    engine's wording; for [undefined] it ends accordingly). *)
Definition destructuringError : Exn :=
  Error "Cannot destructure property 'url' of 'req.body' as it is null."
        (newStack env).

(** The handler.  The session lookup and the destructuring of [req.body]
    come before the [try]: what they throw leaves the handler. *)
Definition handler (req : Request) : M State Response :=
  if negb (String.eqb (method req) "POST") then
    respond 405 (Message "Method Not Allowed" None None)
  else
    getServerSession ;;
    match body req with
    | None => throw destructuringError
    | Some b =>
        try_finally (try_catch (try_block b) (catch_block b))
                    (finally_block b)
    end.

(** One request, from a fresh state. *)
Definition serve (req : Request) : Outcome Response * State :=
  handler req initial.

End Handler.

End Analyze.

(** ** [components/DiagnosticsDisplay.tsx] *)

Module Diagnostics.

Local Open Scope string_scope.

Inductive Icon :=
| InformationCircleIcon
| CheckCircleIcon
| LightBulbIcon
| ExclamationTriangleIcon.

(** What one [AuditItem] shows (collapsed). *)
Record Row := {
  row_audit : Audit;
  row_icon : Icon;
  iconColor : string;
  titleColor : string;
  row_value : option string;     (* the red display value, when shown *)
  expandable : bool
}.

Definition modeIs (m : string) (a : Audit) : bool :=
  String.eqb (scoreDisplayMode a) m.

(** The icon of a row.  The thresholds [0.9] and [0.5] are compared as
    the decimals they are written as; for a score that is a double this
    is the comparison the code makes. *)
Definition iconOf (a : Audit) (isPassed : bool) : Icon * string * string :=
  if isPassed then (CheckCircleIcon, "text-green-500", "text-slate-600")
  else if modeIs "opportunity" a
  then (LightBulbIcon, "text-yellow-600", "text-slate-700")
  else match score a with
       | Some s =>
           if Qle_bool (9 # 10) s
           then (CheckCircleIcon, "text-green-500", "text-slate-700")
           else if Qle_bool (5 # 10) s
           then (ExclamationTriangleIcon, "text-yellow-500", "text-slate-700")
           else (ExclamationTriangleIcon, "text-red-600", "text-slate-700")
       | None =>
           if modeIs "manual" a
           then (InformationCircleIcon, "text-blue-500", "text-slate-700")
           else (InformationCircleIcon, "text-slate-500", "text-slate-700")
       end.

(** [AuditItem]: [None] is the component returning [null]. *)
Definition AuditItem (a : Audit) (isPassed : bool) : option Row :=
  let '(icon, ic, tc) := iconOf a isPassed in
  if modeIs "notApplicable" a || modeIs "error" a then None
  else Some {| row_audit := a;
               row_icon := icon;
               iconColor := ic;
               titleColor := tc;
               row_value :=
                 match displayValue a with
                 | Some v => if JS.truthy v && negb isPassed then Some v else None
                 | None => None
                 end;
               expandable :=
                 match audit_description a with
                 | Some d => JS.truthy d
                 | None => false
                 end |}.

(** [category.auditRefs.map(ref => allAudits[ref.id])
      .filter(audit => audit && mode !== 'notApplicable' && mode !== 'error')]. *)
Definition relevantAudits (refs : list AuditRef)
           (allAudits : gmap string Audit) : list Audit :=
  List.filter
    (fun a => negb (modeIs "notApplicable" a) && negb (modeIs "error" a))
    (omap (fun r => allAudits !! ref_id r) refs).

Definition isOpportunity (a : Audit) : bool :=
  match score a with
  | Some s => negb (Qle_bool 1 s) && negb (modeIs "manual" a)
  | None => false
  end.

Definition isManual (a : Audit) : bool := modeIs "manual" a.

Definition isPassedAudit (a : Audit) : bool :=
  match score a with
  | Some s => Qeq_bool s 1 && negb (modeIs "manual" a)
              && negb (modeIs "informative" a)
  | None => false
  end.

Definition opportunitiesAndDiagnostics (rel : list Audit) : list Audit :=
  List.filter isOpportunity rel.
Definition manualChecks (rel : list Audit) : list Audit :=
  List.filter isManual rel.
Definition passedAudits (rel : list Audit) : list Audit :=
  List.filter isPassedAudit rel.

(** The colour thresholds of the gauge. *)
Definition gaugeColor (categoryScore : Z) : string :=
  if (90 <=? categoryScore)%Z then "text-green-500"
  else if (50 <=? categoryScore)%Z then "text-yellow-500"
  else "text-red-500".

(** [category.score != null ? Math.round(category.score * 100) : null]. *)
Definition categoryScore (c : Category) : option Z :=
  roundScore (cat_score c).

(** What one [CategorySection] shows: the gauge, the three lists with
    their counters, and the rows currently on screen. *)
Record SectionView := {
  sec_category : Category;
  sec_gauge : option (Z * string);
  sec_opportunities : list Audit;
  sec_manual : list Audit;
  sec_passed : list Audit;
  sec_rows : list Row
}.

(** The two toggles of a section ([useState(false)] each). *)
Record Toggles := { showPassed : bool; showManual : bool }.

Definition collapsed : Toggles :=
  {| showPassed := false; showManual := false |}.

Definition CategorySection (category : option Category)
           (allAudits : gmap string Audit) (t : Toggles)
  : option SectionView :=
  match category with
  | None => None
  | Some c =>
      match auditRefs c with
      | None => None
      | Some refs =>
          if String.eqb (cat_id c) "pwa" then None
          else
            let rel := relevantAudits refs allAudits in
            let opp := opportunitiesAndDiagnostics rel in
            let man := manualChecks rel in
            let pas := passedAudits rel in
            if (length opp =? 0)%nat && (length man =? 0)%nat
               && (length pas =? 0)%nat
            then None
            else
              Some {| sec_category := c;
                      sec_gauge :=
                        (fun n => (n, gaugeColor n)) <$> categoryScore c;
                      sec_opportunities := opp;
                      sec_manual := man;
                      sec_passed := pas;
                      sec_rows :=
                        (omap (fun a => AuditItem a false) opp
                         ++ (if showManual t
                             then omap (fun a => AuditItem a false) man
                             else [])
                         ++ (if showPassed t
                             then omap (fun a => AuditItem a true) pas
                             else []))%list |}
      end
  end.

Definition categoryDisplayOrder : list string :=
  ["performance"; "accessibility"; "best-practices"; "seo"].

Inductive View :=
| NotAvailable                           (* "Diagnostic data not available." *)
| Sections (children : list (option SectionView)).

Definition DiagnosticsDisplay (categories : option (gmap string Category))
           (audits : option (gmap string Audit))
           (toggles : string -> Toggles) : View :=
  match categories, audits with
  | Some cats, Some auds =>
      Sections
        (map (fun categoryId =>
                match cats !! categoryId with
                | Some category =>
                    CategorySection (Some category) auds (toggles categoryId)
                | None => None
                end)
             categoryDisplayOrder)
  | _, _ => NotAvailable
  end.

(** The sections that are actually on screen. *)
Definition rendered (v : View) : list SectionView :=
  match v with
  | NotAvailable => []
  | Sections children => omap (fun x => x) children
  end.

End Diagnostics.

(** ** [pages/api/security-scan.ts]

    The file does not parse as the sources give it: on line 180 the call
    of [createCheckItem] that builds the summary of a site that is not
    blacklisted is never closed; its third argument, the template
    literal, is followed by the semicolon.  [line180] and [route] below
    are the file as given.  All other definitions of this module, among
    them [blacklistSummaryOf], [scan] and [handler], embed the file as it
    reads once that call is closed after its third argument, which is what
    the two sibling calls of the same statement and of the one before it
    do. *)

Module SecurityScan.

Local Open Scope string_scope.

(** [details] is a string in every call but one, which passes [true]. *)
Inductive Details := Text (s : string) | Flag (b : bool).

(** [status] is kept as the string the code writes. *)
Record SecurityCheckItem := {
  check : option string;
  text : option string;
  status : string;
  message : option string;
  details : option Details
}.

Record SiteInfo := {
  ipAddress : option string;
  hosting : option string;
  cms : option string;
  server : option string
}.

Inductive Risk := Minimal | Low | Medium | High | Critical.
Inductive Severity := good | warning | danger.

Record ApiSecurityScanResponse := {
  url : string;
  scanDate : string;
  overallStatusText : string;
  overallStatusSeverity : Severity;
  results : list SecurityCheckItem;
  malwareSummary : SecurityCheckItem;
  blacklistSummary : SecurityCheckItem;
  siteInfo : SiteInfo;
  securityRisk : Risk;
  overallScanMessage : string;
  malwareAndSecurityDetails : list SecurityCheckItem;
  blacklistStatusDetails : list SecurityCheckItem
}.

Definition createCheckItem (identifier status : string)
           (message : option string) (details : option Details)
           (isSummaryItem : bool) : SecurityCheckItem :=
  if isSummaryItem then
    {| check := None; text := Some identifier; status := status;
       message := None; details := Text <$> message |}
  else
    {| check := Some identifier; text := Some identifier; status := status;
       message := Some (default "" message); details := details |}.

(** The three-argument calls. *)
Definition item (identifier status message : string) : SecurityCheckItem :=
  createCheckItem identifier status (Some message) None false.

Definition hasStatus (s : string) (r : SecurityCheckItem) : bool :=
  String.eqb (status r) s.

(** The response headers read by the scan, and the peer address. *)
Record Fetched := {
  header_server : option string;
  header_csp : option string;
  remoteAddress : option string
}.

(** The collaborators of one scan: the URL parser's protocol ([None] when
    [new URL] throws), the HTTP fetch (its error message when it fails),
    and the clock. *)
Record Env := {
  protocol : option string;
  fetched : string + Fetched;
  now : string
}.

Definition orElse (o : option string) (d : string) : string :=
  match o with
  | Some s => if JS.truthy s then s else d
  | None => d
  end.

(** 1. HTTPS check. *)
Definition httpsCheck (env : Env) (items : list SecurityCheckItem)
  : list SecurityCheckItem :=
  match protocol env with
  | Some p =>
      if String.eqb p "https:" then
        items ++ [item "HTTPS Usage" "pass"
                       "Site is served over a secure HTTPS connection."]
      else
        items ++ [item "HTTPS Usage" "fail"
                       "Site is not using HTTPS! This is a critical security vulnerability."]
  | None =>
      items ++ [item "URL Parsing" "fail"
                     "The provided URL could not be parsed correctly."]
  end%list.

(** 2. Basic header analysis. *)
Definition headerCheck (env : Env) (items : list SecurityCheckItem)
  : list SecurityCheckItem * SiteInfo :=
  match fetched env with
  | inr h =>
      let reach := item "Website Reachable" "pass"
                        "Successfully connected to the website." in
      let csp :=
        if JS.truthy (orElse (header_csp h) "") then
          item "Content-Security-Policy (CSP)" "pass" "CSP header is implemented."
        else
          item "Content-Security-Policy (CSP)" "warn" "CSP header is missing." in
      ((items ++ [reach; csp])%list,
       {| server := Some (orElse (header_server h) "Not Disclosed");
          ipAddress := Some (orElse (remoteAddress h) "N/A");
          hosting := None; cms := None |})
  | inl fetchError =>
      ((items ++ [createCheckItem "Website Fetch & Headers" "fail"
                    (Some "Could not connect to the website to analyze headers.")
                    (Some (Text fetchError)) false])%list,
       {| server := None; ipAddress := Some "N/A (Connection Failed)";
          hosting := None; cms := None |})
  end.

(** The simulated malware and blacklist findings. *)
Definition mockChecks (targetUrl : string)
           (malware blacklist : list SecurityCheckItem)
  : list SecurityCheckItem * list SecurityCheckItem :=
  if JS.includes "malwareexample.com" targetUrl then
    ((malware ++ [item "JS.Trojan.Fake Found" "infected"
                       "A known trojan signature was detected."])%list,
     (blacklist ++ [item "ExampleBadGuysList" "blacklisted"
                         "Reason: Distribution of malware."])%list)
  else if JS.includes "warningexample.com" targetUrl then
    ((malware ++ [item "Outdated jQuery Version" "warn"
                       "Version 1.12.4 detected, which has known vulnerabilities."])%list,
     blacklist)
  else
    ((malware ++ [item "Generic Malware Scan" "clean"
                       "No common malware signatures found."])%list,
     (blacklist ++ [item "Google Safe Browsing" "not_blacklisted"
                         "Domain clean."])%list).

(** Risk and overall status determination. *)
Definition assess (allChecks : list SecurityCheckItem)
  : Risk * Severity * string :=
  let criticalFailures :=
    length (List.filter (fun r => hasStatus "infected" r
                                  || hasStatus "blacklisted" r) allChecks) in
  let highRiskFailures := length (List.filter (hasStatus "fail") allChecks) in
  let warnings := length (List.filter (hasStatus "warn") allChecks) in
  if (0 <? criticalFailures)%nat then
    (Critical, danger,
     "CRITICAL security issues detected! Immediate attention required.")
  else if (2 <=? highRiskFailures)%nat then
    (High, danger,
     "High security risk. Multiple vulnerabilities or issues found.")
  else if (highRiskFailures =? 1)%nat || (3 <=? warnings)%nat then
    (Medium, warning,
     "Medium security risk. Some weaknesses or vulnerabilities present.")
  else if (0 <? warnings)%nat then
    (Low, warning, "Low security risk. Minor potential weaknesses found.")
  else
    (Minimal, good,
     "Site passed basic security checks with minimal or no issues.").

Definition malwareSummaryOf (malware : list SecurityCheckItem)
  : SecurityCheckItem :=
  if existsb (hasStatus "infected") malware then
    item "Malware Detected!" "infected" "Active malware signatures found."
  else if existsb (fun i => hasStatus "fail" i || hasStatus "warn" i) malware then
    createCheckItem "Security Issues/Warnings" "warning"
                    (Some "Review detailed security checks.")
                    (Some (Flag true)) false
  else
    item "No Malware Found" "clean" "Scanner did not detect malware signatures.".

(** The summary of the blacklist findings.  The [else] branch is the
    statement of line 180, read with its call closed. *)
Definition blacklistSummaryOf (blacklist : list SecurityCheckItem)
  : SecurityCheckItem :=
  if existsb (hasStatus "blacklisted") blacklist then
    item "Site Blacklisted" "blacklisted" "Found on one or more blacklists."
  else
    item "Site Not Blacklisted" "not_blacklisted"
         (pretty (length blacklist) +:+ " common blacklists checked.").

(** The scan proper, for a validated [targetUrl]. *)
Definition scan (env : Env) (targetUrl : string) : ApiSecurityScanResponse :=
  let malware0 := httpsCheck env [] in
  let '(malware1, info) := headerCheck env malware0 in
  let siteInformation :=
    {| server := server info; ipAddress := ipAddress info;
       hosting := Some "MockHost Pro";
       cms := Some (if JS.includes "blog" targetUrl
                    then "WordPress (Simulated)"
                    else "Custom Build (Simulated)") |} in
  let '(malwareAndSecurityItems, blacklistItems) :=
    mockChecks targetUrl malware1 [] in
  let allChecks := (malwareAndSecurityItems ++ blacklistItems)%list in
  let '(risk, severity, statusText) := assess allChecks in
  {| url := targetUrl;
     scanDate := now env;
     overallStatusText := statusText;
     overallStatusSeverity := severity;
     results := [];
     malwareSummary := malwareSummaryOf malwareAndSecurityItems;
     blacklistSummary := blacklistSummaryOf blacklistItems;
     siteInfo := siteInformation;
     securityRisk := risk;
     overallScanMessage :=
       "This automated scan provides a snapshot of basic security indicators. For in-depth analysis and guaranteed protection, consult with cybersecurity professionals.";
     malwareAndSecurityDetails := malwareAndSecurityItems;
     blacklistStatusDetails := blacklistItems |}.

Inductive Body :=
| Payload (p : ApiSecurityScanResponse)
| Message (message : string)
| Invalid (message : string) (errorDetails : list string).

Record Response := { code : Z; json : Body }.

(** A request body that is an object: [url] is a string, or missing. *)
Record RequestBody := { body_url : option string }.

(** [req.body] is [None] when it is [null] or [undefined], and an object
    otherwise. *)
Record Request := { method : string; body : option RequestBody }.

(** The tokens of a statement, as far as its nesting goes. *)
Inductive Token :=
| Word (w : string)          (* an identifier, an operator or a comma *)
| Literal (text : string)    (* a string or a template literal *)
| Open                       (* an opening parenthesis *)
| Close                      (* a closing parenthesis *)
| Semicolon.

(** Line 180 as the sources give it. *)
Definition line180 : list Token :=
  [Word "currentBlacklistSummary"; Word "="; Word "createCheckItem"; Open;
   Literal "Site Not Blacklisted"; Word ",";
   Literal "not_blacklisted"; Word ",";
   Literal "${blacklistItems.length} common blacklists checked.";
   Semicolon].

(** An expression statement parses only if each parenthesis is closed
    after it was opened and before the statement's semicolon. *)
Fixpoint wellNested (depth : nat) (tokens : list Token) : bool :=
  match tokens with
  | [] => (depth =? 0)%nat
  | Open :: rest => wellNested (S depth) rest
  | Close :: rest =>
      match depth with
      | O => false
      | S d => wellNested d rest
      end
  | Semicolon :: rest => (depth =? 0)%nat && wellNested 0 rest
  | _ :: rest => wellNested depth rest
  end.

Section Handler.
Variable isUrl : string -> bool.   (* the schema's URL check *)
Variable env : Env.

(** [scanSchema.parse(req.body)]: the validated URL, or the issues.  It
    is the only step of the modelled scan that throws (the two inner
    [try] blocks catch their own failures), so the handler's generic 500
    answer has no path here. *)
Definition scanSchema_parse (b : RequestBody) : list string + string :=
  match body_url b with
  | None => inl ["Required"]
  | Some u =>
      if isUrl u then inr u
      else inl ["Invalid URL. Must include http:// or https://"]
  end.

(** The [TypeError] of destructuring a body that is [null] (in the
    engine's wording; its stack is left out). *)
Definition destructuringError : Exn :=
  Error "Cannot destructure property 'url' of 'req.body' as it is null." "".

(** The handler, read with line 180 closed.  The destructuring of
    [req.body] comes before the [try]: what it throws leaves the
    handler. *)
Definition handler (req : Request) : Outcome Response :=
  if negb (String.eqb (method req) "POST") then
    Ret {| code := 405; json := Message "Method Not Allowed" |}
  else
    match body req with
    | None => Throw destructuringError
    | Some b =>
        match scanSchema_parse b with
        | inr targetUrl =>
            Ret {| code := 200; json := Payload (scan env targetUrl) |}
        | inl issues =>
            Ret {| code := 400;
                   json := Invalid ("Validation failed: "
                                      +:+ String.concat ", " issues)
                                   issues |}
        end
    end.

End Handler.

End SecurityScan.

(** ** [pages/api/reports.ts] *)

Module Reports.

Local Open Scope string_scope.

(** Modelled from the spec: the persisted report row.  Its declaration
    (the database schema) is not among the sources; the spec lists a URL,
    a device strategy, the category scores (integers 0..100 or absent),
    the owning user and a creation timestamp. *)
Record Report := {
  url : string;
  strategy : string;
  performanceScore : option Z;
  accessibilityScore : option Z;
  bestPracticesScore : option Z;
  seoScore : option Z;
  pwaScore : option Z;
  userId : string;
  createdAt : Z
}.

(** The two values of an [orderBy] clause. *)
Inductive SortOrder := asc | desc.

(** The arguments of [findMany], as far as the handler gives them. *)
Record FindManyArgs := {
  where_userId : string;
  orderBy_createdAt : SortOrder;
  take : nat
}.

(** [a] may stand before [b] in the given order of [createdAt]. *)
Definition inOrder (o : SortOrder) (a b : Report) : Prop :=
  match o with
  | desc => createdAt b <= createdAt a
  | asc => createdAt a <= createdAt b
  end.

#[global] Instance inOrder_dec o a b : Decision (inOrder o a b).
Proof. destruct o; unfold inOrder; apply _. Defined.

(** [orderBy: { createdAt: 'desc' }]: [a] may stand before [b]. *)
Definition newerFirst (a b : Report) : Prop := inOrder desc a b.

(** Modelled from the spec: the query
    [findMany({ where: { userId }, orderBy: { createdAt }, take })]
    of the object-relational mapper, whose client ([lib/prisma]) is not
    among the sources: the rows of that user, in the order asked for,
    cut after [take] rows. *)
Definition findMany (table : list Report) (args : FindManyArgs)
  : list Report :=
  list.take (take args)
    (merge_sort (inOrder (orderBy_createdAt args))
       (List.filter (fun r => String.eqb (userId r) (where_userId args))
                    table)).

Inductive Body :=
| Rows (reports : list Report)
| Message (message : string).

Record Response := { status : Z; json : Body }.

(** The collaborators of one request: what the session lookup returns
    (the lookup itself is taken to return), the table of stored reports,
    and whether the query throws. *)
Record Env := {
  session : option Analyze.Session;
  table : list Report;
  queryError : option Exn
}.

(** The identity the guard
    [!session || !session.user || !session.user.id] lets through. *)
Definition identity (env : Env) : option string :=
  s ← session env; u ← Analyze.user s; i ← Analyze.user_id u;
  if JS.truthy i then Some i else None.

Definition handler (env : Env) (method : string) : Response :=
  if negb (String.eqb method "GET") then
    {| status := 405; json := Message "Method Not Allowed" |}
  else
    match identity env with
    | None => {| status := 401; json := Message "Unauthorized" |}
    | Some userId =>
        match queryError env with
        | None =>
            {| status := 200;
               json := Rows (findMany (table env)
                               {| where_userId := userId;
                                  orderBy_createdAt := desc;
                                  take := 20 |}) |}
        | Some _ => {| status := 500; json := Message "Error fetching reports" |}
        end
    end.

End Reports.

(** ** The two form handlers: [pages/index.tsx] and
       [pages/security-checker.tsx] *)

Module Forms.

Local Open Scope string_scope.

Inductive Post :=
| PostAnalyze (url : string) (strategy : Analyze.Strategy)
| PostSecurityScan (url : string).

(** What one submission does: the error put under the form, the value
    left in the URL field, and the requests sent, in order. *)
Record Submission := {
  formError : option string;
  field : string;
  posts : list Post
}.

(** [HomePage.handleSubmit]: the analysis form. *)
Definition HomePage_handleSubmit (url : string) : Submission :=
  let currentUrl := JS.trim url in
  if negb (JS.truthy currentUrl) then
    {| formError := Some "Please enter a URL."; field := url; posts := [] |}
  else if negb (JS.startsWith "http://" currentUrl)
          && negb (JS.startsWith "https://" currentUrl) then
    {| formError := Some "URL must start with http:// or https://";
       field := url; posts := [] |}
  else
    {| formError := None; field := url;
       posts := [PostAnalyze currentUrl Analyze.mobile;
                 PostAnalyze currentUrl Analyze.desktop] |}.

(** [SecurityCheckerPage.handleSubmit]: the security-scan form. *)
Definition SecurityCheckerPage_handleSubmit (url : string) : Submission :=
  let currentUrl := JS.trim url in
  if negb (JS.truthy currentUrl) then
    {| formError := Some "Please enter a website URL to scan.";
       field := url; posts := [] |}
  else
    let fullUrl :=
      if negb (JS.startsWith "http://" currentUrl)
         && negb (JS.startsWith "https://" currentUrl)
      then "https://" +:+ currentUrl
      else currentUrl in
    {| formError := None; field := fullUrl;
       posts := [PostSecurityScan fullUrl] |}.

End Forms.

(** ** [components/MetricsDisplay.tsx] *)

Module Metrics.

Local Open Scope string_scope.

(** What one [MetricItem] shows. *)
Record MetricView := {
  metric_title : string;
  dotColor : string;
  display : string
}.

(** The dot of a metric, by its score; thresholds as in the audit rows. *)
Definition dotOf (score : option Q) : string :=
  match score with
  | Some s =>
      if Qle_bool (9 # 10) s then "bg-green-500"
      else if Qle_bool (5 # 10) s then "bg-yellow-500"
      else "bg-red-500"
  | None => "bg-gray-400"
  end.

(** [MetricItem]; [None] for [value] is [undefined], which a template
    string prints as the word "undefined". *)
Definition MetricItem (title : string) (value unit displayValue : option string)
           (score : option Q) : option MetricView :=
  match value, displayValue with
  | None, None => None
  | _, _ =>
      let template :=
        default "undefined" value
          +:+ match unit with
              | Some u => if JS.truthy u then u else ""
              | None => ""
              end in
      Some {| metric_title := title;
              dotColor := dotOf score;
              display := match displayValue with
                         | Some d => if JS.truthy d then d else template
                         | None => template
                         end |}
  end.

Definition metricIds : list string :=
  ["first-contentful-paint"; "largest-contentful-paint";
   "total-blocking-time"; "cumulative-layout-shift"; "speed-index"].

(** [metricIds.map(id => audits[id]).filter(Boolean)]. *)
Definition metricsToShow (audits : gmap string Audit) : list Audit :=
  omap (fun i => audits !! i) metricIds.

(** [MetricsDisplay]: [None] when there is no audit map, else the grid's
    children (a child is [None] where [MetricItem] returns null). *)
Definition MetricsDisplay (audits : option (gmap string Audit))
  : option (list (option MetricView)) :=
  match audits with
  | None => None
  | Some a =>
      Some (map (fun metric =>
                   MetricItem (audit_title metric) None None
                              (displayValue metric) (score metric))
                (metricsToShow a))
  end.

(** The metrics on screen. *)
Definition shown (grid : option (list (option MetricView))) : list MetricView :=
  match grid with
  | Some children => omap (fun x => x) children
  | None => []
  end.

End Metrics.

(** ** [components/PerformanceGauge.tsx] and [components/ReportCard.tsx] *)

Module Card.

Local Open Scope string_scope.

Record GaugeView := {
  ringColor : string;
  textColor : string;
  gauge_score : Z;
  gauge_label : string
}.

(** [PerformanceGauge]; the arc itself (a multiple of pi) is left out. *)
Definition PerformanceGauge (score : option Z) (label : option string)
  : option GaugeView :=
  match score with
  | None => None
  | Some n =>
      let '(ring, txt) :=
        if (90 <=? n)%Z then ("text-green-500", "text-green-600")
        else if (50 <=? n)%Z then ("text-yellow-500", "text-yellow-600")
        else ("text-red-500", "text-red-600") in
      Some {| ringColor := ring; textColor := txt; gauge_score := n;
              gauge_label := default "Performance" label |}
  end.

Record TileView := {
  tile_label : string;
  displayScore : string;
  arcColorClass : string;
  fillColorClass : string;
  textColorClass : string
}.

(** [CategoryScoreItem]. *)
Definition CategoryScoreItem (label : string) (score : option Z) : TileView :=
  let '(arc, fill, txt) :=
    match score with
    | Some n =>
        if (90 <=? n)%Z then ("text-green-500", "bg-green-50", "text-green-700")
        else if (50 <=? n)%Z
        then ("text-yellow-500", "bg-yellow-50", "text-yellow-700")
        else ("text-red-500", "bg-red-50", "text-red-700")
    | None => ("text-gray-300", "bg-gray-100", "text-gray-500")
    end in
  {| tile_label := label;
     displayScore := match score with Some n => pretty n | None => "-" end;
     arcColorClass := arc; fillColorClass := fill; textColorClass := txt |}.

(** The report as the card receives it: a fresh answer of [/api/analyze],
    or a stored row (which has no [fullLighthouseDetails]). *)
Record ReportCardDisplayData := {
  url : string;
  strategy : string;
  performanceScore : option Z;
  accessibilityScore : option Z;
  bestPracticesScore : option Z;
  seoScore : option Z;
  pwaScore : option Z;
  fullLighthouseDetails : option Analyze.FullLighthouseDetails;
  createdAt : option string
}.

(** ASCII part of [String.prototype.toLowerCase]. *)
Definition lowerChar (c : ascii) : ascii :=
  let n := nat_of_ascii c in
  if ((65 <=? n) && (n <=? 90))%nat then ascii_of_nat (n + 32) else c.

Fixpoint toLowerCase (s : string) : string :=
  match s with
  | EmptyString => EmptyString
  | String c rest => String (lowerChar c) (toLowerCase rest)
  end.

Definition orString (a : option string) (b : option string) : option string :=
  match a with
  | Some x => if JS.truthy x then Some x else b
  | None => b
  end.

(** The detailed part of a card (the screenshot is left out). *)
Record Details := {
  gauge : option GaugeView;
  metrics : option (list (option Metrics.MetricView));
  diagnostics : Diagnostics.View
}.

Record CardBody := {
  ring : bool;
  heading : string;
  desktopIcon : bool;
  strategyText : string;
  analyzed : option string;     (* the timestamp shown after "Analyzed:" *)
  tiles : list TileView;
  details : option Details;
  note : bool                   (* "Detailed diagnostics not available" *)
}.

Inductive CardView :=
| Incomplete                    (* "Report data is incomplete or unavailable." *)
| Complete (b : CardBody).

(** [x ?? y]. *)
Definition coalesce (x y : option Z) : option Z :=
  match x with Some _ => x | None => y end.

Definition ReportCard (report : ReportCardDisplayData) (isCurrent : bool)
           (toggles : string -> Diagnostics.Toggles) : CardView :=
  let lhrCategories := Analyze.fld_categories <$> fullLighthouseDetails report in
  let lhrFinalUrl := Analyze.fld_finalUrl <$> fullLighthouseDetails report in
  let lhrFetchTime := Analyze.fld_fetchTime <$> fullLighthouseDetails report in
  let fallback k := lhrCategories ≫= fun cats => normalizedScore cats k in
  let performance := coalesce (performanceScore report) (fallback "performance") in
  let accessibility :=
    coalesce (accessibilityScore report) (fallback "accessibility") in
  let bestPractices :=
    coalesce (bestPracticesScore report) (fallback "best-practices") in
  let seo := coalesce (seoScore report) (fallback "seo") in
  let title :=
    match lhrFinalUrl with
    | Some f => if JS.truthy f then f else url report
    | None => url report
    end in
  match JS.truthy title, performance with
  | false, None => Incomplete
  | _, _ =>
      Complete
        {| ring := isCurrent;
           heading := title;
           desktopIcon := String.eqb (toLowerCase (strategy report)) "desktop";
           strategyText := strategy report;
           analyzed := orString lhrFetchTime (orString (createdAt report) None);
           tiles := [CategoryScoreItem "Performance" performance;
                     CategoryScoreItem "Accessibility" accessibility;
                     CategoryScoreItem "Best Practices" bestPractices;
                     CategoryScoreItem "SEO" seo];
           details :=
             match fullLighthouseDetails report with
             | Some d =>
                 Some {| gauge := PerformanceGauge performance None;
                         metrics :=
                           Metrics.MetricsDisplay (Some (Analyze.fld_audits d));
                         diagnostics :=
                           Diagnostics.DiagnosticsDisplay
                             (Some (Analyze.fld_categories d))
                             (Some (Analyze.fld_audits d)) toggles |}
             | None => None
             end;
           note := match fullLighthouseDetails report, performance with
                   | None, Some _ => true
                   | _, _ => false
                   end |}
  end.

(** The answer of [/api/analyze] as the page hands it to the card. *)
Definition ofPayload (d : Analyze.ApiAnalyzeResponseData)
  : ReportCardDisplayData :=
  {| url := Analyze.url d;
     strategy := Analyze.strategy d;
     performanceScore := Analyze.performanceScore d;
     accessibilityScore := Analyze.accessibilityScore d;
     bestPracticesScore := Analyze.bestPracticesScore d;
     seoScore := Analyze.seoScore d;
     pwaScore := Analyze.pwaScore d;
     fullLighthouseDetails := Analyze.fullLighthouseDetails d;
     createdAt := None |}.

End Card.

(** ** [pages/security-checker.tsx]: how a scan is displayed *)

Module SecurityPage.

Local Open Scope string_scope.

Inductive StatusIcon :=
| ShieldCheckIcon
| XCircleIcon
| ExclamationTriangleIcon
| InformationCircleIcon.

Record StatusDisplayInfo := {
  Icon : StatusIcon;
  color : string;
  bgColor : string;
  borderColor : string
}.

Definition oneOf (s : string) (cases : list string) : bool :=
  existsb (String.eqb s) cases.

(** [getStatusIconAndColor]: the [switch] over the status or severity. *)
Definition getStatusIconAndColor (status : option string) : StatusDisplayInfo :=
  let s := default "" status in
  if oneOf s ["pass"; "good"; "clean"; "not_blacklisted"] then
    {| Icon := ShieldCheckIcon; color := "text-green-500";
       bgColor := "bg-green-50"; borderColor := "border-green-200" |}
  else if oneOf s ["fail"; "danger"; "infected"; "blacklisted"] then
    {| Icon := XCircleIcon; color := "text-red-500";
       bgColor := "bg-red-50"; borderColor := "border-red-200" |}
  else if oneOf s ["warn"; "warning"] then
    {| Icon := ExclamationTriangleIcon; color := "text-yellow-500";
       bgColor := "bg-yellow-50"; borderColor := "border-yellow-200" |}
  else
    {| Icon := InformationCircleIcon; color := "text-blue-500";
       bgColor := "bg-blue-50"; borderColor := "border-blue-200" |}.

Definition riskLevels : list string :=
  ["Minimal"; "Low"; "Medium"; "High"; "Critical"].

(** [riskLevels.indexOf(risk)]: [None] is -1. *)
Fixpoint indexOf (x : string) (l : list string) : option nat :=
  match l with
  | [] => None
  | y :: rest => if String.eqb y x then Some 0%nat else S <$> indexOf x rest
  end.

Record MeterStyle := { width : Q; meterColor : string }.

(** [Math.min] and [Math.max] on two numbers. *)
Definition Math_min (a b : Q) : Q := if Qle_bool a b then a else b.
Definition Math_max (a b : Q) : Q := if Qle_bool a b then b else a.

(** [getRiskMeterStyles]; [width] is the number before the percent sign. *)
Definition getRiskMeterStyles (risk : option string) : MeterStyle :=
  match risk with
  | None => {| width := 0; meterColor := "bg-gray-300" |}
  | Some r =>
      if negb (JS.truthy r) then {| width := 0; meterColor := "bg-gray-300" |}
      else
        let percentage :=
          match indexOf r riskLevels with
          | Some riskIndex =>
              JS.times
                (JS.divide (JS.plus (inject_Z (Z.of_nat riskIndex)) (5 # 10))
                           (inject_Z (Z.of_nat (length riskLevels))))
                100
          | None => 5%Q
          end in
        {| width := Math_min 100 (Math_max 0 percentage);
           meterColor :=
             if String.eqb r "Low" then "bg-yellow-400"
             else if String.eqb r "Medium" then "bg-yellow-500"
             else if String.eqb r "High" then "bg-orange-500"
             else if String.eqb r "Critical" then "bg-red-600"
             else "bg-green-500" |}
  end.

(** The strings the server writes for its risk and severity. *)
Definition riskName (r : SecurityScan.Risk) : string :=
  match r with
  | SecurityScan.Minimal => "Minimal"
  | SecurityScan.Low => "Low"
  | SecurityScan.Medium => "Medium"
  | SecurityScan.High => "High"
  | SecurityScan.Critical => "Critical"
  end.

Definition severityName (s : SecurityScan.Severity) : string :=
  match s with
  | SecurityScan.good => "good"
  | SecurityScan.warning => "warning"
  | SecurityScan.danger => "danger"
  end.

End SecurityPage.

(** ** [pages/api/auth/[...nextauth].ts]: the two callbacks *)

Module Auth.

(** The token of a session, as far as the callbacks touch it. *)
Record Token := { sub : option string }.

(** The user object handed to [jwt] on sign-in. *)
Record AuthUser := { id : string }.

(** [callbacks.jwt({ token, user })]. *)
Definition jwt (token : Token) (user : option AuthUser) : Token :=
  match user with
  | Some u => {| sub := Some (id u) |}
  | None => token
  end.

(** [callbacks.session({ session, token })]. *)
Definition session (s : Analyze.Session) (token : option Token)
  : Analyze.Session :=
  match token, Analyze.user s with
  | Some t, Some _ =>
      {| Analyze.user := Some {| Analyze.user_id := sub t |} |}
  | _, _ => s
  end.

End Auth.

(** ** [pages/index.tsx]: the state of the home page *)

Module HomePage.

Local Open Scope string_scope.

Inductive SessionStatus := loading | authenticated | unauthenticated.

Record AnalysisState := {
  report : option Card.ReportCardDisplayData;
  error : option string;
  isLoading : bool
}.

Record State := {
  url : string;
  mobileAnalysis : AnalysisState;
  desktopAnalysis : AnalysisState;
  activeTab : Analyze.Strategy;
  formError : option string;
  dbPastReports : list Reports.Report;
  dbAveragePwaScore : option Z;
  sessionReports : list Card.ReportCardDisplayData;
  sessionAveragePwaScore : option Z
}.

Definition idle : AnalysisState :=
  {| report := None; error := None; isLoading := false |}.

(** The [useState] initial values. *)
Definition initial : State :=
  {| url := ""; mobileAnalysis := idle; desktopAnalysis := idle;
     activeTab := Analyze.mobile; formError := None;
     dbPastReports := []; dbAveragePwaScore := None;
     sessionReports := []; sessionAveragePwaScore := None |}.

(** A failed request, as the handlers read it. *)
Record AxiosError := {
  response_errorDetails : option string;
  response_message : option string;
  message : string
}.

(** ASCII part of [String.prototype.toUpperCase], on one character. *)
Definition upperChar (c : ascii) : ascii :=
  let n := nat_of_ascii c in
  if ((97 <=? n) && (n <=? 122))%nat then ascii_of_nat (n - 32) else c.

(** [s.charAt(0).toUpperCase() + s.slice(1)]. *)
Definition capitalize (s : string) : string :=
  match s with
  | String c rest => String (upperChar c) rest
  | EmptyString => EmptyString
  end.

Definition firstTruthy (o : option string) (rest : string) : string :=
  match o with
  | Some s => if JS.truthy s then s else rest
  | None => rest
  end.

(** The text put into [error] when a request fails. *)
Definition errorDetails (e : AxiosError) (strategy : Analyze.Strategy) : string :=
  firstTruthy (response_errorDetails e)
    (firstTruthy (response_message e)
       (firstTruthy (Some (message e))
          (capitalize (Analyze.strategy_name strategy) +:+ " analysis failed."))).

(** The effect on [sessionReports]: the mean of the PWA scores of the
    reports, rounded; null when no report has one.  The sum and the
    quotient are computed in doubles. *)
Definition averagePwa (reports : list Card.ReportCardDisplayData) : option Z :=
  if (0 <? length reports)%nat then
    let pwaScores := omap Card.pwaScore reports in
    if (0 <? length pwaScores)%nat then
      let sum :=
        fold_left (fun acc score => JS.plus acc (inject_Z score))
                  pwaScores 0%Q in
      Some (JS.Math_round
              (JS.divide sum (inject_Z (Z.of_nat (length pwaScores)))))
    else None
  else None.

Definition setAnalysis (tab : Analyze.Strategy) (a : AnalysisState) (s : State)
  : State :=
  match tab with
  | Analyze.mobile =>
      {| url := url s; mobileAnalysis := a;
         desktopAnalysis := desktopAnalysis s; activeTab := activeTab s;
         formError := formError s; dbPastReports := dbPastReports s;
         dbAveragePwaScore := dbAveragePwaScore s;
         sessionReports := sessionReports s;
         sessionAveragePwaScore := sessionAveragePwaScore s |}
  | Analyze.desktop =>
      {| url := url s; mobileAnalysis := mobileAnalysis s;
         desktopAnalysis := a; activeTab := activeTab s;
         formError := formError s; dbPastReports := dbPastReports s;
         dbAveragePwaScore := dbAveragePwaScore s;
         sessionReports := sessionReports s;
         sessionAveragePwaScore := sessionAveragePwaScore s |}
  end.

(** [analyzeStrategy], first half: the tab starts loading. *)
Definition analysisStarted (tab : Analyze.Strategy) (s : State) : State :=
  setAnalysis tab {| report := None; error := None; isLoading := true |} s.

(** [analyzeStrategy], second half: the request has come back. *)
Definition analysisFinished (tab : Analyze.Strategy)
           (outcome : AxiosError + Card.ReportCardDisplayData) (s : State)
  : State :=
  match outcome with
  | inr newReport =>
      let s' := setAnalysis tab {| report := Some newReport; error := None;
                                   isLoading := false |} s in
      {| url := url s'; mobileAnalysis := mobileAnalysis s';
         desktopAnalysis := desktopAnalysis s'; activeTab := activeTab s';
         formError := formError s'; dbPastReports := dbPastReports s';
         dbAveragePwaScore := dbAveragePwaScore s';
         sessionReports := (sessionReports s' ++ [newReport])%list;
         sessionAveragePwaScore := sessionAveragePwaScore s' |}
  | inl err =>
      setAnalysis tab {| report := None; error := Some (errorDetails err tab);
                         isLoading := false |} s
  end.

(** [handleSubmit] up to the first request: a form error, or the reset
    that precedes the two analyses ([true] when they are to run). *)
Definition submitPressed (s : State) : State * bool :=
  let currentUrl := JS.trim (url s) in
  let withError e :=
    {| url := url s; mobileAnalysis := mobileAnalysis s;
       desktopAnalysis := desktopAnalysis s; activeTab := activeTab s;
       formError := Some e; dbPastReports := dbPastReports s;
       dbAveragePwaScore := dbAveragePwaScore s;
       sessionReports := sessionReports s;
       sessionAveragePwaScore := sessionAveragePwaScore s |} in
  if negb (JS.truthy currentUrl) then (withError "Please enter a URL.", false)
  else if negb (JS.startsWith "http://" currentUrl)
          && negb (JS.startsWith "https://" currentUrl)
  then (withError "URL must start with http:// or https://", false)
  else
    ({| url := url s; mobileAnalysis := idle; desktopAnalysis := idle;
        activeTab := Analyze.mobile; formError := None;
        dbPastReports := dbPastReports s;
        dbAveragePwaScore := dbAveragePwaScore s;
        sessionReports := sessionReports s;
        sessionAveragePwaScore := sessionAveragePwaScore s |}, true).

(** [handleSubmit] as a whole, given how the two requests end. *)
Definition handleSubmit
           (mobile desktop : AxiosError + Card.ReportCardDisplayData)
           (s : State) : State :=
  match submitPressed s with
  | (s0, false) => s0
  | (s0, true) =>
      let s1 := analysisFinished Analyze.mobile mobile
                  (analysisStarted Analyze.mobile s0) in
      analysisFinished Analyze.desktop desktop
        (analysisStarted Analyze.desktop s1)
  end.

(** Everything that changes the state. *)
Inductive Event :=
| SessionChanged (status : SessionStatus)
| ReportsFetched (signedIn : bool) (result : option (list Reports.Report))
| SessionReportsChanged
| UrlTyped (value : string)
| TabSelected (tab : Analyze.Strategy)
| SubmitPressed
| AnalysisStarted (tab : Analyze.Strategy)
| AnalysisFinished (tab : Analyze.Strategy)
                   (outcome : AxiosError + Card.ReportCardDisplayData).

Definition step (s : State) (e : Event) : State :=
  match e with
  | SessionChanged authenticated =>
      (* fetchDbPastReports() is started; its end is [ReportsFetched] *)
      {| url := url s; mobileAnalysis := mobileAnalysis s;
         desktopAnalysis := desktopAnalysis s; activeTab := activeTab s;
         formError := formError s; dbPastReports := dbPastReports s;
         dbAveragePwaScore := dbAveragePwaScore s;
         sessionReports := []; sessionAveragePwaScore := None |}
  | SessionChanged unauthenticated =>
      {| url := url s; mobileAnalysis := mobileAnalysis s;
         desktopAnalysis := desktopAnalysis s; activeTab := activeTab s;
         formError := formError s; dbPastReports := [];
         dbAveragePwaScore := None;
         sessionReports := sessionReports s;
         sessionAveragePwaScore := sessionAveragePwaScore s |}
  | SessionChanged loading => s
  | ReportsFetched signedIn result =>
      let rows :=
        if signedIn then default (dbPastReports s) result else [] in
      {| url := url s; mobileAnalysis := mobileAnalysis s;
         desktopAnalysis := desktopAnalysis s; activeTab := activeTab s;
         formError := formError s; dbPastReports := rows;
         dbAveragePwaScore := dbAveragePwaScore s;
         sessionReports := sessionReports s;
         sessionAveragePwaScore := sessionAveragePwaScore s |}
  | SessionReportsChanged =>
      {| url := url s; mobileAnalysis := mobileAnalysis s;
         desktopAnalysis := desktopAnalysis s; activeTab := activeTab s;
         formError := formError s; dbPastReports := dbPastReports s;
         dbAveragePwaScore := dbAveragePwaScore s;
         sessionReports := sessionReports s;
         sessionAveragePwaScore := averagePwa (sessionReports s) |}
  | UrlTyped value =>
      {| url := value; mobileAnalysis := mobileAnalysis s;
         desktopAnalysis := desktopAnalysis s; activeTab := activeTab s;
         formError := None; dbPastReports := dbPastReports s;
         dbAveragePwaScore := dbAveragePwaScore s;
         sessionReports := sessionReports s;
         sessionAveragePwaScore := sessionAveragePwaScore s |}
  | TabSelected tab =>
      {| url := url s; mobileAnalysis := mobileAnalysis s;
         desktopAnalysis := desktopAnalysis s; activeTab := tab;
         formError := formError s; dbPastReports := dbPastReports s;
         dbAveragePwaScore := dbAveragePwaScore s;
         sessionReports := sessionReports s;
         sessionAveragePwaScore := sessionAveragePwaScore s |}
  | SubmitPressed => fst (submitPressed s)
  | AnalysisStarted tab => analysisStarted tab s
  | AnalysisFinished tab outcome => analysisFinished tab outcome s
  end.

(** The state after a history of events. *)
Definition after (events : list Event) : State := fold_left step events initial.

(** What the render derives from the state; [session] tells whether the
    user is signed in. *)
Definition isLoadingAny (s : State) : bool :=
  isLoading (mobileAnalysis s) || isLoading (desktopAnalysis s).

Definition pwaAverageToShow (session : bool) (s : State) : option Z :=
  if session then dbAveragePwaScore s else sessionAveragePwaScore s.

Definition showPwaAverageSection (session : bool) (s : State) : bool :=
  match pwaAverageToShow session s with
  | Some _ =>
      negb (isLoadingAny s)
      && (if session then (0 <? length (dbPastReports s))%nat
          else (0 <? length (sessionReports s))%nat)
  | None => false
  end.

End HomePage.

(** * Properties *)

(** ** The JavaScript primitives *)

Module JSProofs.

Import JS.

(** *** Powers of two and binades *)

Section Numbers.
Local Open Scope Q_scope.

Lemma pow2_pos e : 0 < pow2 e.
Proof. apply Qpower_0_lt. reflexivity. Qed.

Lemma pow2_add a b : pow2 (a + b) == pow2 a * pow2 b.
Proof. apply Qpower_plus. discriminate. Qed.

Lemma pow2_le a b : (a <= b)%Z -> pow2 a <= pow2 b.
Proof. intros H. apply Qpower_le_compat_l; [exact H | discriminate]. Qed.

Lemma pow2_lt a b : (a < b)%Z -> pow2 a < pow2 b.
Proof. intros H. apply Qpower_lt_compat_l; [exact H | reflexivity]. Qed.

Lemma pow2_Z n : (0 <= n)%Z -> pow2 n == inject_Z (2 ^ n).
Proof. intros H. unfold pow2. rewrite Zpower_Qpower by exact H. reflexivity. Qed.

Lemma Qnum_pos (x : Q) : 0 < x -> (0 < Qnum x)%Z.
Proof. destruct x as [n d]. unfold Qlt. simpl. lia. Qed.

Lemma Q_frac (x : Q) : x * inject_Z (Zpos (Qden x)) == inject_Z (Qnum x).
Proof. destruct x as [n d]. unfold Qeq. simpl. lia. Qed.

(** [ilog2 x] is the exponent of the binade of [x]. *)
Lemma ilog2_spec (x : Q) :
  0 < x -> pow2 (ilog2 x) <= x /\ x < pow2 (ilog2 x + 1).
Proof.
  intros Hx. pose proof (Qnum_pos x Hx) as Hn.
  pose proof (Z.log2_spec (Qnum x) Hn) as [Hn1 Hn2].
  pose proof (Z.log2_spec (Zpos (Qden x)) eq_refl) as [Hd1 Hd2].
  pose proof (Z.log2_nonneg (Qnum x)) as Hln.
  pose proof (Z.log2_nonneg (Zpos (Qden x))) as Hld.
  unfold ilog2.
  set (ln := Z.log2 (Qnum x)) in *. set (ld := Z.log2 (Zpos (Qden x))) in *.
  pose proof (Q_frac x) as Hfrac.
  rewrite Zle_Qle, <- pow2_Z in Hn1, Hd1 by lia.
  rewrite Zlt_Qlt, <- Z.add_1_r, <- pow2_Z in Hn2, Hd2 by lia.
  set (N := inject_Z (Qnum x)) in *. set (D := inject_Z (Zpos (Qden x))) in *.
  destruct (Qle_bool (pow2 (ln - ld)) x) eqn:Hle.
  - apply Qle_bool_iff in Hle. split; [exact Hle |].
    pose proof (pow2_add (ln - ld + 1) ld) as Hadd.
    replace (ln - ld + 1 + ld)%Z with (ln + 1)%Z in Hadd by lia.
    pose proof (pow2_pos ld). nra.
  - assert (x < pow2 (ln - ld)) as Hlt.
    { apply Qnot_le_lt. intros H. apply Qle_bool_iff in H. congruence. }
    replace (ln - ld - 1 + 1)%Z with (ln - ld)%Z by lia.
    split; [| exact Hlt].
    pose proof (pow2_add (ln - ld - 1) (ld + 1)) as Hadd.
    replace (ln - ld - 1 + (ld + 1))%Z with ln in Hadd by lia.
    pose proof (pow2_pos (ld + 1)). apply Qlt_le_weak. nra.
Qed.

Lemma ilog2_unique (x : Q) (e : Z) :
  0 < x -> pow2 e <= x -> x < pow2 (e + 1) -> ilog2 x = e.
Proof.
  intros Hx Hlo Hhi. destruct (ilog2_spec x Hx) as [Hlo' Hhi'].
  destruct (Z.lt_trichotomy (ilog2 x) e) as [H | [H | H]]; [| exact H |].
  - pose proof (pow2_le (ilog2 x + 1) e ltac:(lia)). lra.
  - pose proof (pow2_le (e + 1) (ilog2 x) ltac:(lia)). lra.
Qed.

Lemma ilog2_mono (x y : Q) : 0 < x -> x <= y -> (ilog2 x <= ilog2 y)%Z.
Proof.
  intros Hx Hxy.
  destruct (ilog2_spec x Hx) as [Hlo _].
  destruct (ilog2_spec y ltac:(lra)) as [_ Hhi].
  destruct (Z_le_gt_dec (ilog2 x) (ilog2 y)) as [H | H]; [exact H |].
  pose proof (pow2_le (ilog2 y + 1) (ilog2 x) ltac:(lia)). lra.
Qed.

Lemma ilog2_eq (x y : Q) : 0 < x -> x == y -> ilog2 x = ilog2 y.
Proof.
  intros Hx Hxy. destruct (ilog2_spec x Hx) as [Hlo Hhi].
  symmetry. apply ilog2_unique; lra.
Qed.

(** *** Rounding to an integer, ties to even *)

Lemma inject_Z_pred (k : Z) : inject_Z (k - 1) == inject_Z k - 1.
Proof. unfold Qeq. simpl. lia. Qed.

Ltac push_inject :=
  rewrite ?inject_Z_pred, ?inject_Z_plus in *;
  change (inject_Z 1) with 1 in *.

Lemma roundEven_cases (y : Q) :
  let f := Qfloor y in
  inject_Z f <= y /\ y < inject_Z f + 1 /\
  ((y - inject_Z f < 1 # 2 /\ roundEven y = f) \/
   (1 # 2 < y - inject_Z f /\ roundEven y = (f + 1)%Z) \/
   (y - inject_Z f == 1 # 2 /\
    roundEven y = if Z.even f then f else (f + 1)%Z)).
Proof.
  intros f. pose proof (Qfloor_le y) as Hlo. pose proof (Qlt_floor y) as Hhi.
  rewrite inject_Z_plus in Hhi. fold f in Hlo, Hhi.
  split; [exact Hlo |]. split; [exact Hhi |].
  unfold roundEven. fold f.
  destruct (y - inject_Z f ?= 1 # 2) eqn:Hc.
  - right; right. apply Qeq_alt in Hc. split; [exact Hc | reflexivity].
  - left. apply Qlt_alt in Hc. split; [exact Hc | reflexivity].
  - right; left. apply Qgt_alt in Hc. split; [exact Hc | reflexivity].
Qed.

Lemma roundEven_bounds (y : Q) :
  y - (1 # 2) <= inject_Z (roundEven y) /\
  inject_Z (roundEven y) <= y + (1 # 2).
Proof.
  destruct (roundEven_cases y) as (Hlo & Hhi & [[H ->] | [[H ->] | [H ->]]]).
  - lra.
  - push_inject. lra.
  - destruct (Z.even (Qfloor y)); push_inject; lra.
Qed.

Lemma roundEven_ge (y : Q) (k : Z) :
  inject_Z k - (1 # 2) < y -> (k <= roundEven y)%Z.
Proof.
  intros H. destruct (roundEven_bounds y) as [Hlo _].
  assert (inject_Z (k - 1) < inject_Z (roundEven y)) as Hlt
      by (push_inject; lra).
  rewrite <- Zlt_Qlt in Hlt. lia.
Qed.

Lemma roundEven_le (y : Q) (k : Z) :
  y < inject_Z k + (1 # 2) -> (roundEven y <= k)%Z.
Proof.
  intros H. destruct (roundEven_bounds y) as [_ Hhi].
  assert (inject_Z (roundEven y) < inject_Z (k + 1)) as Hlt
      by (push_inject; lra).
  rewrite <- Zlt_Qlt in Hlt. lia.
Qed.

Lemma roundEven_Z (k : Z) : roundEven (inject_Z k) = k.
Proof.
  apply Z.le_antisymm; [apply roundEven_le | apply roundEven_ge]; lra.
Qed.

#[global] Instance roundEven_comp : Proper (Qeq ==> eq) roundEven.
Proof.
  intros x y Hxy. unfold roundEven.
  rewrite (Qfloor_comp x y Hxy).
  assert ((x - inject_Z (Qfloor y) ?= 1 # 2) = (y - inject_Z (Qfloor y) ?= 1 # 2))
    as -> by (apply Qcompare_comp; [rewrite Hxy |]; reflexivity).
  reflexivity.
Qed.

Lemma roundEven_mono (x y : Q) : x <= y -> (roundEven x <= roundEven y)%Z.
Proof.
  intros Hxy.
  destruct (Qle_lt_or_eq _ _ Hxy) as [Hlt | Heq]; [| rewrite Heq; lia].
  destruct (roundEven_bounds x) as [_ Hx]. destruct (roundEven_bounds y) as [Hy _].
  assert (inject_Z (roundEven x) < inject_Z (roundEven y + 1)) as H
      by (push_inject; lra).
  rewrite <- Zlt_Qlt in H. lia.
Qed.

Lemma Qfloor_unique (y : Q) (k : Z) :
  inject_Z k <= y -> y < inject_Z k + 1 -> Qfloor y = k.
Proof.
  intros Hlo Hhi. apply Z.le_antisymm.
  - assert (inject_Z (Qfloor y) < inject_Z (k + 1)) as Hlt.
    { eapply Qle_lt_trans; [apply Qfloor_le |]. push_inject. exact Hhi. }
    rewrite <- Zlt_Qlt in Hlt. lia.
  - rewrite <- (Qfloor_Z k) at 1. apply Qfloor_resp_le, Hlo.
Qed.

(** A tie just below an even integer goes up to it. *)
Lemma roundEven_ge_even (y : Q) (m : Z) :
  Z.even m = true ->
  (m <= roundEven y)%Z <-> inject_Z m - (1 # 2) <= y.
Proof.
  intros Heven. split.
  - intros H. destruct (roundEven_bounds y) as [_ Hhi].
    rewrite Zle_Qle in H. lra.
  - intros H. destruct (Qle_lt_or_eq _ _ H) as [Hlt | Heq];
      [apply roundEven_ge, Hlt |].
    assert (Qfloor y = (m - 1)%Z) as Hf
        by (apply Qfloor_unique; push_inject; lra).
    destruct (roundEven_cases y) as (_ & _ & [[Hc Hr] | [[Hc Hr] | [Hc Hr]]]);
      rewrite Hf in *.
    + exfalso. push_inject. lra.
    + lia.
    + rewrite Hr. rewrite Z.even_sub, Heven. simpl. lia.
Qed.

(** *** Rounding to binary64 *)

Lemma scaled (x : Q) (b : Z) : x / pow2 b * pow2 b == x.
Proof. field. pose proof (pow2_pos b). lra. Qed.

Lemma nearest64_err (x : Q) :
  x - pow2 (binade x) * (1 # 2) <= nearest64 x /\
  nearest64 x <= x + pow2 (binade x) * (1 # 2).
Proof.
  unfold nearest64. set (b := binade x).
  pose proof (scaled x b) as Hy. pose proof (pow2_pos b) as Hp.
  destruct (roundEven_bounds (x / pow2 b)) as [Hlo Hhi].
  set (y := x / pow2 b) in *. set (r := inject_Z (roundEven y)) in *.
  set (p := pow2 b) in *. clearbody y r p. split; nra.
Qed.

Lemma nearest64_nonneg (x : Q) : 0 < x -> 0 <= nearest64 x.
Proof.
  intros Hx. unfold nearest64. pose proof (pow2_pos (binade x)) as Hp.
  assert (0 <= roundEven (x / pow2 (binade x)))%Z as Hr.
  { apply roundEven_ge. pose proof (scaled x (binade x)).
    set (y := x / pow2 (binade x)) in *. clearbody y.
    change (inject_Z 0) with 0. nra. }
  rewrite Zle_Qle in Hr. change (inject_Z 0) with 0 in Hr. nra.
Qed.

Lemma binade_eq (x y : Q) : 0 < x -> x == y -> binade x = binade y.
Proof. intros Hx Hxy. unfold binade. rewrite (ilog2_eq x y Hx Hxy). reflexivity. Qed.

Lemma nearest64_eq (x y : Q) : 0 < x -> x == y -> nearest64 x == nearest64 y.
Proof.
  intros Hx Hxy. unfold nearest64. rewrite (binade_eq x y Hx Hxy).
  assert (x / pow2 (binade y) == y / pow2 (binade y)) as ->
      by (rewrite Hxy; reflexivity).
  reflexivity.
Qed.

(** In the binade of exponent [e], the spacing is [2^(e-52)]. *)
Lemma nearest64_at (x : Q) (e : Z) :
  pow2 e <= x -> x < pow2 (e + 1) -> (-1074 <= e - 52)%Z ->
  nearest64 x == inject_Z (roundEven (x / pow2 (e - 52))) * pow2 (e - 52).
Proof.
  intros Hlo Hhi He. pose proof (pow2_pos e) as Hp.
  unfold nearest64, binade.
  rewrite (ilog2_unique x e) by lra.
  rewrite Z.max_l by lia. reflexivity.
Qed.

Lemma nearest64_mono (x y : Q) : 0 < x -> x <= y -> nearest64 x <= nearest64 y.
Proof.
  intros Hx Hxy. assert (0 < y) as Hy by lra.
  pose proof (ilog2_mono x y Hx Hxy) as Hexp.
  destruct (ilog2_spec x Hx) as [Hxlo Hxhi].
  destruct (ilog2_spec y Hy) as [Hylo Hyhi].
  unfold nearest64. unfold binade at 1 2 3 4.
  set (ex := ilog2 x) in *. set (ey := ilog2 y) in *.
  set (bx := Z.max (ex - 52) (-1074)). set (by_ := Z.max (ey - 52) (-1074)).
  assert (bx <= by_)%Z as Hb by lia.
  pose proof (pow2_pos bx) as Hpx. pose proof (pow2_pos by_) as Hpy.
  pose proof (scaled x bx) as Hsx. pose proof (scaled y by_) as Hsy.
  destruct (Z.eq_dec bx by_) as [Heq | Hne].
  - rewrite <- Heq in *.
    assert (roundEven (x / pow2 bx) <= roundEven (y / pow2 bx))%Z as Hr.
    { apply roundEven_mono. set (u := x / pow2 bx) in *.
      set (v := y / pow2 bx) in *. clearbody u v. nra. }
    rewrite Zle_Qle in Hr. nra.
  - assert (by_ = ey - 52)%Z as Hby by lia.
    assert (ex + 1 <= ey)%Z as Hlt by lia.
    (* [y] rounds to at least the start of its binade *)
    assert (pow2 ey <= inject_Z (roundEven (y / pow2 by_)) * pow2 by_) as Hbig.
    { assert (2 ^ 52 <= roundEven (y / pow2 by_))%Z as Hr.
      { rewrite <- (roundEven_Z (2 ^ 52)). apply roundEven_mono.
        pose proof (pow2_add 52 by_) as Hadd.
        replace (52 + by_)%Z with ey in Hadd by lia.
        rewrite <- pow2_Z by lia. set (v := y / pow2 by_) in *. clearbody v.
        pose proof (pow2_pos 52). nra. }
      rewrite Zle_Qle, <- pow2_Z in Hr by lia.
      pose proof (pow2_add 52 by_) as Hadd.
      replace (52 + by_)%Z with ey in Hadd by lia. nra. }
    (* [x] rounds to at most the end of its binade *)
    assert (inject_Z (roundEven (x / pow2 bx)) * pow2 bx <= pow2 ey) as Hsmall.
    { destruct (Z_le_gt_dec 0 (ex + 1 - bx)) as [Hk | Hk].
      - assert (roundEven (x / pow2 bx) <= 2 ^ (ex + 1 - bx))%Z as Hr.
        { rewrite <- (roundEven_Z (2 ^ (ex + 1 - bx))). apply roundEven_mono.
          pose proof (pow2_add (ex + 1 - bx) bx) as Hadd.
          replace (ex + 1 - bx + bx)%Z with (ex + 1)%Z in Hadd by lia.
          rewrite <- pow2_Z by lia. set (u := x / pow2 bx) in *. clearbody u.
          pose proof (pow2_pos (ex + 1 - bx)). nra. }
        rewrite Zle_Qle, <- pow2_Z in Hr by lia.
        pose proof (pow2_add (ex + 1 - bx) bx) as Hadd.
        replace (ex + 1 - bx + bx)%Z with (ex + 1)%Z in Hadd by lia.
        pose proof (pow2_le (ex + 1) ey Hlt). nra.
      - assert (roundEven (x / pow2 bx) <= 1)%Z as Hr.
        { apply roundEven_le. change (inject_Z 1) with 1.
          pose proof (pow2_lt (ex + 1) bx ltac:(lia)).
          set (u := x / pow2 bx) in *. clearbody u. nra. }
        rewrite Zle_Qle in Hr. change (inject_Z 1) with 1 in Hr.
        pose proof (pow2_le bx ey ltac:(lia)). nra. }
    lra.
Qed.

(** *** [toDouble] *)

Lemma toDouble_pos (x : Q) : 0 < x -> toDouble x = nearest64 x.
Proof.
  intros Hx. unfold toDouble.
  assert ((x ?= 0) = Gt) as -> by (apply Qgt_alt; exact Hx). reflexivity.
Qed.

Lemma toDouble_neg (x : Q) : x < 0 -> toDouble x = - nearest64 (- x).
Proof.
  intros Hx. unfold toDouble.
  assert ((x ?= 0) = Lt) as -> by (apply Qlt_alt; exact Hx). reflexivity.
Qed.

Lemma toDouble_zero (x : Q) : x == 0 -> toDouble x = 0.
Proof.
  intros Hx. unfold toDouble.
  assert ((x ?= 0) = Eq) as -> by (apply Qeq_alt; exact Hx). reflexivity.
Qed.

Lemma sign_cases (x : Q) : x < 0 \/ x == 0 \/ 0 < x.
Proof.
  destruct (Q_dec x 0) as [[H | H] | H]; auto.
Qed.

#[global] Instance toDouble_comp : Proper (Qeq ==> Qeq) toDouble.
Proof.
  intros x y Hxy. destruct (sign_cases x) as [H | [H | H]].
  - rewrite (toDouble_neg x H), (toDouble_neg y) by lra.
    rewrite (nearest64_eq (- x) (- y)) by lra. reflexivity.
  - rewrite (toDouble_zero x H), (toDouble_zero y) by lra. reflexivity.
  - rewrite (toDouble_pos x H), (toDouble_pos y) by lra.
    apply nearest64_eq; assumption.
Qed.

Lemma toDouble_nonneg (x : Q) : 0 <= x -> 0 <= toDouble x.
Proof.
  intros Hx. destruct (sign_cases x) as [H | [H | H]]; [lra | |].
  - rewrite (toDouble_zero x H). lra.
  - rewrite (toDouble_pos x H). apply nearest64_nonneg, H.
Qed.

Lemma toDouble_nonpos (x : Q) : x <= 0 -> toDouble x <= 0.
Proof.
  intros Hx. destruct (sign_cases x) as [H | [H | H]]; [| | lra].
  - rewrite (toDouble_neg x H).
    pose proof (nearest64_nonneg (- x) ltac:(lra)). lra.
  - rewrite (toDouble_zero x H). lra.
Qed.

(** Rounding to the nearest double is monotone. *)
Lemma toDouble_mono (x y : Q) : x <= y -> toDouble x <= toDouble y.
Proof.
  intros Hxy. destruct (sign_cases x) as [Hx | [Hx | Hx]].
  - destruct (sign_cases y) as [Hy | [Hy | Hy]].
    + rewrite (toDouble_neg x Hx), (toDouble_neg y Hy).
      pose proof (nearest64_mono (- y) (- x) ltac:(lra) ltac:(lra)). lra.
    + pose proof (toDouble_nonpos x ltac:(lra)).
      pose proof (toDouble_nonneg y ltac:(lra)). lra.
    + pose proof (toDouble_nonpos x ltac:(lra)).
      pose proof (toDouble_nonneg y ltac:(lra)). lra.
  - pose proof (toDouble_nonpos x ltac:(lra)).
    pose proof (toDouble_nonneg y ltac:(lra)). lra.
  - rewrite (toDouble_pos x Hx), (toDouble_pos y) by lra.
    apply nearest64_mono; assumption.
Qed.

(** Below 128 the rounding error is at most [2^-47]. *)
Lemma toDouble_err (x : Q) :
  0 <= x -> x < 128 ->
  x - pow2 (-47) <= toDouble x /\ toDouble x <= x + pow2 (-47).
Proof.
  intros Hlo Hhi. destruct (sign_cases x) as [H | [H | H]]; [lra | |].
  - rewrite (toDouble_zero x H). pose proof (pow2_pos (-47)). lra.
  - rewrite (toDouble_pos x H).
    destruct (ilog2_spec x H) as [Hexp _].
    assert (ilog2 x <= 6)%Z as He.
    { destruct (Z_le_gt_dec (ilog2 x) 6) as [Hle | Hgt]; [exact Hle |].
      pose proof (pow2_le 7 (ilog2 x) ltac:(lia)) as H7.
      change (pow2 7) with 128 in H7. lra. }
    assert (binade x <= -46)%Z as Hb by (unfold binade; lia).
    pose proof (pow2_le (binade x) (-46) Hb) as Hp.
    pose proof (pow2_add (-47) 1) as Hadd.
    change (-47 + 1)%Z with (-46)%Z in Hadd. change (pow2 1) with 2 in Hadd.
    destruct (nearest64_err x). lra.
Qed.

(** A positive number with at most 53 significant bits, at or above the
    smallest spacing, is a double. *)
Lemma nearest64_dyadic (m q : Z) :
  (0 < m < 2 ^ 53)%Z -> (-1074 <= q)%Z ->
  nearest64 (inject_Z m * pow2 q) == inject_Z m * pow2 q.
Proof.
  intros Hm Hq. set (x := inject_Z m * pow2 q).
  pose proof (pow2_pos q) as Hp.
  assert (0 < inject_Z m) as Hm0
      by (change 0 with (inject_Z 0); rewrite <- Zlt_Qlt; lia).
  assert (0 < x) as Hx by (unfold x; nra).
  destruct (ilog2_spec x Hx) as [Hlo _].
  assert (binade x <= q)%Z as Hb.
  { unfold binade. apply Z.max_lub; [| exact Hq].
    destruct (Z_le_gt_dec (ilog2 x - 52) q) as [H | H]; [exact H |].
    exfalso.
    pose proof (pow2_le (q + 53) (ilog2 x) ltac:(lia)) as Hbig.
    pose proof (pow2_add q 53) as Hadd. rewrite (pow2_Z 53) in Hadd by lia.
    assert (inject_Z m < inject_Z (2 ^ 53)) as Hm53
        by (rewrite <- Zlt_Qlt; lia).
    unfold x in *. nra. }
  unfold nearest64. set (b := binade x) in *.
  pose proof (pow2_add (q - b) b) as Hadd.
  replace (q - b + b)%Z with q in Hadd by lia.
  rewrite (pow2_Z (q - b)) in Hadd by lia.
  assert (x / pow2 b == inject_Z (m * 2 ^ (q - b))) as ->.
  { rewrite inject_Z_mult. unfold x. rewrite Hadd. field.
    pose proof (pow2_pos b). lra. }
  rewrite roundEven_Z, inject_Z_mult. unfold x. rewrite Hadd. ring.
Qed.

Lemma toDouble_dyadic (m q : Z) :
  (- 2 ^ 53 < m < 2 ^ 53)%Z -> (-1074 <= q)%Z ->
  toDouble (inject_Z m * pow2 q) == inject_Z m * pow2 q.
Proof.
  intros Hm Hq. pose proof (pow2_pos q) as Hp.
  destruct (Z.lt_trichotomy m 0) as [Hneg | [-> | Hpos]].
  - assert (inject_Z m < 0) as Hm0
        by (change 0 with (inject_Z 0); rewrite <- Zlt_Qlt; lia).
    assert (inject_Z m * pow2 q < 0) as Hx
        by (set (a := inject_Z m) in *; clearbody a; clear Hm; nra).
    rewrite toDouble_neg by exact Hx.
    assert (- (inject_Z m * pow2 q) == inject_Z (- m) * pow2 q) as Hopp
        by (rewrite inject_Z_opp; ring).
    assert (0 < - (inject_Z m * pow2 q)) as Hx' by lra.
    rewrite (nearest64_eq _ _ Hx' Hopp).
    rewrite nearest64_dyadic by lia. rewrite inject_Z_opp. ring.
  - rewrite toDouble_zero by (change (inject_Z 0) with 0; ring).
    change (inject_Z 0) with 0. ring.
  - assert (0 < inject_Z m) as Hm0
        by (change 0 with (inject_Z 0); rewrite <- Zlt_Qlt; lia).
    assert (0 < inject_Z m * pow2 q) as Hx
        by (set (a := inject_Z m) in *; clearbody a; clear Hm; nra).
    rewrite toDouble_pos by exact Hx. apply nearest64_dyadic; lia.
Qed.

(** Integers below [2^53] in magnitude are doubles. *)
Lemma toDouble_int (n : Z) :
  (- 2 ^ 53 < n < 2 ^ 53)%Z -> toDouble (inject_Z n) == inject_Z n.
Proof.
  intros Hn. pose proof (toDouble_dyadic n 0 Hn ltac:(lia)) as H.
  change (pow2 0) with 1 in H. rewrite Qmult_1_r in H. exact H.
Qed.

(** So are their halves. *)
Lemma toDouble_half (j : Z) :
  (- 2 ^ 53 < j < 2 ^ 53)%Z -> toDouble (j # 2) == j # 2.
Proof.
  intros Hj. pose proof (toDouble_dyadic j (-1) Hj ltac:(lia)) as H.
  assert (inject_Z j * pow2 (-1) == j # 2) as Heq
      by (change (pow2 (-1)) with (1 # 2); unfold Qeq; simpl; lia).
  rewrite Heq in H. exact H.
Qed.

Lemma toDouble_pow2 (e : Z) : (-1074 <= e)%Z -> toDouble (pow2 e) == pow2 e.
Proof.
  intros He. pose proof (toDouble_dyadic 1 e ltac:(lia) He) as H.
  change (inject_Z 1) with 1 in H. rewrite Qmult_1_l in H. exact H.
Qed.

(** Where the rounded value crosses a double [m * 2^(e-52)] that lies
    inside the binade of exponent [e] and has an even significand: half a
    spacing below it, the tie included. *)
Lemma toDouble_ge_iff (x : Q) (e m : Z) :
  (-1074 <= e - 52)%Z -> (2 ^ 52 < m < 2 ^ 53)%Z -> Z.even m = true ->
  inject_Z m * pow2 (e - 52) <= toDouble x <->
  (inject_Z m - (1 # 2)) * pow2 (e - 52) <= x.
Proof.
  intros He Hm Heven. set (q := (e - 52)%Z) in *.
  pose proof (pow2_pos q) as Hp.
  pose proof (pow2_add 52 q) as Hlo. replace (52 + q)%Z with e in Hlo by lia.
  pose proof (pow2_add 53 q) as Hhi.
  replace (53 + q)%Z with (e + 1)%Z in Hhi by lia.
  rewrite (pow2_Z 52) in Hlo by lia. rewrite (pow2_Z 53) in Hhi by lia.
  assert (inject_Z (2 ^ 52) + 1 <= inject_Z m) as Hm1
      by (change 1 with (inject_Z 1); rewrite <- inject_Z_plus, <- Zle_Qle; lia).
  assert (inject_Z m + 1 <= inject_Z (2 ^ 53)) as Hm2
      by (change 1 with (inject_Z 1); rewrite <- inject_Z_plus, <- Zle_Qle; lia).
  pose proof (pow2_pos e) as Hpe.
  destruct (Qlt_le_dec x (pow2 e)) as [Hbelow | Hge].
  - pose proof (toDouble_mono x (pow2 e) ltac:(lra)) as Hmono.
    rewrite toDouble_pow2 in Hmono by lia. split; intros H; exfalso; nra.
  - destruct (Qlt_le_dec x (pow2 (e + 1))) as [Hin | Habove].
    + rewrite toDouble_pos by lra.
      rewrite (nearest64_at x e Hge Hin He). fold q.
      pose proof (roundEven_ge_even (x / pow2 q) m Heven) as Hr.
      pose proof (scaled x q) as Hs.
      set (y := x / pow2 q) in *. clearbody y.
      rewrite Zle_Qle in Hr. set (r := inject_Z (roundEven y)) in *.
      clearbody r. split; intros H.
      * assert (inject_Z m <= r) as Hmr by nra.
        apply Hr in Hmr. nra.
      * assert (inject_Z m - (1 # 2) <= y) as Hy by nra.
        apply Hr in Hy. nra.
    + pose proof (toDouble_mono (pow2 (e + 1)) x Habove) as Hmono.
      rewrite toDouble_pow2 in Hmono by lia. split; intros _; nra.
Qed.

(** Comparing a double with the literal [0.9], the double next above
    9/10, is comparing it with 9/10; the literals [0.5] and [1] are
    doubles themselves. *)
Lemma literal_09 (s : Q) :
  toDouble s == s -> (9 # 10 <= s <-> toDouble (9 # 10) <= s).
Proof.
  intros Hs. split.
  - intros H. rewrite <- Hs. apply toDouble_mono, H.
  - intros H.
    assert (9 # 10 <= toDouble (9 # 10)) as Hup by (vm_compute; discriminate).
    lra.
Qed.

Lemma literal_05 : toDouble (5 # 10) == 5 # 10 /\ toDouble 1 == 1.
Proof. split; vm_compute; reflexivity. Qed.

(** [Math.round t] is [k] exactly on [k - 1/2, k + 1/2). *)
Lemma Math_round_spec (t : Q) (k : Z) :
  Math_round t = k <-> inject_Z k - (1 # 2) <= t /\ t < inject_Z k + (1 # 2).
Proof.
  unfold Math_round. split.
  - intros <-. pose proof (Qfloor_le (t + (1 # 2))).
    pose proof (Qlt_floor (t + (1 # 2))) as Hlt. push_inject. lra.
  - intros [Hlo Hhi]. apply Qfloor_unique; lra.
Qed.

Lemma Math_round_ge (t : Q) (k : Z) :
  (k <= Math_round t)%Z <-> inject_Z k - (1 # 2) <= t.
Proof.
  destruct (Math_round_spec t (Math_round t)) as [H _].
  specialize (H eq_refl). split.
  - intros Hk. rewrite Zle_Qle in Hk. lra.
  - intros Hk. destruct (Z_le_gt_dec k (Math_round t)) as [Hle | Hgt];
      [exact Hle |].
    assert (inject_Z (Math_round t) + 1 <= inject_Z k) as Hz
        by (change 1 with (inject_Z 1); rewrite <- inject_Z_plus, <- Zle_Qle; lia).
    lra.
Qed.

End Numbers.

(** *** [String.prototype.trim] *)

Section Strings.
Local Open Scope string_scope.

Lemma dropWhite_length (s r : string) :
  dropWhite s = Some r -> (String.length r < String.length s)%nat.
Proof.
  destruct s as [| a [| b [| c r3]]]; cbn.
  - discriminate.
  - destruct (isWhite a); [intros [= <-]; cbn; lia | discriminate].
  - destruct (isWhite a); [intros [= <-]; cbn; lia |].
    destruct (isWhite2 a b); [intros [= <-]; cbn; lia | discriminate].
  - destruct (isWhite a); [intros [= <-]; cbn; lia |].
    destruct (isWhite2 a b); [intros [= <-]; cbn; lia |].
    destruct (isWhite3 a b c); [intros [= <-]; cbn; lia | discriminate].
Qed.

Lemma dropWhites_enough (n : nat) (s : string) :
  (String.length s <= n)%nat -> dropWhites n s = trimStart s.
Proof.
  unfold trimStart. revert s.
  induction n as [n IH] using lt_wf_ind. intros s Hlen.
  destruct n as [| n].
  - destruct s; [reflexivity | cbn in Hlen; lia].
  - cbn [dropWhites]. destruct (dropWhite s) as [r |] eqn:Hd.
    + pose proof (dropWhite_length s r Hd) as Hlt.
      destruct (String.length s) as [| m] eqn:Hs; [lia |].
      cbn [dropWhites]. rewrite Hd.
      rewrite (IH n) by lia. rewrite (IH m) by lia. reflexivity.
    + destruct (String.length s); cbn [dropWhites]; rewrite ?Hd; reflexivity.
Qed.

Lemma trimStart_unfold (s : string) :
  trimStart s = match dropWhite s with
                | Some r => trimStart r
                | None => s
                end.
Proof.
  unfold trimStart at 1.
  destruct (String.length s) as [| n] eqn:Hlen.
  - destruct s; [reflexivity | discriminate].
  - cbn [dropWhites]. destruct (dropWhite s) as [r |] eqn:Hd; [| reflexivity].
    apply dropWhites_enough. pose proof (dropWhite_length s r Hd). lia.
Qed.

Lemma by_length (P : string -> Prop) :
  (forall s, (forall r, (String.length r < String.length s)%nat -> P r) -> P s) ->
  forall s, P s.
Proof.
  intros step s. remember (String.length s) as n eqn:Hn. revert s Hn.
  induction n as [n IH] using lt_wf_ind. intros s ->.
  apply step. intros r Hr. exact (IH _ Hr r eq_refl).
Qed.

(** What [trimStart] leaves does not start with white space. *)
Lemma trimStart_head (s : string) : dropWhite (trimStart s) = None.
Proof.
  induction s as [s IH] using by_length.
  rewrite trimStart_unfold. destruct (dropWhite s) as [r |] eqn:Hd.
  - apply IH, (dropWhite_length s r Hd).
  - exact Hd.
Qed.

Lemma trimStart_fixed (s : string) : dropWhite s = None -> trimStart s = s.
Proof. intros H. rewrite trimStart_unfold, H. reflexivity. Qed.

Lemma append_cons (x : ascii) (a b : string) :
  String x a +:+ b = String x (a +:+ b).
Proof. reflexivity. Qed.

Lemma append_nil_l (b : string) : "" +:+ b = b.
Proof. reflexivity. Qed.

Lemma dropWhite_app (a a' b : string) :
  dropWhite a = Some a' -> dropWhite (a +:+ b) = Some (a' +:+ b).
Proof.
  destruct a as [| x [| y [| z r3]]];
    rewrite ?append_cons, ?append_nil_l; cbn [dropWhite].
  - discriminate.
  - destruct (isWhite x); [intros [= <-]; reflexivity | discriminate].
  - destruct (isWhite x); [intros [= <-]; reflexivity |].
    destruct (isWhite2 x y); [intros [= <-]; reflexivity | discriminate].
  - destruct (isWhite x); [intros [= <-]; reflexivity |].
    destruct (isWhite2 x y); [intros [= <-]; reflexivity |].
    destruct (isWhite3 x y z); [intros [= <-]; reflexivity | discriminate].
Qed.

(** White space in front of [b] goes, whatever follows. *)
Lemma trimStart_app (a b : string) :
  trimStart a = "" -> trimStart (a +:+ b) = trimStart b.
Proof.
  induction a as [a IH] using by_length. intros Hw.
  rewrite trimStart_unfold in Hw.
  destruct (dropWhite a) as [a' |] eqn:Hd.
  - rewrite (trimStart_unfold (a +:+ b)), (dropWhite_app a a' b Hd).
    apply IH; [apply (dropWhite_length a a' Hd) | exact Hw].
  - subst a. reflexivity.
Qed.

Lemma trimEnd_unfold (s : string) :
  trimEnd s = match trimStart s with
              | EmptyString => EmptyString
              | _ => match s with
                     | String c rest => String c (trimEnd rest)
                     | EmptyString => EmptyString
                     end
              end.
Proof. destruct s; reflexivity. Qed.

(** [trimEnd] cuts a run of white space off the end. *)
Lemma trimEnd_split (s : string) :
  exists w, s = trimEnd s +:+ w /\ trimStart w = "".
Proof.
  induction s as [| c rest (w & Hw & Hall)].
  - exists "". split; reflexivity.
  - rewrite trimEnd_unfold.
    destruct (trimStart (String c rest)) eqn:Hs.
    + exists (String c rest). split; [reflexivity | exact Hs].
    + exists w. split; [| exact Hall]. rewrite append_cons. f_equal. exact Hw.
Qed.

Lemma append_assoc (a b c : string) : (a +:+ b) +:+ c = a +:+ (b +:+ c).
Proof.
  induction a as [| x a IH]; [reflexivity |].
  rewrite !append_cons. f_equal. exact IH.
Qed.

Lemma append_nil_r (a : string) : a +:+ "" = a.
Proof.
  induction a as [| x a IH]; [reflexivity |].
  rewrite append_cons. f_equal. exact IH.
Qed.

Lemma trimEnd_idem (s : string) : trimEnd (trimEnd s) = trimEnd s.
Proof.
  induction s as [| c rest IH]; [reflexivity |].
  rewrite (trimEnd_unfold (String c rest)).
  destruct (trimStart (String c rest)) as [| h t] eqn:Hs; [reflexivity |].
  rewrite trimEnd_unfold.
  destruct (trimStart (String c (trimEnd rest))) as [| h' t'] eqn:Hs'.
  - exfalso. destruct (trimEnd_split rest) as (w & Hw & Hall).
    pose proof (trimStart_app (String c (trimEnd rest)) w Hs') as Happ.
    rewrite append_cons in Happ.
    rewrite <- Hw, Hall in Happ. congruence.
  - rewrite IH. reflexivity.
Qed.

(** [trimEnd] never uncovers white space at the front. *)
Lemma trimEnd_head (s : string) :
  dropWhite s = None -> dropWhite (trimEnd s) = None.
Proof.
  intros Hs. destruct (dropWhite (trimEnd s)) as [r |] eqn:Hd; [| reflexivity].
  destruct (trimEnd_split s) as (w & Hw & _).
  pose proof (dropWhite_app _ _ w Hd) as Happ. rewrite <- Hw in Happ. congruence.
Qed.

Lemma trim_idem (s : string) : trim (trim s) = trim s.
Proof.
  unfold trim.
  rewrite (trimStart_fixed (trimEnd (trimStart s)))
    by apply trimEnd_head, trimStart_head.
  apply trimEnd_idem.
Qed.

Lemma trim_head (s : string) : dropWhite (trim s) = None.
Proof. apply trimEnd_head, trimStart_head. Qed.

Lemma trimEnd_trim (s : string) : trimEnd (trim s) = trim s.
Proof. apply trimEnd_idem. Qed.

(** A character below 128 that is not white space starts no white-space
    character. *)
Lemma dropWhite_ascii (c : ascii) (r : string) :
  (nat_of_ascii c < 128)%nat -> isWhite c = false ->
  dropWhite (String c r) = None.
Proof.
  intros Hc Hw. unfold dropWhite. rewrite Hw.
  assert (forall b, isWhite2 c b = false) as H2.
  { intros b. unfold isWhite2.
    destruct (Nat.eqb_spec (nat_of_ascii c) 194); [lia | reflexivity]. }
  assert (forall b d, isWhite3 c b d = false) as H3.
  { intros b d. unfold isWhite3. cbv zeta.
    destruct (Nat.eqb_spec (nat_of_ascii c) 225); [lia |].
    destruct (Nat.eqb_spec (nat_of_ascii c) 226); [lia |].
    destruct (Nat.eqb_spec (nat_of_ascii c) 227); [lia |].
    destruct (Nat.eqb_spec (nat_of_ascii c) 239); [lia |]. reflexivity. }
  destruct r as [| b [| d r3]]; rewrite ?H2, ?H3; reflexivity.
Qed.

Lemma trimEnd_word (c : ascii) (r : string) :
  (nat_of_ascii c < 128)%nat -> isWhite c = false ->
  trimEnd (String c r) = String c (trimEnd r).
Proof.
  intros Hc Hw. rewrite trimEnd_unfold.
  rewrite (trimStart_fixed _ (dropWhite_ascii c r Hc Hw)). reflexivity.
Qed.

End Strings.

End JSProofs.


(** ** Audit bucketing and rendering *)

Module DiagnosticsProofs.

Import Diagnostics.
Local Open Scope string_scope.

Lemma modeIs_true m a : modeIs m a = true <-> scoreDisplayMode a = m.
Proof. unfold modeIs. apply String.eqb_eq. Qed.

Lemma modeIs_false m a : modeIs m a = false <-> scoreDisplayMode a <> m.
Proof. unfold modeIs. apply String.eqb_neq. Qed.

Lemma not_modeIs m a : negb (modeIs m a) = true <-> scoreDisplayMode a <> m.
Proof. rewrite negb_true_iff. apply modeIs_false. Qed.

Lemma filter_elem_of {A} (f : A -> bool) (x : A) (l : list A) :
  x ∈ List.filter f l <-> x ∈ l /\ f x = true.
Proof. rewrite !list_elem_of_In. apply filter_In. Qed.

(** The audits a category refers to, that exist, and whose display mode
    is neither [notApplicable] nor [error]. *)
Definition referenced (refs : list AuditRef) (allAudits : gmap string Audit)
           (a : Audit) : Prop :=
  exists r, r ∈ refs /\ allAudits !! ref_id r = Some a.

Lemma relevant_spec refs allAudits a :
  a ∈ relevantAudits refs allAudits <->
  referenced refs allAudits a /\
  scoreDisplayMode a <> "notApplicable" /\ scoreDisplayMode a <> "error".
Proof.
  unfold relevantAudits, referenced.
  rewrite filter_elem_of, list_elem_of_omap, andb_true_iff, !not_modeIs.
  tauto.
Qed.

Lemma isOpportunity_spec a :
  isOpportunity a = true <->
  (exists s, score a = Some s /\ (s < 1)%Q) /\ scoreDisplayMode a <> "manual".
Proof.
  unfold isOpportunity. destruct (score a) as [s |].
  - rewrite andb_true_iff, not_modeIs, negb_true_iff.
    rewrite <- not_true_iff_false, Qle_bool_iff. split.
    + intros [Hs Hm]. split; [| exact Hm]. exists s. split; [reflexivity |].
      apply Qnot_le_lt, Hs.
    + intros [(s' & Heq & Hs) Hm]. inversion Heq; subst s'.
      split; [| exact Hm]. apply Qlt_not_le, Hs.
  - split; [discriminate |]. intros [(s & Heq & _) _]. discriminate.
Qed.

Lemma isPassedAudit_spec a :
  isPassedAudit a = true <->
  (exists s, score a = Some s /\ (s == 1)%Q) /\
  scoreDisplayMode a <> "manual" /\ scoreDisplayMode a <> "informative".
Proof.
  unfold isPassedAudit. destruct (score a) as [s |].
  - rewrite !andb_true_iff, !not_modeIs, Qeq_bool_iff. split.
    + intros [[Hs Hm] Hi]. repeat split; eauto.
    + intros [(s' & Heq & Hs) [Hm Hi]]. inversion Heq; subst s'. tauto.
  - split; [discriminate |]. intros [(s & Heq & _) _]. discriminate.
Qed.

(** What a rendered section is made of. *)
Lemma CategorySection_Some category allAudits t v :
  CategorySection category allAudits t = Some v ->
  exists c refs,
    category = Some c /\ auditRefs c = Some refs /\ cat_id c <> "pwa" /\
    sec_category v = c /\
    sec_gauge v = ((fun n => (n, gaugeColor n)) <$> categoryScore c) /\
    let rel := relevantAudits refs allAudits in
    sec_opportunities v = opportunitiesAndDiagnostics rel /\
    sec_manual v = manualChecks rel /\
    sec_passed v = passedAudits rel /\
    sec_rows v =
      (omap (fun a => AuditItem a false) (opportunitiesAndDiagnostics rel)
       ++ (if showManual t
           then omap (fun a => AuditItem a false) (manualChecks rel) else [])
       ++ (if showPassed t
           then omap (fun a => AuditItem a true) (passedAudits rel) else []))%list /\
    (sec_opportunities v <> [] \/ sec_manual v <> [] \/ sec_passed v <> []).
Proof.
  unfold CategorySection.
  destruct category as [c |]; [| discriminate].
  destruct (auditRefs c) as [refs |] eqn:Hrefs; [| discriminate].
  destruct (String.eqb (cat_id c) "pwa") eqn:Hpwa; [discriminate |].
  apply String.eqb_neq in Hpwa.
  destruct (_ && _) eqn:Hempty; [discriminate |].
  intros [= <-]. exists c, refs. simpl. repeat split; try done.
  apply andb_false_iff in Hempty as [Hempty | Hempty];
    [apply andb_false_iff in Hempty as [Hempty | Hempty] |];
    apply Nat.eqb_neq in Hempty.
  - left. intros Hnil. rewrite Hnil in Hempty. done.
  - right; left. intros Hnil. rewrite Hnil in Hempty. done.
  - right; right. intros Hnil. rewrite Hnil in Hempty. done.
Qed.

Lemma AuditItem_Some a p row :
  AuditItem a p = Some row ->
  row_audit row = a /\
  scoreDisplayMode a <> "notApplicable" /\ scoreDisplayMode a <> "error".
Proof.
  unfold AuditItem. destruct (iconOf a p) as [[icon ic] tc].
  destruct (modeIs "notApplicable" a) eqn:Hna; [discriminate |].
  destruct (modeIs "error" a) eqn:Herr; [discriminate |].
  simpl. intros [= <-]. simpl.
  apply modeIs_false in Hna, Herr. done.
Qed.

Lemma AuditItem_None a p :
  AuditItem a p = None <->
  scoreDisplayMode a = "notApplicable" \/ scoreDisplayMode a = "error".
Proof.
  unfold AuditItem. destruct (iconOf a p) as [[icon ic] tc].
  rewrite <- !modeIs_true.
  destruct (modeIs "notApplicable" a), (modeIs "error" a); simpl;
    split; try done; try tauto.
  intros [? | ?]; discriminate.
Qed.

(** *** The three buckets *)

Definition sampleAudit (i mode : string) (s : option Q) : Audit :=
  {| audit_id := i; audit_title := i; audit_description := None;
     score := s; scoreDisplayMode := mode; displayValue := None |}.

Definition sampleAudits : gmap string Audit :=
  {[ "slow" := sampleAudit "slow" "numeric" (Some (4 # 10));
     "check" := sampleAudit "check" "manual" None;
     "fast" := sampleAudit "fast" "binary" (Some 1%Q);
     "note" := sampleAudit "note" "informative" None;
     "na" := sampleAudit "na" "notApplicable" None ]}.

Definition sampleRefs : list AuditRef :=
  [ {| ref_id := "slow" |}; {| ref_id := "check" |}; {| ref_id := "fast" |};
    {| ref_id := "note" |}; {| ref_id := "na" |}; {| ref_id := "gone" |} ].

Definition sampleSeo : Category :=
  {| cat_id := "seo"; cat_title := "SEO"; cat_description := None;
     cat_score := Some (1 # 2); auditRefs := Some sampleRefs |}.

Definition note : Audit := sampleAudit "note" "informative" None.
Definition info1 : Audit := sampleAudit "info1" "informative" (Some 1%Q).

Definition informativeOnly : list Audit :=
  relevantAudits [ {| ref_id := "note" |}; {| ref_id := "info1" |} ]
                 (<["note" := note]> (<["info1" := info1]> ∅)).

(** C2, as stated, fails: the buckets do not cover the remaining audits.
    An informative audit with a null score is kept by the filter on
    display modes and lands in none of the three buckets; so does an
    informative audit with score 1. *)
Lemma buckets_counterexample :
  informativeOnly = [note; info1] /\
  opportunitiesAndDiagnostics informativeOnly = [] /\
  manualChecks informativeOnly = [] /\
  passedAudits informativeOnly = [].
Proof. vm_compute. repeat split. Qed.

(** C2, amended.  The three buckets are selected from the remaining
    audits (referenced by the category, present in the audit map, display
    mode neither [notApplicable] nor [error]): opportunities/diagnostics
    holds exactly those with a non-null score below 1 and a mode other than
    [manual]; manual exactly those with mode [manual]; passed exactly those
    with score 1 and a mode other than [manual] and [informative].  The
    buckets are pairwise disjoint, and a remaining audit is in none of them
    exactly when its mode is not [manual] and its score is null, above 1,
    or 1 with mode [informative].  A rendered section carries these three
    lists. *)
Theorem buckets_characterised
  (refs : list AuditRef) (allAudits : gmap string Audit) (a : Audit)
  (rel := relevantAudits refs allAudits)
  (opp := opportunitiesAndDiagnostics rel)
  (man := manualChecks rel)
  (pas := passedAudits rel)
  (remaining :=
     referenced refs allAudits a /\
     scoreDisplayMode a <> "notApplicable" /\ scoreDisplayMode a <> "error") :
  (a ∈ rel <-> remaining) /\
  (a ∈ opp <->
     remaining /\ (exists s, score a = Some s /\ (s < 1)%Q) /\
     scoreDisplayMode a <> "manual") /\
  (a ∈ man <-> remaining /\ scoreDisplayMode a = "manual") /\
  (a ∈ pas <->
     remaining /\ (exists s, score a = Some s /\ (s == 1)%Q) /\
     scoreDisplayMode a <> "manual" /\ scoreDisplayMode a <> "informative") /\
  (~ (a ∈ opp /\ a ∈ man)) /\ (~ (a ∈ opp /\ a ∈ pas)) /\
  (~ (a ∈ man /\ a ∈ pas)) /\
  ((a ∈ rel /\ (a ∉ opp) /\ (a ∉ man) /\ (a ∉ pas)) <->
     (remaining /\ scoreDisplayMode a <> "manual" /\
      (score a = None \/
       exists s, score a = Some s /\
                 ((1 < s)%Q \/ ((s == 1)%Q /\ scoreDisplayMode a = "informative"))))) /\
  (forall c t v,
      auditRefs c = Some refs ->
      CategorySection (Some c) allAudits t = Some v ->
      sec_opportunities v = opp /\ sec_manual v = man /\ sec_passed v = pas).
Proof.
  assert (a ∈ rel <-> remaining) as Hrel by apply relevant_spec.
  assert (a ∈ opp <->
          remaining /\ (exists s, score a = Some s /\ (s < 1)%Q) /\
          scoreDisplayMode a <> "manual") as Hopp.
  { unfold opp, opportunitiesAndDiagnostics.
    rewrite filter_elem_of, isOpportunity_spec, Hrel. tauto. }
  assert (a ∈ man <-> remaining /\ scoreDisplayMode a = "manual") as Hman.
  { unfold man, manualChecks, isManual.
    rewrite filter_elem_of, modeIs_true, Hrel. tauto. }
  assert (a ∈ pas <->
          remaining /\ (exists s, score a = Some s /\ (s == 1)%Q) /\
          scoreDisplayMode a <> "manual" /\
          scoreDisplayMode a <> "informative") as Hpas.
  { unfold pas, passedAudits.
    rewrite filter_elem_of, isPassedAudit_spec, Hrel. tauto. }
  split; [exact Hrel |]. split; [exact Hopp |]. split; [exact Hman |].
  split; [exact Hpas |].
  split; [rewrite Hopp, Hman; tauto |].
  split.
  { rewrite Hopp, Hpas.
    intros [(_ & (s & Hs & Hlt) & _) (_ & (s' & Hs' & Heq) & _)].
    rewrite Hs in Hs'. inversion Hs'; subst s'. rewrite Heq in Hlt.
    revert Hlt. apply Qlt_irrefl. }
  split; [rewrite Hman, Hpas; tauto |].
  split.
  { rewrite Hopp, Hman, Hpas, Hrel. split.
    - intros (Hr & Ho & Hm & Hp).
      split; [exact Hr |].
      assert (scoreDisplayMode a <> "manual") as Hnm by tauto.
      split; [exact Hnm |].
      destruct (score a) as [s |] eqn:Hs; [right | left; reflexivity].
      exists s. split; [reflexivity |].
      destruct (Qlt_le_dec 1 s) as [Hgt | Hle]; [left; exact Hgt | right].
      destruct (Qeq_dec s 1) as [Heq | Hne].
      + split; [exact Heq |].
        destruct (string_dec (scoreDisplayMode a) "informative") as [Hi | Hi];
          [exact Hi |].
        exfalso. apply Hp. split; [exact Hr |].
        split; [exists s; split; [reflexivity | exact Heq] |].
        split; assumption.
      + exfalso. apply Ho. split; [exact Hr |].
        split; [| exact Hnm]. exists s.
        split; [reflexivity |]. apply Qle_lteq in Hle. tauto.
    - intros (Hr & Hnm & Hsc). split; [exact Hr |].
      split; [| split; [tauto |]].
      + intros (_ & (s & Hs & Hlt) & _).
        destruct Hsc as [Hnone | (s' & Hs' & Hcase)]; [congruence |].
        rewrite Hs in Hs'. inversion Hs'; subst s'.
        destruct Hcase as [Hgt | [Heq _]].
        * apply (Qlt_irrefl 1). eapply Qlt_trans; eassumption.
        * rewrite Heq in Hlt. revert Hlt. apply Qlt_irrefl.
      + intros (_ & (s & Hs & Heq) & _ & Hni).
        destruct Hsc as [Hnone | (s' & Hs' & Hcase)]; [congruence |].
        rewrite Hs in Hs'. inversion Hs'; subst s'.
        destruct Hcase as [Hgt | [_ Hi]]; [| tauto].
        rewrite Heq in Hgt. revert Hgt. apply Qlt_irrefl. }
  intros c t v Hrefs Hsec.
  apply CategorySection_Some in Hsec
    as (c' & refs' & [= <-] & Hrefs' & _ & _ & _ & Ho & Hm & Hp & _).
  rewrite Hrefs in Hrefs'. inversion Hrefs'; subst refs'. tauto.
Qed.

(** On the sample category the slow audit is an opportunity, and the
    rendered section lists it. *)
Lemma buckets_characterised_witness :
  exists v,
    CategorySection (Some sampleSeo) sampleAudits collapsed = Some v /\
    sampleAudit "slow" "numeric" (Some (4 # 10)) ∈ sec_opportunities v.
Proof.
  pose (a := sampleAudit "slow" "numeric" (Some (4 # 10))).
  destruct (CategorySection (Some sampleSeo) sampleAudits collapsed)
    as [v |] eqn:Hsec; [| vm_compute in Hsec; discriminate].
  exists v. split; [reflexivity |].
  destruct (buckets_characterised sampleRefs sampleAudits a)
    as (_ & Hopp & _ & _ & _ & _ & _ & _ & Hview).
  destruct (Hview sampleSeo collapsed v eq_refl Hsec) as (-> & _ & _).
  apply Hopp. split; [| split].
  - split; [| split; discriminate].
    exists {| ref_id := "slow" |}. split; [left | reflexivity].
  - exists (4 # 10). split; [reflexivity | reflexivity].
  - discriminate.
Defined.

(** *** Audits that are never shown *)

(** C7.  An audit whose display mode is [notApplicable] or [error] is
    dropped before bucketing: it is in none of the three buckets, the row
    component renders nothing for it, and no row of a rendered section
    belongs to it, whatever the toggles. *)
Theorem excluded_modes_not_rendered
  (category : option Category) (allAudits : gmap string Audit)
  (t : Toggles) (a : Audit) :
  scoreDisplayMode a = "notApplicable" \/ scoreDisplayMode a = "error" ->
  (forall isPassed, AuditItem a isPassed = None) /\
  (forall refs,
      let rel := relevantAudits refs allAudits in
      (a ∉ rel) /\ (a ∉ opportunitiesAndDiagnostics rel) /\
      (a ∉ manualChecks rel) /\ (a ∉ passedAudits rel)) /\
  (forall v,
      CategorySection category allAudits t = Some v ->
      (a ∉ sec_opportunities v) /\ (a ∉ sec_manual v) /\
      (a ∉ sec_passed v) /\
      forall row, row ∈ sec_rows v -> row_audit row <> a).
Proof.
  intros Hmode.
  assert (forall refs, a ∉ relevantAudits refs allAudits) as Hrel.
  { intros refs Hin. apply relevant_spec in Hin as (_ & Hna & Herr).
    destruct Hmode; contradiction. }
  assert (forall refs f, a ∉ List.filter f (relevantAudits refs allAudits))
    as Hfil.
  { intros refs f Hin. apply filter_elem_of in Hin as [Hin _].
    exact (Hrel refs Hin). }
  split; [| split].
  - intros isPassed. apply AuditItem_None, Hmode.
  - intros refs rel. repeat split; try apply Hfil. apply Hrel.
  - intros v Hsec.
    apply CategorySection_Some in Hsec
      as (c & refs & _ & _ & _ & _ & _ & Ho & Hm & Hp & Hrows & _).
    rewrite Ho, Hm, Hp.
    repeat split; try apply Hfil.
    intros row Hrow Heq. rewrite Hrows in Hrow.
    assert (exists x p, AuditItem x p = Some row) as (x & p & Hitem).
    { rewrite !elem_of_app in Hrow.
      destruct Hrow as [Hrow | [Hrow | Hrow]].
      - apply list_elem_of_omap in Hrow as (x & _ & Hx). eauto.
      - destruct (showManual t); [| inversion Hrow].
        apply list_elem_of_omap in Hrow as (x & _ & Hx). eauto.
      - destruct (showPassed t); [| inversion Hrow].
        apply list_elem_of_omap in Hrow as (x & _ & Hx). eauto. }
    apply AuditItem_Some in Hitem as (Hx & Hna & Herr).
    rewrite Heq in Hx. subst x. destruct Hmode; contradiction.
Qed.

(** On the sample category the not-applicable audit is referenced and
    present, yet absent from the section. *)
Lemma excluded_modes_not_rendered_witness :
  sampleAudits !! "na" = Some (sampleAudit "na" "notApplicable" None) /\
  exists v,
    CategorySection (Some sampleSeo) sampleAudits collapsed = Some v /\
    sampleAudit "na" "notApplicable" None ∉ sec_opportunities v.
Proof.
  split; [reflexivity |].
  destruct (CategorySection (Some sampleSeo) sampleAudits collapsed)
    as [v |] eqn:Hsec; [| vm_compute in Hsec; discriminate].
  exists v. split; [reflexivity |].
  refine (proj1 (proj2 (proj2 (excluded_modes_not_rendered
                                 (Some sampleSeo) sampleAudits collapsed
                                 (sampleAudit "na" "notApplicable" None) _))
                   v Hsec)).
  left. reflexivity.
Defined.

(** *** No section for the PWA category *)

(** C9.  Every rendered section belongs to a category stored under one of
    the four keys [performance], [accessibility], [best-practices], [seo],
    has audit references, and an id other than [pwa]; a category with id
    [pwa], or without audit references, renders nothing; [pwa] is not
    among the keys looked up.  Yet the audit run asks the engine for the
    [pwa] category, and the payload carries a [pwaScore] taken from it. *)
Theorem pwa_never_rendered
  (categories : option (gmap string Category))
  (audits : option (gmap string Audit)) (toggles : string -> Toggles) :
  (forall v,
      v ∈ rendered (DiagnosticsDisplay categories audits toggles) ->
      cat_id (sec_category v) <> "pwa" /\
      is_Some (auditRefs (sec_category v)) /\
      exists cats k,
        categories = Some cats /\
        k ∈ ["performance"; "accessibility"; "best-practices"; "seo"] /\
        cats !! k = Some (sec_category v)) /\
  (forall c allAudits t,
      cat_id c = "pwa" \/ auditRefs c = None ->
      CategorySection (Some c) allAudits t = None) /\
  ("pwa" ∉ categoryDisplayOrder) /\
  (forall st, "pwa" ∈ Analyze.onlyCategories (Analyze.lighthouseConfig st)) /\
  (forall u sname l,
      Analyze.pwaScore (Analyze.responseData u sname l)
      = normalizedScore (Analyze.categories l) "pwa").
Proof.
  split; [| split; [| split; [| split]]].
  - intros v Hv. unfold DiagnosticsDisplay in Hv.
    destruct categories as [cats |]; [| inversion Hv].
    destruct audits as [auds |]; [| inversion Hv].
    unfold rendered in Hv.
    apply list_elem_of_omap in Hv as (child & Hchild & ->).
    apply list_elem_of_fmap in Hchild as (k & Hk & Hin).
    destruct (cats !! k) as [c |] eqn:Hlook; [| discriminate].
    symmetry in Hk.
    apply CategorySection_Some in Hk
      as (c' & refs & [= <-] & Hrefs & Hid & Hcat & _).
    rewrite Hcat. split; [exact Hid |]. split; [rewrite Hrefs; eauto |].
    exists cats, k. split; [reflexivity |]. split; [exact Hin | exact Hlook].
  - intros c allAudits t [Hid | Hrefs]; unfold CategorySection.
    + rewrite Hid. destruct (auditRefs c); reflexivity.
    + rewrite Hrefs. reflexivity.
  - unfold categoryDisplayOrder. intros Hin.
    repeat (apply elem_of_cons in Hin as [Hin | Hin]; [discriminate |]).
    inversion Hin.
  - intros st. simpl. unfold Analyze.currentCategories.
    rewrite !elem_of_cons. tauto.
  - reflexivity.
Qed.

Definition samplePwa : Category :=
  {| cat_id := "pwa"; cat_title := "PWA"; cat_description := None;
     cat_score := Some (3 # 10); auditRefs := Some sampleRefs |}.

(** A report with a scored, populated [pwa] category shows the SEO
    section only. *)
Lemma pwa_never_rendered_witness :
  CategorySection (Some samplePwa) sampleAudits collapsed = None /\
  sec_category <$>
    rendered (DiagnosticsDisplay
                (Some (<["pwa" := samplePwa]> (<["seo" := sampleSeo]> ∅)))
                (Some sampleAudits) (fun _ => collapsed))
  = [sampleSeo].
Proof.
  split.
  - apply (proj1 (proj2 (pwa_never_rendered None None (fun _ => collapsed)))).
    left. reflexivity.
  - vm_compute. reflexivity.
Defined.

End DiagnosticsProofs.

(** ** Score normalisation *)

Module ScoreProofs.

Import Analyze.
Local Open Scope string_scope.

(** [n] is the integer nearest to [x], a tie going up. *)
Definition nearest (n : Z) (x : Q) : Prop :=
  (x - (1 # 2) < inject_Z n /\ inject_Z n <= x + (1 # 2))%Q.


Lemma nearest_unique (n m : Z) (x : Q) : nearest n x -> nearest m x -> n = m.
Proof.
  unfold nearest. intros [Hn1 Hn2] [Hm1 Hm2].
  assert (inject_Z n < inject_Z m + 1)%Q as H1 by lra.
  assert (inject_Z m < inject_Z n + 1)%Q as H2 by lra.
  change 1%Q with (inject_Z 1) in H1, H2.
  rewrite <- inject_Z_plus, <- Zlt_Qlt in H1.
  rewrite <- inject_Z_plus, <- Zlt_Qlt in H2.
  lia.
Qed.





(** The score that the decimal [k/100] denotes. *)
Definition twoDecimal (k : Z) : Q := JS.toDouble (k # 100).

Lemma Math_round_comp (x y : Q) : (x == y)%Q -> JS.Math_round x = JS.Math_round y.
Proof.
  intros H. unfold JS.Math_round. apply Qfloor_comp. rewrite H. reflexivity.
Qed.




Definition sampleCategory (i : string) (s : option Q) : Category :=
  {| cat_id := i; cat_title := i; cat_description := None;
     cat_score := s; auditRefs := Some [] |}.

(** A report whose only category is performance, with the given score. *)
Definition reportWith (s : Q) : LHR :=
  {| categories :=
       {[ "performance" := sampleCategory "performance" (Some s) ]};
     audits := ∅; timing := 0; finalUrl := "https://example.com/";
     lighthouseVersion := "11"; fetchTime := "2024-01-01T00:00:00.000Z" |}.



(** The two examples of the specification: 0.947 is shown as 95 in green,
    0.5 as 50 in yellow. *)
Example gauge_0947 :
  (fun n => (n, Diagnostics.gaugeColor n))
    <$> roundScore (Some (JS.toDouble (947 # 1000)))
  = Some (95, "text-green-500").
Proof. vm_compute. reflexivity. Qed.

Example gauge_05 :
  (fun n => (n, Diagnostics.gaugeColor n)) <$> roundScore (Some (5 # 10))
  = Some (50, "text-yellow-500").
Proof. vm_compute. reflexivity. Qed.

Definition sampleLHR : LHR := reportWith (twoDecimal 95).


End ScoreProofs.

(** ** The security checklist *)

Module SecurityScanProofs.

Import SecurityScan.
Local Open Scope string_scope.

(** The number of items of a list that carry a given status. *)
Fixpoint countStatus (s : string) (l : list SecurityCheckItem) : nat :=
  match l with
  | [] => 0
  | r :: rest =>
      ((if String.eqb (status r) s then 1 else 0) + countStatus s rest)%nat
  end.

(** Some item is infected or blacklisted. *)
Definition anyCritical (l : list SecurityCheckItem) : Prop :=
  exists r, r ∈ l /\ (status r = "infected" \/ status r = "blacklisted").

(** Risk level and severity, without the status text. *)
Definition verdict (l : list SecurityCheckItem) : Risk * Severity :=
  fst (assess l).

Lemma countStatus_filter s l :
  length (List.filter (hasStatus s) l) = countStatus s l.
Proof.
  induction l as [| r rest IH]; [reflexivity |].
  simpl. unfold hasStatus at 1.
  destruct (String.eqb (status r) s); simpl; rewrite IH; reflexivity.
Qed.

Lemma countStatus_elem_of s r l :
  r ∈ l -> status r = s -> (1 <= countStatus s l)%nat.
Proof.
  intros Hin Hs. induction Hin as [r l | r r' l _ IH]; simpl.
  - rewrite Hs, String.eqb_refl. lia.
  - specialize (IH Hs). lia.
Qed.

Lemma critical_filter l :
  (0 < length (List.filter (fun r => hasStatus "infected" r
                                     || hasStatus "blacklisted" r) l))%nat
  <-> anyCritical l.
Proof.
  unfold anyCritical. split.
  - intros Hlen.
    destruct (List.filter _ l) as [| r rest] eqn:Hf; [simpl in Hlen; lia |].
    assert (r ∈ List.filter
                  (fun r => hasStatus "infected" r || hasStatus "blacklisted" r) l)
      as Hin by (rewrite Hf; left).
    apply list_elem_of_In, filter_In in Hin as [Hin Hst].
    exists r. split; [apply list_elem_of_In, Hin |].
    apply orb_true_iff in Hst. unfold hasStatus in Hst.
    rewrite !String.eqb_eq in Hst. exact Hst.
  - intros (r & Hin & Hst).
    assert (In r (List.filter
                    (fun r => hasStatus "infected" r || hasStatus "blacklisted" r) l))
      as Hf.
    { apply filter_In. split; [apply list_elem_of_In, Hin |].
      apply orb_true_iff. unfold hasStatus. rewrite !String.eqb_eq. exact Hst. }
    destruct (List.filter _ l); [destruct Hf | simpl; lia].
Qed.

(** The five cases of the thresholding, for any list of items. *)
Lemma verdict_cases (l : list SecurityCheckItem) :
  let fails := countStatus "fail" l in
  let warns := countStatus "warn" l in
  (anyCritical l -> verdict l = (Critical, danger)) /\
  (~ anyCritical l -> (2 <= fails)%nat -> verdict l = (High, danger)) /\
  (~ anyCritical l -> (fails < 2)%nat -> fails = 1%nat \/ (3 <= warns)%nat ->
     verdict l = (Medium, warning)) /\
  (~ anyCritical l -> fails = 0%nat -> (0 < warns < 3)%nat ->
     verdict l = (Low, warning)) /\
  (~ anyCritical l -> fails = 0%nat -> warns = 0%nat ->
     verdict l = (Minimal, good)).
Proof.
  intros fails warns. unfold verdict, assess.
  rewrite !countStatus_filter. fold fails warns.
  pose proof (critical_filter l) as Hcrit.
  destruct (0 <? length _)%nat eqn:Hc.
  - apply Nat.ltb_lt, Hcrit in Hc. repeat split; intros; try reflexivity;
      contradiction.
  - apply Nat.ltb_ge in Hc.
    assert (~ anyCritical l) as Hno by (rewrite <- Hcrit; lia).
    split; [intros; contradiction |].
    destruct (2 <=? fails)%nat eqn:H2;
      [apply Nat.leb_le in H2 | apply Nat.leb_gt in H2].
    { repeat split; intros; try reflexivity; lia. }
    destruct (fails =? 1)%nat eqn:H1;
      [apply Nat.eqb_eq in H1 | apply Nat.eqb_neq in H1]; cbn [orb].
    { repeat split; intros; try reflexivity; lia. }
    destruct (3 <=? warns)%nat eqn:H3;
      [apply Nat.leb_le in H3 | apply Nat.leb_gt in H3].
    { repeat split; intros; try reflexivity; lia. }
    destruct (0 <? warns)%nat eqn:H0;
      [apply Nat.ltb_lt in H0 | apply Nat.ltb_ge in H0];
      repeat split; intros; try reflexivity; lia.
Qed.

(** The payload's risk and severity are the verdict on its two lists. *)
Lemma scan_verdict env targetUrl :
  let p := scan env targetUrl in
  (securityRisk p, overallStatusSeverity p)
  = verdict (malwareAndSecurityDetails p ++ blacklistStatusDetails p)%list.
Proof.
  unfold scan, verdict.
  destruct (headerCheck env (httpsCheck env [])) as [malware1 info].
  destruct (mockChecks targetUrl malware1 []) as [malware blacklist].
  destruct (assess (malware ++ blacklist)%list) as [[risk sev] txt] eqn:Ha.
  simpl. rewrite Ha. reflexivity.
Qed.

(** Read with line 180 closed, the scan does what its thresholding code
    says.  The risk level and severity of a scan are determined by the
    status counts over its malware-and-security list followed by its
    blacklist list: an infected or blacklisted item gives Critical/danger;
    otherwise two or more fails give High/danger; otherwise exactly one
    fail, or three or more warns, give Medium/warning; otherwise a warn
    gives Low/warning; otherwise Minimal/good.  The same thresholds hold of
    [assess] on any two lists. *)
Theorem risk_by_status_counts (env : Env) (targetUrl : string)
        (malware blacklist : list SecurityCheckItem) :
  let p := scan env targetUrl in
  (malware = malwareAndSecurityDetails p /\
   blacklist = blacklistStatusDetails p ->
   (securityRisk p, overallStatusSeverity p)
   = verdict (malware ++ blacklist)%list) /\
  let allChecks := (malware ++ blacklist)%list in
  let fails := countStatus "fail" allChecks in
  let warns := countStatus "warn" allChecks in
  (anyCritical allChecks -> verdict allChecks = (Critical, danger)) /\
  (~ anyCritical allChecks -> (2 <= fails)%nat ->
     verdict allChecks = (High, danger)) /\
  (~ anyCritical allChecks -> (fails < 2)%nat ->
     fails = 1%nat \/ (3 <= warns)%nat ->
     verdict allChecks = (Medium, warning)) /\
  (~ anyCritical allChecks -> fails = 0%nat -> (0 < warns < 3)%nat ->
     verdict allChecks = (Low, warning)) /\
  (~ anyCritical allChecks -> fails = 0%nat -> warns = 0%nat ->
     verdict allChecks = (Minimal, good)).
Proof.
  intros p. split.
  - intros [-> ->]. apply scan_verdict.
  - apply verdict_cases.
Qed.


Definition secureWithCsp : Env :=
  {| protocol := Some "https:";
     fetched := inr {| header_server := Some "nginx";
                       header_csp := Some "default-src 'self'";
                       remoteAddress := Some "203.0.113.7" |};
     now := "2024-01-01T00:00:00.000Z" |}.

(** A clean HTTPS site with a CSP header is Minimal/good; a site marked as
    malware is Critical/danger. *)
Lemma risk_by_status_counts_witness :
  verdict (malwareAndSecurityDetails (scan secureWithCsp "https://example.com")
           ++ blacklistStatusDetails (scan secureWithCsp "https://example.com"))%list
  = (Minimal, good) /\
  verdict (malwareAndSecurityDetails
             (scan secureWithCsp "https://malwareexample.com")
           ++ blacklistStatusDetails
                (scan secureWithCsp "https://malwareexample.com"))%list
  = (Critical, danger).
Proof.
  split.
  - refine (proj2 (proj2 (proj2 (proj2 (proj2
             (risk_by_status_counts secureWithCsp "https://example.com"
                (malwareAndSecurityDetails
                   (scan secureWithCsp "https://example.com"))
                (blacklistStatusDetails
                   (scan secureWithCsp "https://example.com"))))))) _ _ _).
    + intros (r & Hin & Hst).
      set (l := (_ ++ _)%list) in Hin. vm_compute in l. subst l.
      repeat (apply elem_of_cons in Hin as [-> | Hin];
              [destruct Hst; discriminate |]).
      inversion Hin.
    + reflexivity.
    + reflexivity.
  - refine (proj1 (proj2
             (risk_by_status_counts secureWithCsp "https://malwareexample.com"
                (malwareAndSecurityDetails
                   (scan secureWithCsp "https://malwareexample.com"))
                (blacklistStatusDetails
                   (scan secureWithCsp "https://malwareexample.com")))) _).
    exists (item "ExampleBadGuysList" "blacklisted"
                 "Reason: Distribution of malware.").
    split; [| right; reflexivity].
    set (l := (_ ++ _)%list). vm_compute in l. subst l.
    rewrite !elem_of_cons. tauto.
Defined.

(** *** Plain HTTP *)

Lemma httpsCheck_snoc env items :
  exists r, httpsCheck env items = (items ++ [r])%list /\
    (forall p, protocol env = Some p -> p <> "https:" ->
       r = item "HTTPS Usage" "fail"
             "Site is not using HTTPS! This is a critical security vulnerability.").
Proof.
  unfold httpsCheck. destruct (protocol env) as [p |].
  - destruct (String.eqb p "https:") eqn:Hp.
    + eexists. split; [reflexivity |]. intros p' [= <-] Hne.
      apply String.eqb_eq in Hp. contradiction.
    + eexists. split; [reflexivity |]. reflexivity.
  - eexists. split; [reflexivity |]. discriminate.
Qed.

Lemma headerCheck_extends env items :
  exists more, fst (headerCheck env items) = (items ++ more)%list.
Proof.
  unfold headerCheck. destruct (fetched env); simpl; eauto.
Qed.

Lemma mockChecks_extends targetUrl malware blacklist :
  exists more,
    fst (mockChecks targetUrl malware blacklist) = (malware ++ more)%list.
Proof.
  unfold mockChecks.
  destruct (JS.includes "malwareexample.com" targetUrl); [simpl; eauto |].
  destruct (JS.includes "warningexample.com" targetUrl); simpl; eauto.
Qed.

Lemma scan_malware_details env targetUrl :
  malwareAndSecurityDetails (scan env targetUrl)
  = fst (mockChecks targetUrl (fst (headerCheck env (httpsCheck env []))) []).
Proof.
  unfold scan.
  destruct (headerCheck env (httpsCheck env [])) as [malware1 info].
  cbn [fst].
  destruct (mockChecks targetUrl malware1 []) as [malware blacklist].
  destruct (assess (malware ++ blacklist)%list) as [[risk sev] txt].
  reflexivity.
Qed.

Lemma critical_or_not l : anyCritical l \/ ~ anyCritical l.
Proof. rewrite <- critical_filter. lia. Qed.

Lemma verdict_with_fail l :
  (1 <= countStatus "fail" l)%nat ->
  fst (verdict l) = Medium \/ fst (verdict l) = High \/
  fst (verdict l) = Critical.
Proof.
  intros Hfail.
  destruct (verdict_cases l) as (Hc & Hh & Hm & _).
  destruct (critical_or_not l) as [Hcrit | Hno].
  - rewrite (Hc Hcrit). tauto.
  - destruct (le_lt_dec 2 (countStatus "fail" l)) as [H2 | H2].
    + rewrite (Hh Hno H2). tauto.
    + rewrite (Hm Hno H2); [tauto | lia].
Qed.

(** Read with line 180 closed: a scan request whose URL passes the
    validator and whose protocol is not [https:] is answered with a
    payload in which the failed HTTPS Usage check is listed; the payload
    therefore counts at least one fail, and its risk is Medium, High or
    Critical, never Minimal or Low. *)
Theorem plain_http_at_least_medium
  (isUrl : string -> bool) (env : Env) (req : Request)
  (u proto : string) :
  method req = "POST" ->
  body req = Some {| body_url := Some u |} ->
  isUrl u = true ->
  protocol env = Some proto ->
  proto <> "https:" ->
  exists p,
    handler isUrl env req = Ret {| code := 200; json := Payload p |} /\
    item "HTTPS Usage" "fail"
         "Site is not using HTTPS! This is a critical security vulnerability."
      ∈ malwareAndSecurityDetails p /\
    (1 <= countStatus "fail"
            (malwareAndSecurityDetails p ++ blacklistStatusDetails p)%list)%nat /\
    securityRisk p <> Minimal /\ securityRisk p <> Low /\
    (securityRisk p = Medium \/ securityRisk p = High \/
     securityRisk p = Critical).
Proof.
  intros Hmethod Hbody Hvalid Hproto Hne.
  exists (scan env u).
  assert (handler isUrl env req
          = Ret {| code := 200; json := Payload (scan env u) |}) as Hresp.
  { unfold handler, scanSchema_parse.
    rewrite Hmethod, Hbody. cbn. rewrite Hvalid. reflexivity. }
  set (https := item "HTTPS Usage" "fail"
         "Site is not using HTTPS! This is a critical security vulnerability.").
  assert (https ∈ malwareAndSecurityDetails (scan env u)) as Hin.
  { rewrite scan_malware_details.
    destruct (httpsCheck_snoc env []) as (r & Hr & Hfail).
    rewrite (Hfail proto Hproto Hne) in Hr. fold https in Hr.
    destruct (headerCheck_extends env (httpsCheck env [])) as (m1 & ->).
    destruct (mockChecks_extends u (httpsCheck env [] ++ m1)%list [])
      as (m2 & ->).
    rewrite Hr. rewrite !elem_of_app, elem_of_cons. tauto. }
  assert (1 <= countStatus "fail"
                 (malwareAndSecurityDetails (scan env u)
                  ++ blacklistStatusDetails (scan env u))%list)%nat as Hcount.
  { apply (countStatus_elem_of "fail" https); [| reflexivity].
    apply elem_of_app. left. exact Hin. }
  pose proof (verdict_with_fail _ Hcount) as Hrisk.
  rewrite <- scan_verdict in Hrisk. cbn [fst] in Hrisk.
  split; [exact Hresp |]. split; [exact Hin |]. split; [exact Hcount |].
  split; [| split; [| exact Hrisk]];
    intros Heq; rewrite Heq in Hrisk;
    destruct Hrisk as [? | [? | ?]]; discriminate.
Qed.

(** A reachable plain-HTTP site with a CSP header still has one fail and
    is rated Medium. *)
Lemma plain_http_at_least_medium_witness :
  exists p,
    handler (JS.startsWith "http")
            {| protocol := Some "http:";
               fetched := inr {| header_server := None;
                                 header_csp := Some "default-src 'self'";
                                 remoteAddress := None |};
               now := "2024-01-01T00:00:00.000Z" |}
            {| method := "POST";
               body := Some {| body_url := Some "http://example.com" |} |}
    = Ret {| code := 200; json := Payload p |} /\
    securityRisk p = Medium.
Proof.
  destruct (plain_http_at_least_medium
              (JS.startsWith "http")
              {| protocol := Some "http:";
                 fetched := inr {| header_server := None;
                                   header_csp := Some "default-src 'self'";
                                   remoteAddress := None |};
                 now := "2024-01-01T00:00:00.000Z" |}
              {| method := "POST";
                 body := Some {| body_url := Some "http://example.com" |} |}
              "http://example.com" "http:"
              eq_refl eq_refl eq_refl eq_refl ltac:(discriminate))
    as (p & Hresp & _).
  exists p. split; [exact Hresp |].
  vm_compute in Hresp. inversion Hresp. reflexivity.
Defined.

(** *** The file as given *)


(** The same statement with its call closed would parse. *)
Lemma line180_closed_parses :
  wellNested 0 (removelast line180 ++ [Close; Semicolon]) = true.
Proof. reflexivity. Qed.




End SecurityScanProofs.

(** ** Report history *)

Module ReportsProofs.

Import Reports.
Local Open Scope string_scope.

#[local] Instance newerFirst_trans : Transitive newerFirst.
Proof. unfold newerFirst, inOrder. intros a b c Hab Hbc. lia. Qed.

#[local] Instance newerFirst_total : Total newerFirst.
Proof. unfold newerFirst, inOrder. intros a b. lia. Qed.

(** The arguments the handler gives to [findMany], with the cut left
    open. *)
Definition newest (uid : string) (n : nat) : FindManyArgs :=
  {| where_userId := uid; orderBy_createdAt := desc; take := n |}.

(** The rows of one user, most recent first, before the cut. *)
Definition ordered (table : list Report) (uid : string) : list Report :=
  merge_sort newerFirst
             (List.filter (fun r => String.eqb (userId r) uid) table).









Definition sampleReport (u : string) (t : Z) : Report :=
  {| url := "https://example.com"; strategy := "mobile";
     performanceScore := Some 95; accessibilityScore := None;
     bestPracticesScore := None; seoScore := None; pwaScore := None;
     userId := u; createdAt := t |}.

Definition sampleTable : list Report :=
  [sampleReport "u1" 10; sampleReport "u2" 20; sampleReport "u1" 30].

Definition signedIn (i : string) : option Analyze.Session :=
  Some {| Analyze.user := Some {| Analyze.user_id := Some i |} |}.


End ReportsProofs.

(** ** The form handlers *)

Module FormsProofs.

Import Forms.
Local Open Scope string_scope.

Lemma truthy_nonempty s : JS.truthy s = true <-> s <> "".
Proof. destruct s; simpl; split; congruence. Qed.

(** C4, as stated, fails: the analysis form does not prepend anything.
    [ftp://example.com] does not start with [https://]; the URL field of
    the form (an input of type [url]) accepts it, and submitting it sets a
    form error and sends no request.  [http://example.com] does not start
    with [https://] either, and is posted as it is, by the analysis form
    and by the security-scan form alike. *)
Lemma analysis_form_counterexample :
  JS.startsWith "https://" "ftp://example.com" = false /\
  HomePage_handleSubmit "ftp://example.com"
  = {| formError := Some "URL must start with http:// or https://";
       field := "ftp://example.com"; posts := [] |} /\
  JS.startsWith "https://" "http://example.com" = false /\
  posts (HomePage_handleSubmit "http://example.com")
  = [PostAnalyze "http://example.com" Analyze.mobile;
     PostAnalyze "http://example.com" Analyze.desktop] /\
  posts (SecurityCheckerPage_handleSubmit "http://example.com")
  = [PostSecurityScan "http://example.com"].
Proof. repeat split. Qed.

(** C4, amended.  For a submitted URL whose trimmed form is not empty: if
    it starts with neither [http://] nor [https://], the security-scan
    form prepends [https://] and posts the result, while the analysis form
    rejects it with a form error and sends nothing; if it starts with
    either prefix, both forms submit the trimmed URL unchanged (the
    analysis form once for mobile, then once for desktop). *)
Theorem https_prefix_on_scan_form_only (url : string) :
  JS.trim url <> "" ->
  let currentUrl := JS.trim url in
  (JS.startsWith "http://" currentUrl = false /\
   JS.startsWith "https://" currentUrl = false ->
     SecurityCheckerPage_handleSubmit url
     = {| formError := None; field := "https://" +:+ currentUrl;
          posts := [PostSecurityScan ("https://" +:+ currentUrl)] |} /\
     HomePage_handleSubmit url
     = {| formError := Some "URL must start with http:// or https://";
          field := url; posts := [] |}) /\
  (JS.startsWith "http://" currentUrl = true \/
   JS.startsWith "https://" currentUrl = true ->
     SecurityCheckerPage_handleSubmit url
     = {| formError := None; field := currentUrl;
          posts := [PostSecurityScan currentUrl] |} /\
     HomePage_handleSubmit url
     = {| formError := None; field := url;
          posts := [PostAnalyze currentUrl Analyze.mobile;
                    PostAnalyze currentUrl Analyze.desktop] |}).
Proof.
  intros Hne currentUrl.
  apply truthy_nonempty in Hne. fold currentUrl in Hne.
  unfold SecurityCheckerPage_handleSubmit, HomePage_handleSubmit.
  fold currentUrl. rewrite Hne. cbn [negb].
  split.
  - intros [-> ->]. split; reflexivity.
  - intros [H | H]; rewrite H; cbn [negb andb];
      rewrite ?andb_false_r; split; reflexivity.
Qed.

(** A no-break space (U+00A0), as its two bytes. *)
Definition nbsp : string :=
  String (ascii_of_nat 194) (String (ascii_of_nat 160) "").

(** [example.com] typed into the scan form between a no-break space and a
    space is scanned as [https://example.com].  [ftp://example.com] is
    refused by the analysis form and scanned as
    [https://ftp://example.com]. *)
Lemma https_prefix_on_scan_form_only_witness :
  SecurityCheckerPage_handleSubmit (nbsp +:+ "example.com ")
  = {| formError := None; field := "https://example.com";
       posts := [PostSecurityScan "https://example.com"] |} /\
  SecurityCheckerPage_handleSubmit "ftp://example.com"
  = {| formError := None; field := "https://ftp://example.com";
       posts := [PostSecurityScan "https://ftp://example.com"] |} /\
  HomePage_handleSubmit "ftp://example.com"
  = {| formError := Some "URL must start with http:// or https://";
       field := "ftp://example.com"; posts := [] |}.
Proof.
  split.
  - refine (proj1 (proj1 (https_prefix_on_scan_form_only
                            (nbsp +:+ "example.com ") _) _)).
    + vm_compute. discriminate.
    + split; reflexivity.
  - refine (proj1 (https_prefix_on_scan_form_only "ftp://example.com" _) _).
    + vm_compute. discriminate.
    + split; reflexivity.
Defined.

End FormsProofs.

(** ** The analyse handler *)

Module AnalyzeProofs.

Import Analyze.
Local Open Scope string_scope.

(** *** A small program logic for the effect monad *)

(** [m] keeps the state property [I]. *)
Definition preserves {A} (I : State -> Prop) (m : M State A) : Prop :=
  forall s, I s -> I (snd (m s)).

Lemma preserves_ret {A} I (a : A) : preserves I (mret a).
Proof. intros s Hs. exact Hs. Qed.

Lemma preserves_throw {A} I e : preserves I (throw (A := A) e).
Proof. intros s Hs. exact Hs. Qed.

Lemma preserves_bind {A B} I (m : M State A) (k : A -> M State B) :
  preserves I m -> (forall a, preserves I (k a)) -> preserves I (m ≫= k).
Proof.
  intros Hm Hk s Hs. specialize (Hm s Hs).
  unfold mbind, M_bind, bind. destruct (m s) as [[a | e] s'].
  - apply Hk, Hm.
  - exact Hm.
Qed.

Lemma preserves_try_catch {A} I (m : M State A) (h : Exn -> M State A) :
  preserves I m -> (forall e, preserves I (h e)) -> preserves I (try_catch m h).
Proof.
  intros Hm Hh s Hs. specialize (Hm s Hs).
  unfold try_catch. destruct (m s) as [[a | e] s'].
  - exact Hm.
  - apply Hh, Hm.
Qed.

(** The local variable [browser] is set exactly when a launch is on the
    trace; while it is null, no process exists and nothing was closed. *)
Definition tracked (s : State) : Prop :=
  (browser s = true <-> BrowserLaunch ∈ trace s) /\
  (browser s = false -> process s = NotStarted /\ BrowserClose ∉ trace s).

Lemma tracked_initial : tracked initial.
Proof.
  split; [split; [discriminate | intros H; inversion H] |].
  intros _. split; [reflexivity | intros H; inversion H].
Qed.

Definition quiet (e : Event) : Prop :=
  e <> BrowserLaunch /\ e <> BrowserClose.

Lemma preserves_emit e : quiet e -> preserves tracked (emit e).
Proof.
  intros [Hl Hc] s [Hb Hn]. unfold emit, modify, tracked. simpl.
  rewrite !elem_of_app, !list_elem_of_singleton. split.
  - rewrite Hb. split; [tauto |]. intros [H | H]; [exact H | congruence].
  - intros Hf. destruct (Hn Hf) as [Hp Hnc]. split; [exact Hp |].
    intros [H | H]; [contradiction | congruence].
Qed.

Lemma preserves_console_log t : preserves tracked (console_log t).
Proof. apply preserves_emit. split; discriminate. Qed.

Lemma preserves_console_error t : preserves tracked (console_error t).
Proof. apply preserves_emit. split; discriminate. Qed.

Lemma preserves_respond c b : preserves tracked (respond c b).
Proof.
  unfold respond. apply preserves_bind.
  - apply preserves_emit. split; discriminate.
  - intros _. apply preserves_ret.
Qed.

Create HintDb analyze.
#[local] Hint Resolve preserves_console_log preserves_console_error
  preserves_respond : analyze.
#[local] Hint Extern 2 (preserves _ (mret _)) => apply preserves_ret : analyze.
#[local] Hint Extern 2 (preserves _ (throw _)) => apply preserves_throw : analyze.
#[local] Hint Extern 3 (preserves _ (_ ≫= _)) =>
  apply preserves_bind; [| intros ?] : analyze.
#[local] Hint Extern 3 (preserves _ (try_catch _ _)) =>
  apply preserves_try_catch; [| intros ?] : analyze.

Section Run.
Variable isUrl : string -> bool.
Variable env : Env.

Lemma preserves_parse b : preserves tracked (analyzeSchema_parse isUrl b).
Proof.
  unfold analyzeSchema_parse.
  destruct (body_url b), (body_strategy b ≫= parseStrategy),
    (urlIssues isUrl b ++ strategyIssues b)%list; auto with analyze.
Qed.

Lemma preserves_launch : preserves tracked (puppeteer_launch env).
Proof.
  unfold puppeteer_launch. destruct (launch env); [auto with analyze |].
  intros s _. unfold modify, tracked. simpl. split.
  - split; [| reflexivity]. intros _. apply elem_of_app. right. left.
  - discriminate.
Qed.

(** Closing is guarded by the variable, so it cannot disturb a state in
    which nothing was launched. *)
Lemma preserves_guarded_close :
  preserves tracked
    (s ← get; if browser s then browser_close env else mret tt).
Proof.
  intros s Hs. unfold mbind, M_bind, bind, get. simpl.
  destruct (browser s) eqn:Hb; [| exact Hs].
  destruct Hs as [Hl _].
  unfold browser_close, mbind, M_bind, bind, emit, modify. simpl.
  destruct (close env); unfold tracked; simpl; rewrite Hb;
    (split; [| discriminate]);
    (split; [intros _ | reflexivity]);
    apply elem_of_app; left; apply Hl; exact Hb.
Qed.

Lemma preserves_run_lighthouse u port cfg :
  preserves tracked (run_lighthouse env u port cfg).
Proof.
  unfold run_lighthouse. apply preserves_bind.
  - apply preserves_emit. split; discriminate.
  - intros _. destruct (lighthouse env); auto with analyze.
Qed.

Lemma preserves_audit u st port : preserves tracked (audit env u st port).
Proof.
  unfold audit. apply preserves_try_catch.
  - apply preserves_bind; [apply preserves_run_lighthouse |].
    intros r. auto with analyze.
  - intros e. apply preserves_bind; [auto with analyze |].
    intros _. destruct (_ && _); auto with analyze.
Qed.

Lemma preserves_create d : preserves tracked (prisma_report_create env d).
Proof.
  unfold prisma_report_create. destruct (create env); [auto with analyze |].
  apply preserves_emit. split; discriminate.
Qed.

Lemma preserves_persist d l : preserves tracked (persist env d l).
Proof.
  unfold persist. destruct (userId env) as [uid |]; [| auto with analyze].
  destruct (JS.truthy uid); [| auto with analyze].
  apply preserves_try_catch.
  - apply preserves_bind; [apply preserves_create |].
    intros _. auto with analyze.
  - intros e. auto with analyze.
Qed.

Lemma preserves_try_block b : preserves tracked (try_block isUrl env b).
Proof.
  unfold try_block.
  apply preserves_bind; [apply preserves_parse |]. intros [u st].
  apply preserves_bind; [auto with analyze |]. intros _.
  apply preserves_bind; [apply preserves_launch |]. intros _.
  apply preserves_bind; [auto with analyze |]. intros _.
  destruct (negb (JS.truthy (puppeteerPortStr env))).
  - apply preserves_bind; [auto with analyze |]. intros _.
    apply preserves_bind; [apply preserves_guarded_close |]. intros _.
    auto with analyze.
  - apply preserves_bind; [auto with analyze |]. intros _.
    apply preserves_bind; [auto with analyze |]. intros _.
    apply preserves_bind; [apply preserves_audit |]. intros r.
    destruct (r ≫= lhr) as [l |].
    + apply preserves_bind; [apply preserves_persist |]. intros _.
      apply preserves_bind; auto with analyze.
    + apply preserves_bind; auto with analyze.
Qed.

Lemma preserves_catch_block b e :
  preserves tracked (catch_block env b e).
Proof.
  unfold catch_block. apply preserves_bind; [auto with analyze |].
  intros _. destruct e; auto with analyze.
Qed.

(** The catch block never throws. *)
Lemma catch_block_returns b e s :
  exists r, fst (catch_block env b e s) = Ret r.
Proof.
  unfold catch_block, mbind, M_bind, bind, console_error, emit, modify,
    respond. simpl.
  destruct e; simpl; eauto.
Qed.

(** The body of the handler, before [finally], always yields a
    response. *)
Lemma guarded_body_returns b s :
  exists r,
    fst (try_catch (try_block isUrl env b) (catch_block env b) s) = Ret r.
Proof.
  unfold try_catch.
  destruct (try_block isUrl env b s) as [[r | e] s'].
  - exists r. reflexivity.
  - apply catch_block_returns.
Qed.

(** A computation that returns a response only after sending it. *)
Definition answers (m : M State Response) : Prop :=
  forall s r s', m s = (Ret r, s') -> Send r ∈ trace s'.

Lemma answers_respond c b : answers (respond c b).
Proof.
  intros s r s'. unfold respond, mbind, M_bind, bind, emit, modify. simpl.
  intros [= <- <-]. simpl. apply elem_of_app. right. left.
Qed.

Lemma answers_throw e : answers (throw e).
Proof. intros s r s' H. discriminate H. Qed.

Lemma answers_bind {A} (m : M State A) (k : A -> M State Response) :
  (forall a, answers (k a)) -> answers (m ≫= k).
Proof.
  intros Hk s r s'. unfold mbind, M_bind, bind.
  destruct (m s) as [[a | e] s1]; [apply Hk | discriminate].
Qed.

Lemma answers_try_catch (m : M State Response) (h : Exn -> M State Response) :
  answers m -> (forall e, answers (h e)) -> answers (try_catch m h).
Proof.
  intros Hm Hh s r s'. unfold try_catch.
  destruct (m s) as [[a | e] s1] eqn:Hms.
  - intros [= <- <-]. exact (Hm _ _ _ Hms).
  - apply Hh.
Qed.

Lemma answers_try_block b : answers (try_block isUrl env b).
Proof.
  unfold try_block.
  apply answers_bind. intros [u st].
  apply answers_bind. intros _. apply answers_bind. intros _.
  apply answers_bind. intros _.
  destruct (negb (JS.truthy (puppeteerPortStr env))).
  - apply answers_bind. intros _. apply answers_bind. intros _.
    apply answers_respond.
  - apply answers_bind. intros _. apply answers_bind. intros _.
    apply answers_bind. intros r.
    destruct (r ≫= lhr) as [l |].
    + apply answers_bind. intros _. apply answers_bind. intros _.
      apply answers_respond.
    + apply answers_bind. intros _. apply answers_throw.
Qed.

Lemma answers_catch_block b e : answers (catch_block env b e).
Proof.
  unfold catch_block. apply answers_bind. intros _.
  destruct e; apply answers_respond.
Qed.

(** A launched browser is running until a [close] call succeeds. *)
Definition alive (s : State) : Prop :=
  browser s = true ->
  process s = Running \/ (process s = Closed /\ close env = None).

Lemma alive_emit e : preserves alive (emit e).
Proof. intros s Hs. exact Hs. Qed.

Lemma alive_respond c b : preserves alive (respond c b).
Proof.
  unfold respond. apply preserves_bind; [apply alive_emit |].
  intros _. apply preserves_ret.
Qed.

Lemma alive_parse b : preserves alive (analyzeSchema_parse isUrl b).
Proof.
  unfold analyzeSchema_parse.
  destruct (body_url b), (body_strategy b ≫= parseStrategy),
    (urlIssues isUrl b ++ strategyIssues b)%list;
    first [apply preserves_ret | apply preserves_throw].
Qed.

Lemma alive_launch : preserves alive (puppeteer_launch env).
Proof.
  unfold puppeteer_launch. destruct (launch env); [apply preserves_throw |].
  intros s _ _. left. reflexivity.
Qed.

Lemma alive_close : preserves alive (browser_close env).
Proof.
  intros s Hs. unfold browser_close, mbind, M_bind, bind, emit, modify.
  simpl. destruct (close env) eqn:Hc; simpl; [exact Hs |].
  intros _. right. split; [reflexivity | exact Hc].
Qed.

Lemma alive_guarded_close :
  preserves alive (s ← get; if browser s then browser_close env else mret tt).
Proof.
  intros s Hs. unfold mbind, M_bind, bind, get. simpl.
  destruct (browser s); [apply alive_close, Hs | exact Hs].
Qed.

Lemma alive_audit u st port : preserves alive (audit env u st port).
Proof.
  unfold audit, run_lighthouse. apply preserves_try_catch.
  - apply preserves_bind.
    + apply preserves_bind; [apply alive_emit |]. intros _.
      destruct (lighthouse env);
        first [apply preserves_ret | apply preserves_throw].
    + intros r. apply preserves_bind; [apply alive_emit |]. intros _.
      apply preserves_ret.
  - intros e. apply preserves_bind; [apply alive_emit |]. intros _.
    destruct (_ && _); apply preserves_throw.
Qed.

Lemma alive_persist d l : preserves alive (persist env d l).
Proof.
  unfold persist, prisma_report_create.
  destruct (userId env) as [uid |]; [| apply preserves_ret].
  destruct (JS.truthy uid); [| apply preserves_ret].
  apply preserves_try_catch.
  - apply preserves_bind.
    + destruct (create env); [apply preserves_throw | apply alive_emit].
    + intros _. apply alive_emit.
  - intros e. apply alive_emit.
Qed.

Lemma alive_try_block b : preserves alive (try_block isUrl env b).
Proof.
  unfold try_block.
  apply preserves_bind; [apply alive_parse |]. intros [u st].
  apply preserves_bind; [apply alive_emit |]. intros _.
  apply preserves_bind; [apply alive_launch |]. intros _.
  apply preserves_bind; [apply alive_emit |]. intros _.
  destruct (negb (JS.truthy (puppeteerPortStr env))).
  - apply preserves_bind; [apply alive_emit |]. intros _.
    apply preserves_bind; [apply alive_guarded_close |]. intros _.
    apply alive_respond.
  - apply preserves_bind; [apply alive_emit |]. intros _.
    apply preserves_bind; [apply alive_emit |]. intros _.
    apply preserves_bind; [apply alive_audit |]. intros r.
    destruct (r ≫= lhr) as [l |].
    + apply preserves_bind; [apply alive_persist |]. intros _.
      apply preserves_bind; [apply alive_emit | intros _; apply alive_respond].
    + apply preserves_bind; [apply alive_emit | intros _; apply preserves_throw].
Qed.

Lemma alive_catch_block b e : preserves alive (catch_block env b e).
Proof.
  unfold catch_block. apply preserves_bind; [apply alive_emit |].
  intros _. destruct e; apply alive_respond.
Qed.

(** With the variable set, [finally] logs, calls [close], and logs the
    result; a failing [close] is caught. *)
Lemma finally_block_closes b s :
  browser s = true ->
  exists m last,
    finally_block env b s
    = (Ret tt,
       {| browser := true;
          process := match close env with
                     | None => Closed
                     | Some _ => process s
                     end;
          trace := (trace s ++ [ConsoleLog m; BrowserClose;
                                match close env with
                                | None => ConsoleLog last
                                | Some _ => ConsoleError last
                                end])%list |}).
Proof.
  intros Hb.
  unfold finally_block, mbind, M_bind, bind, get, try_catch, console_log,
    console_error, browser_close, emit, modify, mbind, M_bind, bind.
  simpl. rewrite Hb.
  destruct (close env) as [e |]; simpl; rewrite <- !app_assoc; simpl;
    rewrite ?Hb; eexists; eexists; reflexivity.
Qed.

Lemma finally_block_idle b s :
  browser s = false -> finally_block env b s = (Ret tt, s).
Proof.
  intros Hb. unfold finally_block, mbind, M_bind, bind, get. simpl.
  rewrite Hb. reflexivity.
Qed.

(** C8, amended.  Whenever a browser was launched during the request,
    the handler returns a response, and before it returns it calls
    [close] on that browser, on every path (success, engine failure,
    unexpected error, missing port).  That call comes after the response
    has been sent and is followed by one log line only.  The process is
    closed at completion when [close] does not fail; when [close] throws,
    the error is logged and the process is still running.  When no
    browser was launched there is nothing to close and nothing is closed;
    the handler then returns a response as well, unless the session lookup
    or a null body made it throw before doing anything. *)
Theorem browser_closed_on_every_path (req : Request) :
  let out := fst (serve isUrl env req) in
  let s := snd (serve isUrl env req) in
  (BrowserLaunch ∈ trace s ->
     exists r before line,
       out = Ret r /\
       trace s = (before ++ [BrowserClose; line])%list /\
       BrowserLaunch ∈ before /\ Send r ∈ before /\
       (exists t, line = ConsoleLog t \/ line = ConsoleError t) /\
       process s = match close env with
                   | None => Closed
                   | Some _ => Running
                   end) /\
  (BrowserLaunch ∉ trace s ->
     process s = NotStarted /\ (BrowserClose ∉ trace s) /\
     ((exists r, out = Ret r) \/ (exists e, out = Throw e /\ trace s = []))).
Proof.
  unfold serve, handler.
  destruct (negb (String.eqb (method req) "POST")).
  { simpl. split.
    - intros Hin. apply list_elem_of_singleton in Hin. discriminate.
    - intros _. split; [reflexivity |].
      split; [| left; eauto].
      intros Hin. apply list_elem_of_singleton in Hin. discriminate. }
  unfold mbind, M_bind, bind, getServerSession.
  destruct (session env) as [e | found].
  { simpl. split; [intros Hin; inversion Hin |].
    intros _. split; [reflexivity |].
    split; [intros Hin; inversion Hin | right; eauto]. }
  simpl. destruct (body req) as [b |].
  2: { simpl. split; [intros Hin; inversion Hin |].
       intros _. split; [reflexivity |].
       split; [intros Hin; inversion Hin | right; eauto]. }
  unfold try_finally.
  pose proof (preserves_try_catch tracked _ _ (preserves_try_block b)
                (preserves_catch_block b) initial tracked_initial)
    as Htracked.
  pose proof (preserves_try_catch alive _ _ (alive_try_block b)
                (alive_catch_block b) initial ltac:(discriminate))
    as Halive.
  pose proof (answers_try_catch _ _ (answers_try_block b)
                (answers_catch_block b) initial) as Hsent.
  destruct (guarded_body_returns b initial) as (r & Hret).
  destruct (try_catch (try_block isUrl env b) (catch_block env b) initial)
    as [o s1].
  simpl in Htracked, Halive, Hret. subst o.
  specialize (Hsent r s1 eq_refl).
  destruct Htracked as [Hvar Hidle].
  destruct (browser s1) eqn:Hb.
  - destruct (finally_block_closes b s1 Hb) as (m & last & ->).
    simpl.
    assert (BrowserLaunch ∈ trace s1) as Hlaunched by (apply Hvar; reflexivity).
    split.
    + intros _. exists r, (trace s1 ++ [ConsoleLog m])%list. eexists.
      split; [reflexivity |].
      split; [rewrite <- app_assoc; reflexivity |].
      split; [apply elem_of_app; left; exact Hlaunched |].
      split; [apply elem_of_app; left; exact Hsent |].
      split; [destruct (close env); eauto |].
      destruct (close env) eqn:Hc; [| reflexivity].
      destruct (Halive Hb) as [Hrun | [_ Hnone]]; [exact Hrun | congruence].
    + intros Hnot. exfalso. apply Hnot. apply elem_of_app. left.
      exact Hlaunched.
  - rewrite (finally_block_idle b s1 Hb). simpl. split.
    + intros Hin. apply Hvar in Hin. discriminate.
    + intros _. destruct (Hidle eq_refl) as [Hp Hc].
      split; [exact Hp |]. split; [exact Hc | left; eauto].
Qed.

End Run.

Definition acceptAll : string -> bool := JS.startsWith "http".

Definition signedIn (i : string) : Exn + option Session :=
  inr (Some {| user := Some {| user_id := Some i |} |}).

Definition anonymous : Exn + option Session := inr None.

Definition mobileRequest : Request :=
  {| method := "POST";
     body := Some {| body_url := Some "https://example.com";
                     body_strategy := Some "mobile" |} |}.

(** An engine that crashes after the browser came up. *)
Definition engineCrash : Env :=
  {| session := anonymous; launch := None; puppeteerPortStr := "9222";
     lighthouse := inl (Error "Protocol error (Target closed)" "");
     create := None; close := None; development := false;
     newStack := "" |}.

(** A successful audit with a browser whose [close] throws. *)
Definition closeFails : Env :=
  {| session := anonymous; launch := None; puppeteerPortStr := "9222";
     lighthouse := inr (Some {| lhr := Some ScoreProofs.sampleLHR |});
     create := None; close := Some (Error "Target closed" "");
     development := false; newStack := "" |}.

(** C8, as stated, fails.  The audit succeeds and the answer is 200, but
    [close] throws: the browser launched for the request is still running
    when the handler has completed.  The response had been sent before
    [close] was called. *)
Lemma browser_closed_counterexample :
  let out := fst (serve acceptAll closeFails mobileRequest) in
  let s := snd (serve acceptAll closeFails mobileRequest) in
  BrowserLaunch ∈ trace s /\
  (exists r, out = Ret r /\ status r = 200) /\
  process s = Running /\
  exists d before,
    trace s = (before ++ [Send {| status := 200; json := Data d |};
                          ConsoleLog "[API /analyze] Finally block: Closing browser for URL https://example.com (Strategy: mobile).";
                          BrowserClose;
                          ConsoleError "[API /analyze] Finally block: Error closing browser for URL https://example.com (Strategy: mobile): Target closed"])%list.
Proof.
  cbv zeta.
  split; [set (t := trace _); vm_compute in t; subst t;
          rewrite !elem_of_cons; tauto |].
  split; [eexists; split; [vm_compute; reflexivity | reflexivity] |].
  split; [vm_compute; reflexivity |].
  refine (ex_intro _ _ (ex_intro _ [_; _; _; _; _; _; _; _] _)).
  vm_compute. reflexivity.
Qed.

(** After an engine crash the answer is 500, and the browser launched for
    the request has been closed. *)
Lemma browser_closed_on_every_path_witness :
  BrowserLaunch ∈ trace (snd (serve acceptAll engineCrash mobileRequest)) /\
  process (snd (serve acceptAll engineCrash mobileRequest)) = Closed /\
  exists r, fst (serve acceptAll engineCrash mobileRequest) = Ret r /\
            status r = 500.
Proof.
  assert (BrowserLaunch
            ∈ trace (snd (serve acceptAll engineCrash mobileRequest))) as Hin.
  { set (t := trace _). vm_compute in t. subst t.
    rewrite !elem_of_cons. tauto. }
  split; [exact Hin |].
  destruct (proj1 (browser_closed_on_every_path acceptAll engineCrash
                     mobileRequest) Hin)
    as (r & before & line & Hr & _ & _ & _ & _ & Hclosed).
  split; [exact Hclosed |].
  exists r. split; [exact Hr |].
  vm_compute in Hr. inversion Hr. reflexivity.
Defined.

(** *** Persistence failures *)

Section Persistence.
Variable isUrl : string -> bool.
Variable env : Env.

(** C6.  For a signed-in user whose audit succeeds (browser launched,
    port found, engine returns a report), a failing database insert does
    not change the answer: the handler returns 200 with the full report
    payload (the URL, the strategy, the five rounded category scores, and
    the categories, audits, timing, final URL, engine version and fetch
    time of the report), which is the only response sent; the database
    error is written to the error log, and no row is stored. *)
Theorem persistence_failure_swallowed
  (req : Request) (u : string) (st : Strategy) (l : LHR)
  (uid : string) (dbError : Exn) :
  method req = "POST" ->
  body req = Some {| body_url := Some u;
                     body_strategy := Some (strategy_name st) |} ->
  isUrl u = true ->
  launch env = None ->
  JS.truthy (puppeteerPortStr env) = true ->
  lighthouse env = inr (Some {| lhr := Some l |}) ->
  userId env = Some uid ->
  JS.truthy uid = true ->
  create env = Some dbError ->
  let percent k := roundScore (categories l !! k ≫= cat_score) in
  let payload :=
    {| url := u;
       strategy := strategy_name st;
       performanceScore := percent "performance";
       accessibilityScore := percent "accessibility";
       bestPracticesScore := percent "best-practices";
       seoScore := percent "seo";
       pwaScore := percent "pwa";
       fullLighthouseDetails :=
         Some {| fld_categories := categories l;
                 fld_audits := audits l;
                 fld_timing := timing l;
                 fld_finalUrl := finalUrl l;
                 fld_lighthouseVersion := lighthouseVersion l;
                 fld_fetchTime := fetchTime l |} |} in
  let ok := {| status := 200; json := Data payload |} in
  let s := snd (serve isUrl env req) in
  fst (serve isUrl env req) = Ret ok /\
  (forall r, Send r ∈ trace s <-> r = ok) /\
  ConsoleError
    ("[API /analyze] Error saving Lighthouse report to DB for URL "
       +:+ tag u (strategy_name st) +:+ ": " +:+ exn_message dbError)
    ∈ trace s /\
  (forall d, ReportCreate d ∉ trace s).
Proof.
  intros Hm Hb Hv Hl Hp Hlh Hid Hty Hc percent payload ok s.
  assert (parseStrategy (strategy_name st) = Some st) as Hst
    by (destruct st; reflexivity).
  assert (exists found, session env = inr found) as (found & Hsess).
  { unfold userId in Hid. destruct (session env); [discriminate | eauto]. }
  unfold s, serve, handler, getServerSession, try_finally, try_catch,
    try_block, analyzeSchema_parse, urlIssues, strategyIssues,
    puppeteer_launch, audit, run_lighthouse, persist, prisma_report_create,
    finally_block, browser_close.
  rewrite Hm, Hb, Hsess. simpl. rewrite Hv, Hst. simpl.
  unfold try_catch, bind, mbind, M_bind, bind, modify, get. simpl.
  rewrite Hl, Hp. simpl. rewrite Hlh. simpl. rewrite Hid, Hty, Hc. simpl.
  destruct (close env) as [closeError |];
    unfold console_log, console_error, emit, modify, throw; simpl;
    (split; [reflexivity |]); (split; [| split]).
  all: try (intros r; rewrite !elem_of_cons, elem_of_nil; split;
            [ intros H;
              repeat (destruct H as [H | H];
                      [try discriminate; try (inversion H; reflexivity) |]);
              contradiction
            | intros ->; tauto ]).
  all: try (rewrite !elem_of_cons; tauto).
  all: intros d; rewrite !elem_of_cons, elem_of_nil; intros H;
    repeat (destruct H as [H | H]; [discriminate |]); contradiction.
Qed.

End Persistence.

(** A signed-in user, a successful audit, and a database that is down. *)
Definition dbDown : Env :=
  {| session := signedIn "u1"; launch := None; puppeteerPortStr := "9222";
     lighthouse := inr (Some {| lhr := Some ScoreProofs.sampleLHR |});
     create := Some (Error "Can't reach database server" "");
     close := None; development := false; newStack := "" |}.

(** With the database down the user still gets 200 and the report: the
    performance score 95 and the details of the audit. *)
Lemma persistence_failure_swallowed_witness :
  exists d details,
    fst (serve acceptAll dbDown mobileRequest)
    = Ret {| status := 200; json := Data d |} /\
    performanceScore d = Some 95 /\
    fullLighthouseDetails d = Some details /\
    fld_categories details = categories ScoreProofs.sampleLHR.
Proof.
  eexists. eexists.
  split; [exact (proj1 (persistence_failure_swallowed
                          acceptAll dbDown mobileRequest "https://example.com"
                          mobile ScoreProofs.sampleLHR "u1"
                          (Error "Can't reach database server" "")
                          eq_refl eq_refl eq_refl eq_refl eq_refl
                          eq_refl eq_refl eq_refl eq_refl)) |].
  split; [vm_compute; reflexivity |]. split; reflexivity.
Defined.

End AnalyzeProofs.

(** * Further properties *)

(** ** The analyse handler, path by path *)

Module AnalyzeMore.

Import Analyze AnalyzeProofs.
Local Open Scope string_scope.

(** The responses sent during a request, in order. *)
Definition sent (s : State) : list Response :=
  omap (fun e => match e with Send r => Some r | _ => None end) (trace s).

(** The rows handed to the database during a request, in order. *)
Definition created (s : State) : list ReportData :=
  omap (fun e => match e with ReportCreate d => Some d | _ => None end)
       (trace s).

(** Events that only write to the console or send the response. *)
Definition harmless (e : Event) : bool :=
  match e with
  | ConsoleLog _ | ConsoleError _ | Send _ => true
  | _ => false
  end.

Lemma parseStrategy_name st : parseStrategy (strategy_name st) = Some st.
Proof. destruct st; reflexivity. Qed.

Lemma parseStrategy_Some s st : parseStrategy s = Some st -> s = strategy_name st.
Proof.
  unfold parseStrategy.
  destruct (String.eqb s "desktop") eqn:Hd;
    [apply String.eqb_eq in Hd; intros [= <-]; exact Hd |].
  destruct (String.eqb s "mobile") eqn:Hm; [| discriminate].
  apply String.eqb_eq in Hm. intros [= <-]. exact Hm.
Qed.

(** Symbolic execution: unfold the handler and branch on every test whose
    outcome the collaborators decide. *)
Ltac unfold_handler :=
  unfold serve, handler, getServerSession, destructuringError, try_finally,
    try_catch, try_block, catch_block, finally_block, analyzeSchema_parse,
    urlIssues, strategyIssues, puppeteer_launch, browser_close, audit,
    run_lighthouse, persist, prisma_report_create, userId, respond,
    console_log, console_error, emit, modify, get, throw, mbind, M_bind,
    bind, mret, M_ret, ret, try_catch.

Ltac split_path :=
  match goal with
  | |- context [match ?x with _ => _ end] =>
      lazymatch x with
      | context [match _ with _ => _ end] => fail
      | context [if _ then _ else _] => fail
      | _ => lazymatch type of x with
             | string => fail
             | _ => destruct x eqn:?
             end
      end
  | |- context [if ?b then _ else _] =>
      lazymatch b with
      | context [match _ with _ => _ end] => fail
      | context [if _ then _ else _] => fail
      | _ => destruct b eqn:?
      end
  end.

Ltac step_path :=
  cbn -[String.append JS.includes JS.truthy String.eqb parseStrategy
        String.concat exn_message errorMessage responseData reportData
        lighthouseConfig orUnknown tag strategy_name].

Ltac all_paths req env :=
  destruct req as [?m [[?bu ?bs] |]];
  destruct env as [[?lookupError | ?sess] ?la ?port ?lh ?cr ?cl ?dev ?ns];
  unfold_handler;
  repeat (step_path; try split_path).

Lemma not_POST m : negb (String.eqb m "POST") = true -> m <> "POST".
Proof. intros H ->. discriminate H. Qed.

Lemma is_POST m : negb (String.eqb m "POST") = false -> m = "POST".
Proof. intros H. apply negb_false_iff in H. apply String.eqb_eq. exact H. Qed.

(** X1.  A request is answered exactly once, by the response the handler
    returns, with status 200, 400, 405 or 500, unless it is a POST for
    which the session lookup throws or whose body is null: then the handler
    throws (the lookup's error, or the error of destructuring the body)
    before anything is logged or sent. *)
Theorem answered_exactly_once (isUrl : string -> bool) (env : Env)
        (req : Request) :
  match fst (serve isUrl env req) with
  | Ret r =>
      sent (snd (serve isUrl env req)) = [r] /\
      status r ∈ [200; 400; 405; 500] /\
      (method req <> "POST" \/
       exists found b, session env = inr found /\ body req = Some b)
  | Throw e =>
      trace (snd (serve isUrl env req)) = [] /\
      method req = "POST" /\
      (session env = inl e \/
       (exists found, session env = inr found) /\ body req = None /\
       e = destructuringError env)
  end.
Proof.
  unfold sent. all_paths req env.
  all: cbn [method body session];
    repeat match goal with
      | H : negb (String.eqb _ "POST") = true |- _ => apply not_POST in H
      | H : negb (String.eqb _ "POST") = false |- _ => apply is_POST in H
      end.
  all: try (split; [reflexivity |]; split; [assumption |];
            first [ left; reflexivity
                  | right; split; [eauto |]; split; reflexivity ]).
  all: split; [reflexivity |];
    (split; [rewrite !elem_of_cons; tauto |]);
    first [ left; assumption | right; eauto ].
Qed.

(** The handler leaves a null body to the caller as a thrown error. *)
Lemma answered_exactly_once_witness :
  fst (serve acceptAll engineCrash {| method := "POST"; body := None |})
  = Throw (destructuringError engineCrash) /\
  trace (snd (serve acceptAll engineCrash {| method := "POST"; body := None |}))
  = [].
Proof.
  pose proof (answered_exactly_once
                acceptAll engineCrash {| method := "POST"; body := None |})
    as H.
  destruct (fst (serve acceptAll engineCrash
                       {| method := "POST"; body := None |})) as [r | e] eqn:E.
  - vm_compute in E. discriminate E.
  - destruct H as (Ht & _ & [Hs | (_ & _ & ->)]);
      [discriminate Hs | split; [reflexivity | exact Ht]].
Defined.

(** X2.  The answer is 200 exactly when the request is a POST with a body
    whose URL the validator accepts and whose strategy is [desktop] or
    [mobile], the session lookup returns, the browser starts and reports a
    port, and the engine returns a result with a report: under these
    conditions the handler returns 200 with the response data of that
    report, and a returned 200 implies all of them.  Who is signed in, the
    database and the closing of the browser have no say. *)
Theorem success_exactly_when (isUrl : string -> bool) (env : Env)
        (req : Request) :
  (forall found u st l,
      method req = "POST" ->
      session env = inr found ->
      body req = Some {| body_url := Some u;
                         body_strategy := Some (strategy_name st) |} ->
      isUrl u = true ->
      launch env = None ->
      JS.truthy (puppeteerPortStr env) = true ->
      lighthouse env = inr (Some {| lhr := Some l |}) ->
      fst (serve isUrl env req)
      = Ret {| status := 200;
               json := Data (responseData u (strategy_name st) l) |}) /\
  (forall r,
      fst (serve isUrl env req) = Ret r ->
      status r = 200 ->
      exists found u st l,
        method req = "POST" /\
        session env = inr found /\
        body req = Some {| body_url := Some u;
                           body_strategy := Some (strategy_name st) |} /\
        isUrl u = true /\
        launch env = None /\
        JS.truthy (puppeteerPortStr env) = true /\
        lighthouse env = inr (Some {| lhr := Some l |}) /\
        r = {| status := 200;
               json := Data (responseData u (strategy_name st) l) |}).
Proof.
  split.
  - intros found u st l Hm Hsess Hb Hv Hl Hp Hlh.
    pose proof (parseStrategy_name st) as Hst.
    destruct req as [meth bo], env as [sess la port lh cr cl dev ns].
    cbn [method body session launch puppeteerPortStr lighthouse] in *.
    subst. unfold_handler.
    cbn -[String.append JS.includes JS.truthy parseStrategy String.concat
          errorMessage responseData reportData lighthouseConfig orUnknown tag
          strategy_name].
    rewrite Hv, Hst.
    cbn -[String.append JS.includes JS.truthy parseStrategy String.concat
          errorMessage responseData reportData lighthouseConfig orUnknown tag
          strategy_name].
    rewrite Hp.
    cbn -[String.append JS.includes JS.truthy parseStrategy String.concat
          errorMessage responseData reportData lighthouseConfig orUnknown tag
          strategy_name].
    repeat (try split_path; step_path); reflexivity.
  - all_paths req env.
    all: intros r [= <-] Hst; cbn [status] in Hst; try discriminate Hst.
    all: cbn [method body session launch puppeteerPortStr lighthouse].
    all: repeat match goal with
           | H : negb (String.eqb _ "POST") = false |- _ => apply is_POST in H
           | H : negb (JS.truthy _) = false |- _ => apply negb_false_iff in H
           | H : option_bind _ _ parseStrategy (Some _) = Some _ |- _ =>
               cbn in H; apply parseStrategy_Some in H
           | H : option_bind _ _ lhr ?o = Some _ |- _ =>
               destruct o as [[?] |]; cbn in H; [| discriminate H]
           end.
    all: subst; eexists _, _, _, _; repeat split; try eassumption; reflexivity.
Qed.

(** The sample request, signed in, database down: 200 with the report. *)
Lemma success_exactly_when_witness :
  fst (serve acceptAll dbDown mobileRequest)
  = Ret {| status := 200;
           json := Data (responseData "https://example.com" "mobile"
                                      ScoreProofs.sampleLHR) |}.
Proof.
  exact (proj1 (success_exactly_when acceptAll dbDown mobileRequest)
           (Some {| user := Some {| user_id := Some "u1" |} |})
           "https://example.com" mobile ScoreProofs.sampleLHR
           eq_refl eq_refl eq_refl eq_refl eq_refl eq_refl eq_refl).
Defined.

(** X3.  A POST with a body that fails the schema, once the session lookup
    has returned, is answered 400 with the messages of the issues; apart
    from one error line on the console nothing happens: no browser, no
    engine run, no database write. *)
Theorem invalid_body_rejected (isUrl : string -> bool) (env : Env)
        (req : Request) (found : option Session) (b : RequestBody) :
  method req = "POST" ->
  session env = inr found ->
  body req = Some b ->
  (forall u st,
      body_url b = Some u -> isUrl u = true ->
      body_strategy b = Some (strategy_name st) -> False) ->
  exists issues line,
    issues <> [] /\
    let r := {| status := 400;
                json := Invalid ("Validation failed: "
                                   +:+ String.concat ", " issues) issues |} in
    fst (serve isUrl env req) = Ret r /\
    trace (snd (serve isUrl env req)) = [ConsoleError line; Send r].
Proof.
  intros Hm Hsess Hb Hinv. all_paths req env.
  all: cbn [method body session] in Hm, Hsess, Hb.
  all: try discriminate Hsess; try discriminate Hb.
  all: injection Hb as <-; cbn [body_url body_strategy] in Hinv.
  all: try (subst; discriminate).
  all: try (eexists _, _; split; [| split; reflexivity]; discriminate).
  all: exfalso;
    repeat match goal with
      | H : option_bind _ _ parseStrategy (Some _) = _ |- _ => cbn in H
      end;
    try congruence;
    repeat match goal with
      | H : parseStrategy _ = Some _ |- _ => apply parseStrategy_Some in H
      end;
    subst.
  all: eapply Hinv; eauto.
Qed.

Lemma invalid_body_rejected_witness :
  exists issues line,
    issues <> [] /\
    fst (serve acceptAll engineCrash
               {| method := "POST";
                  body := Some {| body_url := Some "example.com";
                                  body_strategy := Some "mobile" |} |})
    = Ret {| status := 400;
             json := Invalid ("Validation failed: "
                                +:+ String.concat ", " issues) issues |} /\
    trace (snd (serve acceptAll engineCrash
                      {| method := "POST";
                         body := Some {| body_url := Some "example.com";
                                         body_strategy := Some "mobile" |} |}))
    = [ConsoleError line;
       Send {| status := 400;
               json := Invalid ("Validation failed: "
                                  +:+ String.concat ", " issues) issues |}].
Proof.
  apply (invalid_body_rejected acceptAll engineCrash
           {| method := "POST";
              body := Some {| body_url := Some "example.com";
                              body_strategy := Some "mobile" |} |}
           None
           {| body_url := Some "example.com";
              body_strategy := Some "mobile" |}).
  - reflexivity.
  - reflexivity.
  - reflexivity.
  - intros u st [= <-] Hurl _. discriminate Hurl.
Defined.

(** X4.  At most one row is written per request, and only for a signed-in
    user whose audit succeeded: the row carries that user's id and the
    scores of the 200 answer.  Conversely a 200 answer for a signed-in user
    with a working database comes with exactly one row. *)
Theorem rows_only_for_signed_in_success (isUrl : string -> bool) (env : Env)
        (req : Request) :
  (created (snd (serve isUrl env req)) = [] \/
   exists uid u sname l,
     userId env = Some uid /\ JS.truthy uid = true /\ create env = None /\
     fst (serve isUrl env req)
     = Ret {| status := 200; json := Data (responseData u sname l) |} /\
     created (snd (serve isUrl env req))
     = [reportData (responseData u sname l) l uid]) /\
  (forall r uid,
      fst (serve isUrl env req) = Ret r -> status r = 200 ->
      userId env = Some uid -> JS.truthy uid = true -> create env = None ->
      exists d, created (snd (serve isUrl env req)) = [d] /\ rd_userId d = uid).
Proof.
  unfold created. all_paths req env.
  all: split;
    [ first [ left; reflexivity
            | right; eexists _, _, _, _;
              repeat split; try eassumption; reflexivity ]
    | intros r uid [= <-] Hst Hid Hty Hcr; cbn [status] in Hst;
      try discriminate Hst; try discriminate Hcr; try discriminate Hid ].
  all: try (cbn in Hid; injection Hid as ->; congruence).
  all: eexists; split; [reflexivity |]; cbn in Hid |- *; congruence.
Qed.

(** X5.  Outside development mode no answer carries a stack trace. *)
Theorem no_stack_in_production (isUrl : string -> bool) (env : Env)
        (req : Request) (r : Response) :
  development env = false ->
  r ∈ sent (snd (serve isUrl env req)) ->
  match json r with
  | Message _ _ stack => stack = None
  | _ => True
  end.
Proof.
  intros Hdev. unfold sent. all_paths req env.
  all: cbn [development] in Hdev; try discriminate Hdev.
  all: intros Hin; try (apply elem_of_nil in Hin; contradiction).
  all: apply list_elem_of_singleton in Hin; subst r;
    cbn [json] in *; try done.
  all: congruence.
Qed.

Lemma no_stack_in_production_witness :
  match json {| status := 500;
                json := Message "Error during Lighthouse analysis for mobile."
                          (Some "Browser tab crashed/closed for URL: https://example.com.")
                          None |} with
  | Message _ _ stack => stack = None
  | _ => True
  end.
Proof.
  apply (no_stack_in_production acceptAll engineCrash mobileRequest).
  - reflexivity.
  - set (l := sent _). vm_compute in l. subst l. left.
Defined.

(** *** How failures are worded *)

Lemma includes_suffix needle p s :
  JS.includes needle s = true -> JS.includes needle (p +:+ s) = true.
Proof.
  intros H. induction p as [| c p IH]; [exact H |].
  change (String.prefix needle (String c (p +:+ s))
          || JS.includes needle (p +:+ s) = true).
  rewrite IH. apply orb_true_r.
Qed.

Lemma includes_truthy needle s :
  JS.truthy needle = true -> JS.includes needle s = true -> JS.truthy s = true.
Proof.
  destruct s; [| reflexivity]. destruct needle; [discriminate |].
  intros _ H. discriminate H.
Qed.

Lemma errorMessage_connection R_URL R_STRATEGY m :
  JS.includes "ERR_NAME_NOT_RESOLVED" m = true \/
  JS.includes "ECONNREFUSED" m = true ->
  errorMessage R_URL R_STRATEGY m
  = "Could not resolve/connect to URL: " +:+ R_URL
      +:+ ". Check URL & site status.".
Proof.
  intros H. unfold errorMessage.
  assert (JS.truthy m = true) as ->
      by (destruct H as [H | H]; eapply includes_truthy, H; reflexivity).
  destruct H as [-> | ->]; [reflexivity | rewrite orb_true_r; reflexivity].
Qed.

(** One path at a time: as [step_path], but comparing literal strings and
    reading the message of a known error. *)
Ltac step_here :=
  cbn -[String.append JS.includes JS.truthy parseStrategy String.concat
        errorMessage responseData reportData lighthouseConfig orUnknown tag
        strategy_name].

(** X6.  When the engine fails with a message that names a DNS or
    connection failure, the 500 answer says that the URL could not be
    resolved or reached, also when the handler has re-wrapped the engine's
    error as an early failure. *)
Theorem connection_failure_reported (isUrl : string -> bool) (env : Env)
        (req : Request) (found : option Session) (u : string) (st : Strategy)
        (m stk : string) :
  method req = "POST" ->
  session env = inr found ->
  body req = Some {| body_url := Some u;
                     body_strategy := Some (strategy_name st) |} ->
  isUrl u = true ->
  launch env = None ->
  JS.truthy (puppeteerPortStr env) = true ->
  lighthouse env = inl (Error m stk) ->
  JS.includes "ERR_NAME_NOT_RESOLVED" m = true \/
  JS.includes "ECONNREFUSED" m = true ->
  exists stack,
    fst (serve isUrl env req)
    = Ret {| status := 500;
             json := Message
                       ("Error during Lighthouse analysis for "
                          +:+ strategy_name st +:+ ".")
                       (Some ("Could not resolve/connect to URL: " +:+ u
                                +:+ ". Check URL & site status."))
                       stack |}.
Proof.
  intros Hm Hsess Hb Hv Hl Hp Hlh Hmark.
  pose proof (parseStrategy_name st) as Hst.
  destruct req as [meth bo], env as [sess la port lh cr cl dev ns].
  cbn [method body session launch puppeteerPortStr lighthouse] in *. subst.
  unfold_handler. step_here. rewrite Hv, Hst. step_here. rewrite Hp.
  step_here.
  destruct (JS.truthy m && JS.includes "performance mark has not been set" m);
    step_here.
  - rewrite errorMessage_connection
      by (destruct Hmark as [H | H]; [left | right];
          repeat apply includes_suffix; exact H).
    destruct cl, dev; step_here; eauto.
  - rewrite errorMessage_connection by exact Hmark.
    destruct cl, dev; step_here; eauto.
Qed.

(** An engine that cannot resolve the host. *)
Definition dnsFailure : Env :=
  {| session := anonymous; launch := None; puppeteerPortStr := "9222";
     lighthouse := inl (Error "net::ERR_NAME_NOT_RESOLVED at https://example.com" "");
     create := None; close := None; development := false; newStack := "" |}.

Lemma connection_failure_reported_witness :
  exists stack,
    fst (serve acceptAll dnsFailure mobileRequest)
    = Ret {| status := 500;
             json := Message "Error during Lighthouse analysis for mobile."
                       (Some "Could not resolve/connect to URL: https://example.com. Check URL & site status.")
                       stack |}.
Proof.
  apply (connection_failure_reported
           acceptAll dnsFailure mobileRequest None "https://example.com" mobile
           "net::ERR_NAME_NOT_RESOLVED at https://example.com" "");
    try reflexivity.
  left. reflexivity.
Defined.

(** X7.  When the engine returns nothing, or a result without a report, the
    answer is 500 with the details "Lighthouse analysis failed to produce
    a report.", nothing is stored, and the browser has been asked to
    close. *)
Theorem engine_without_report (isUrl : string -> bool) (env : Env)
        (req : Request) (found : option Session) (u : string) (st : Strategy)
        (rr : option RunnerResult) :
  method req = "POST" ->
  session env = inr found ->
  body req = Some {| body_url := Some u;
                     body_strategy := Some (strategy_name st) |} ->
  isUrl u = true ->
  launch env = None ->
  JS.truthy (puppeteerPortStr env) = true ->
  lighthouse env = inr rr ->
  rr ≫= lhr = None ->
  fst (serve isUrl env req)
  = Ret {| status := 500;
           json := Message
                     ("Error during Lighthouse analysis for "
                        +:+ strategy_name st +:+ ".")
                     (Some "Lighthouse analysis failed to produce a report.")
                     (if development env then Some (newStack env) else None) |}
  /\ created (snd (serve isUrl env req)) = []
  /\ BrowserClose ∈ trace (snd (serve isUrl env req)).
Proof.
  intros Hm Hsess Hb Hv Hl Hp Hlh Hrr.
  pose proof (parseStrategy_name st) as Hst.
  destruct req as [meth bo], env as [sess la port lh cr cl dev ns].
  cbn [method body session launch puppeteerPortStr lighthouse
         development newStack] in *. subst.
  unfold created. unfold_handler. step_here. rewrite Hv, Hst. step_here.
  rewrite Hp. step_here.
  change (option_bind RunnerResult LHR lhr rr) with (rr ≫= lhr).
  rewrite Hrr. step_here.
  change (errorMessage u (strategy_name st)
            "Lighthouse analysis failed to produce a report.")
    with "Lighthouse analysis failed to produce a report.".
  destruct cl, dev; step_here;
    (split; [reflexivity |]; split; [reflexivity |]);
    rewrite !elem_of_cons; tauto.
Qed.

(** An engine that comes back empty-handed. *)
Definition emptyHanded : Env :=
  {| session := signedIn "u1"; launch := None; puppeteerPortStr := "9222";
     lighthouse := inr None;
     create := None; close := None; development := false; newStack := "" |}.

Lemma engine_without_report_witness :
  fst (serve acceptAll emptyHanded mobileRequest)
  = Ret {| status := 500;
           json := Message "Error during Lighthouse analysis for mobile."
                     (Some "Lighthouse analysis failed to produce a report.")
                     None |}.
Proof.
  exact (proj1 (engine_without_report
                  acceptAll emptyHanded mobileRequest
                  (Some {| user := Some {| user_id := Some "u1" |} |})
                  "https://example.com" mobile None
                  eq_refl eq_refl eq_refl eq_refl eq_refl eq_refl
                  eq_refl eq_refl)).
Defined.

(** A signed-in user, a successful audit, a working database. *)
Definition allWell : Env :=
  {| session := signedIn "u1"; launch := None; puppeteerPortStr := "9222";
     lighthouse := inr (Some {| lhr := Some ScoreProofs.sampleLHR |});
     create := None; close := None; development := false; newStack := "" |}.

Lemma rows_only_for_signed_in_success_witness :
  exists d,
    created (snd (serve acceptAll allWell mobileRequest)) = [d] /\
    rd_userId d = "u1".
Proof.
  apply (proj2 (rows_only_for_signed_in_success acceptAll allWell mobileRequest)
           {| status := 200;
              json := Data (responseData "https://example.com" "mobile"
                                         ScoreProofs.sampleLHR) |});
    reflexivity.
Defined.

End AnalyzeMore.

(** ** More on the diagnostics sections *)

Module DiagnosticsMore.

Import Diagnostics DiagnosticsProofs.
Local Open Scope string_scope.

Lemma length_zero {A} (l : list A) : (length l =? 0)%nat = true <-> l = [].
Proof. destruct l; simpl; split; congruence. Qed.

(** X8.  A category with audit references and an id other than [pwa] is
    hidden exactly when all three buckets are empty; a category without
    references, or with id [pwa], is always hidden.  The toggles play no
    part. *)
Theorem section_hidden_exactly_when
  (c : Category) (allAudits : gmap string Audit) (t : Toggles) :
  CategorySection (Some c) allAudits t = None <->
  auditRefs c = None \/ cat_id c = "pwa" \/
  exists refs,
    auditRefs c = Some refs /\
    opportunitiesAndDiagnostics (relevantAudits refs allAudits) = [] /\
    manualChecks (relevantAudits refs allAudits) = [] /\
    passedAudits (relevantAudits refs allAudits) = [].
Proof.
  unfold CategorySection.
  destruct (auditRefs c) as [refs |]; [| split; [left; reflexivity | reflexivity]].
  destruct (String.eqb (cat_id c) "pwa") eqn:Hid.
  { apply String.eqb_eq in Hid. split; [right; left; exact Hid | reflexivity]. }
  apply String.eqb_neq in Hid.
  destruct (_ && _) eqn:Hempty.
  - split; [| reflexivity]. intros _. right; right. exists refs.
    rewrite !andb_true_iff, !length_zero in Hempty. tauto.
  - split; [discriminate |].
    intros [H | [H | (refs' & [= <-] & Ho & Hm & Hp)]];
      [discriminate | contradiction |].
    rewrite Ho, Hm, Hp in Hempty. discriminate.
Qed.

Lemma rows_of_relevant (l : list Audit) (p : bool) :
  (forall a, a ∈ l ->
     scoreDisplayMode a <> "notApplicable" /\ scoreDisplayMode a <> "error") ->
  row_audit <$> omap (fun a => AuditItem a p) l = l.
Proof.
  induction l as [| a l IH]; [reflexivity |]. intros Hl.
  destruct (AuditItem a p) as [row |] eqn:Hrow.
  - cbn [omap list_omap]. rewrite Hrow. cbn [fmap list_fmap].
    apply AuditItem_Some in Hrow as [-> _].
    f_equal. apply IH. intros b Hb. apply Hl. right. exact Hb.
  - apply AuditItem_None in Hrow.
    destruct (Hl a ltac:(left)) as [Hna Herr]. tauto.
Qed.

Lemma bucket_relevant refs allAudits (f : Audit -> bool) a :
  a ∈ List.filter f (relevantAudits refs allAudits) ->
  scoreDisplayMode a <> "notApplicable" /\ scoreDisplayMode a <> "error".
Proof.
  intros Hin. apply filter_elem_of in Hin as [Hin _].
  apply relevant_spec in Hin. tauto.
Qed.

(** X9.  In a rendered section every audit of a bucket gives exactly one
    row, in bucket order: the rows are those of the opportunities, then
    those of the manual checks if that list is open, then those of the
    passed audits if that list is open.  A freshly rendered section (both
    lists closed) shows the opportunities only. *)
Theorem rows_follow_buckets
  (category : option Category) (allAudits : gmap string Audit)
  (t : Toggles) (v : SectionView) :
  CategorySection category allAudits t = Some v ->
  row_audit <$> sec_rows v
  = (sec_opportunities v
     ++ (if showManual t then sec_manual v else [])
     ++ (if showPassed t then sec_passed v else []))%list.
Proof.
  intros Hsec.
  apply CategorySection_Some in Hsec
    as (c & refs & _ & _ & _ & _ & _ & Ho & Hm & Hp & Hrows & _).
  rewrite Hrows, Ho, Hm, Hp, !fmap_app.
  rewrite rows_of_relevant by apply bucket_relevant.
  destruct (showManual t), (showPassed t);
    rewrite ?rows_of_relevant by apply bucket_relevant; reflexivity.
Qed.

Lemma rows_follow_buckets_witness :
  exists v,
    CategorySection (Some sampleSeo) sampleAudits collapsed = Some v /\
    row_audit <$> sec_rows v = [sampleAudit "slow" "numeric" (Some (4 # 10))].
Proof.
  destruct (CategorySection (Some sampleSeo) sampleAudits collapsed)
    as [v |] eqn:Hsec; [| vm_compute in Hsec; discriminate].
  exists v. split; [reflexivity |].
  rewrite (rows_follow_buckets _ _ _ _ Hsec).
  vm_compute in Hsec. inversion Hsec. reflexivity.
Defined.

(** Where the gauge changes colour, in terms of the exact product [x]
    that the double multiplication rounds: the double 89.5 has exponent 6
    and the double 49.5 exponent 5, both with an even significand, so a
    product half a spacing below them (the tie included) rounds up to
    them. *)
Lemma green_from (x : Q) :
  (90 <= JS.Math_round (JS.toDouble x))%Z
  <-> ((895 # 10) - JS.pow2 (-47) <= x)%Q.
Proof.
  rewrite JSProofs.Math_round_ge.
  pose proof (JSProofs.toDouble_ge_iff x 6 (179 * 2 ^ 45)
                ltac:(lia) ltac:(split; reflexivity) eq_refl) as H.
  assert (inject_Z (179 * 2 ^ 45) * JS.pow2 (6 - 52)
          == inject_Z 90 - (1 # 2))%Q as E1 by (vm_compute; reflexivity).
  assert ((inject_Z (179 * 2 ^ 45) - (1 # 2)) * JS.pow2 (6 - 52)
          == (895 # 10) - JS.pow2 (-47))%Q as E2 by (vm_compute; reflexivity).
  rewrite E1, E2 in H. exact H.
Qed.

Lemma yellow_from (x : Q) :
  (50 <= JS.Math_round (JS.toDouble x))%Z
  <-> ((495 # 10) - JS.pow2 (-48) <= x)%Q.
Proof.
  rewrite JSProofs.Math_round_ge.
  pose proof (JSProofs.toDouble_ge_iff x 5 (99 * 2 ^ 46)
                ltac:(lia) ltac:(split; reflexivity) eq_refl) as H.
  assert (inject_Z (99 * 2 ^ 46) * JS.pow2 (5 - 52)
          == inject_Z 50 - (1 # 2))%Q as E1 by (vm_compute; reflexivity).
  assert ((inject_Z (99 * 2 ^ 46) - (1 # 2)) * JS.pow2 (5 - 52)
          == (495 # 10) - JS.pow2 (-48))%Q as E2 by (vm_compute; reflexivity).
  rewrite E1, E2 in H. exact H.
Qed.

(** X10.  The colour of a category's gauge in terms of its raw score [s].
    The gauge shows [Math.round(s * 100)], where the product is the double
    nearest to [s * 100]; so the colour changes half a spacing of doubles
    below 89.5 and 49.5: the gauge is green exactly when
    [s * 100 >= 89.5 - 2^-47], yellow exactly when
    [49.5 - 2^-48 <= s * 100 < 89.5 - 2^-47], and red exactly when
    [s * 100 < 49.5 - 2^-48].  In particular a score of at least 0.895 is
    green, a score of at least 0.495 is not red, and the double nearest
    to 0.495, which lies below 0.495, is yellow. *)
Theorem gauge_bands (s : Q) :
  let colour := gaugeColor (JS.Math_round (JS.times s 100)) in
  let green := ((895 # 10) - JS.pow2 (-47))%Q in
  let yellow := ((495 # 10) - JS.pow2 (-48))%Q in
  ((colour = "text-green-500" <-> (green <= s * 100)%Q) /\
   (colour = "text-yellow-500" <-> (yellow <= s * 100 /\ s * 100 < green)%Q) /\
   (colour = "text-red-500" <-> (s * 100 < yellow)%Q)) /\
  ((895 # 1000 <= s)%Q -> colour = "text-green-500") /\
  ((495 # 1000 <= s)%Q -> colour <> "text-red-500") /\
  (s == JS.toDouble (495 # 1000) ->
   (s < 495 # 1000)%Q /\ colour = "text-yellow-500")%Q.
Proof.
  cbv zeta.
  assert (0 < JS.pow2 (-47))%Q as P47 by reflexivity.
  assert (0 < JS.pow2 (-48))%Q as P48 by reflexivity.
  assert (JS.pow2 (-48) < 1)%Q as P48' by reflexivity.
  assert (JS.pow2 (-47) < 1)%Q as P47' by reflexivity.
  assert ((gaugeColor (JS.Math_round (JS.times s 100)) = "text-green-500"
           <-> ((895 # 10) - JS.pow2 (-47) <= s * 100)%Q) /\
          (gaugeColor (JS.Math_round (JS.times s 100)) = "text-yellow-500"
           <-> ((495 # 10) - JS.pow2 (-48) <= s * 100
                /\ s * 100 < (895 # 10) - JS.pow2 (-47))%Q) /\
          (gaugeColor (JS.Math_round (JS.times s 100)) = "text-red-500"
           <-> (s * 100 < (495 # 10) - JS.pow2 (-48))%Q)) as Hbands.
  { unfold gaugeColor, JS.times.
    pose proof (green_from (s * 100)) as H90.
    pose proof (yellow_from (s * 100)) as H50.
    generalize dependent (JS.pow2 (-47)). generalize dependent (JS.pow2 (-48)).
    intros p48 P48 P48' H50 p47 P47 P47' H90.
    destruct (90 <=? JS.Math_round (JS.toDouble (s * 100)))%Z eqn:Hg.
    - apply Z.leb_le in Hg. apply H90 in Hg.
      repeat split; intros; try discriminate; try lra.
    - apply Z.leb_gt in Hg.
      assert (~ ((895 # 10) - p47 <= s * 100)%Q) as Hng
          by (intros Hc; apply H90 in Hc; lia).
      destruct (50 <=? JS.Math_round (JS.toDouble (s * 100)))%Z eqn:Hy.
      + apply Z.leb_le in Hy. apply H50 in Hy.
        repeat split; intros; try discriminate; try lra.
      + apply Z.leb_gt in Hy.
        assert (~ ((495 # 10) - p48 <= s * 100)%Q) as Hny
            by (intros Hc; apply H50 in Hc; lia).
        repeat split; intros; try discriminate; try lra. }
  split; [exact Hbands |].
  destruct Hbands as (Hgreen & Hyellow & Hred).
  split; [| split].
  - intros Hs. apply Hgreen. lra.
  - intros Hs Hc. apply Hred in Hc. lra.
  - intros Hs.
    assert (JS.toDouble (495 # 1000)
            == 4458563631096791 # 9007199254740992)%Q as Hd
        by (vm_compute; reflexivity).
    rewrite Hd in Hs. split.
    + rewrite Hs. reflexivity.
    + apply Hyellow. rewrite Hs. split; vm_compute; congruence.
Qed.

End DiagnosticsMore.

(** ** The metrics grid and the report card *)

Module CardProofs.

Import Metrics Card.
Local Open Scope string_scope.

Lemma omap_length {A B} (f : A -> option B) (l : list A) :
  (length (omap f l) <= length l)%nat.
Proof.
  induction l as [| x l IH]; [reflexivity |].
  cbn [omap list_omap]. destruct (f x); simpl; lia.
Qed.

(** X11.  The metrics grid shows at most five metrics.  A metric is shown
    exactly when its id is one of the five fixed ids, the audit map has it,
    and it carries a display value; it is titled like the audit, coloured
    by the audit's score, and reads as the display value (an empty display
    value reads "undefined"). *)
Theorem metrics_grid (audits : gmap string Audit) (row : MetricView) :
  (length (shown (MetricsDisplay (Some audits))) <= 5)%nat /\
  (row ∈ shown (MetricsDisplay (Some audits)) <->
   exists i a dv,
     i ∈ metricIds /\ audits !! i = Some a /\ displayValue a = Some dv /\
     row = {| metric_title := audit_title a;
              dotColor := dotOf (score a);
              display := if JS.truthy dv then dv else "undefined" |}).
Proof.
  unfold MetricsDisplay, shown, metricsToShow. split.
  - etransitivity; [apply omap_length |]. rewrite length_map.
    etransitivity; [apply omap_length |]. reflexivity.
  - rewrite list_elem_of_omap. split.
    + intros (child & Hchild & ->).
      apply list_elem_of_In, in_map_iff in Hchild as (a & Hitem & Ha).
      apply list_elem_of_In, list_elem_of_omap in Ha as (i & Hi & Hlook).
      unfold MetricItem in Hitem.
      destruct (displayValue a) as [dv |] eqn:Hdv; [| discriminate].
      exists i, a, dv. repeat split; try assumption.
      injection Hitem as <-. destruct (JS.truthy dv); reflexivity.
    + intros (i & a & dv & Hi & Hlook & Hdv & ->).
      eexists. split; [| reflexivity].
      apply list_elem_of_In, in_map_iff. exists a. split.
      * unfold MetricItem. rewrite Hdv. destruct (JS.truthy dv); reflexivity.
      * apply list_elem_of_In, list_elem_of_omap. eauto.
Qed.

(** X12.  The performance gauge, the summary tiles and the category gauge
    colour a score alike: green from 90, yellow from 50 to 89, red
    below. *)
Theorem gauges_agree (n : Z) (tile : string) (label : option string) :
  ringColor <$> PerformanceGauge (Some n) label = Some (Diagnostics.gaugeColor n) /\
  arcColorClass (CategoryScoreItem tile (Some n)) = Diagnostics.gaugeColor n /\
  (Diagnostics.gaugeColor n = "text-green-500" <-> 90 <= n) /\
  (Diagnostics.gaugeColor n = "text-yellow-500" <-> 50 <= n < 90) /\
  (Diagnostics.gaugeColor n = "text-red-500" <-> n < 50).
Proof.
  unfold PerformanceGauge, CategoryScoreItem, Diagnostics.gaugeColor.
  destruct (90 <=? n)%Z eqn:H90;
    [apply Z.leb_le in H90 | apply Z.leb_gt in H90];
    [| destruct (50 <=? n)%Z eqn:H50;
       [apply Z.leb_le in H50 | apply Z.leb_gt in H50]];
    cbn; repeat split; intros; try discriminate; try lia.
Qed.

Lemma coalesce_same (x : option Z) : coalesce x x = x.
Proof. destruct x; reflexivity. Qed.

(** X13.  Fed a fresh answer of [/api/analyze] with a non-empty URL, the
    card is complete: its four tiles (performance, accessibility, best
    practices, SEO; none for PWA) carry the scores of the answer, which are
    the rounded category scores, so the fallback computation never changes
    them; the large gauge shows the performance score; metrics and
    diagnostics are attached; and the note about missing diagnostics is
    off. *)
Theorem card_of_fresh_answer
  (u sname : string) (l : Analyze.LHR) (isCurrent : bool)
  (toggles : string -> Diagnostics.Toggles) :
  u <> "" ->
  exists b,
    ReportCard (ofPayload (Analyze.responseData u sname l)) isCurrent toggles
    = Complete b /\
    tiles b
    = [CategoryScoreItem "Performance"
         (normalizedScore (Analyze.categories l) "performance");
       CategoryScoreItem "Accessibility"
         (normalizedScore (Analyze.categories l) "accessibility");
       CategoryScoreItem "Best Practices"
         (normalizedScore (Analyze.categories l) "best-practices");
       CategoryScoreItem "SEO"
         (normalizedScore (Analyze.categories l) "seo")] /\
    details b
    = Some {| gauge := PerformanceGauge
                         (normalizedScore (Analyze.categories l) "performance")
                         None;
              metrics := MetricsDisplay (Some (Analyze.audits l));
              diagnostics :=
                Diagnostics.DiagnosticsDisplay
                  (Some (Analyze.categories l)) (Some (Analyze.audits l))
                  toggles |} /\
    note b = false /\
    heading b = (if JS.truthy (Analyze.finalUrl l)
                 then Analyze.finalUrl l else u).
Proof.
  intros Hu. apply FormsProofs.truthy_nonempty in Hu.
  unfold ReportCard, ofPayload, Analyze.responseData.
  cbn -[normalizedScore CategoryScoreItem PerformanceGauge MetricsDisplay
        Diagnostics.DiagnosticsDisplay JS.truthy].
  rewrite !coalesce_same.
  destruct (JS.truthy (Analyze.finalUrl l)) eqn:Hf.
  - rewrite Hf. eexists. split; [reflexivity |]. cbn [tiles details note heading].
    repeat split.
  - rewrite Hu. eexists. split; [reflexivity |]. cbn [tiles details note heading].
    repeat split.
Qed.

Lemma card_of_fresh_answer_witness :
  exists b,
    ReportCard (ofPayload (Analyze.responseData "https://example.com" "mobile"
                                                ScoreProofs.sampleLHR))
               true (fun _ => Diagnostics.collapsed)
    = Complete b /\
    displayScore <$> tiles b = ["95"; "-"; "-"; "-"].
Proof.
  destruct (card_of_fresh_answer "https://example.com" "mobile"
              ScoreProofs.sampleLHR true (fun _ => Diagnostics.collapsed)
              ltac:(discriminate))
    as (b & Hcard & Htiles & _).
  exists b. split; [exact Hcard |]. rewrite Htiles. reflexivity.
Defined.

(** X14.  A report without details, as the stored rows are: the card shows
    the stored scores in its tiles and no gauge, metrics or diagnostics; the
    note about missing diagnostics is on exactly when a performance score
    is stored; and the card is replaced by the "incomplete" notice exactly
    when the URL is empty and no performance score is stored. *)
Theorem card_without_details
  (report : ReportCardDisplayData) (isCurrent : bool)
  (toggles : string -> Diagnostics.Toggles) :
  fullLighthouseDetails report = None ->
  (ReportCard report isCurrent toggles = Incomplete <->
   url report = "" /\ performanceScore report = None) /\
  (forall b,
      ReportCard report isCurrent toggles = Complete b ->
      heading b = url report /\
      tiles b = [CategoryScoreItem "Performance" (performanceScore report);
                 CategoryScoreItem "Accessibility" (accessibilityScore report);
                 CategoryScoreItem "Best Practices" (bestPracticesScore report);
                 CategoryScoreItem "SEO" (seoScore report)] /\
      details b = None /\
      (note b = true <-> performanceScore report <> None)).
Proof.
  intros Hnone. unfold ReportCard. rewrite Hnone.
  cbn -[CategoryScoreItem JS.truthy].
  assert (forall x, coalesce x None = x) as Hco by (intros []; reflexivity).
  rewrite !Hco.
  pose proof (FormsProofs.truthy_nonempty (url report)) as Htruthy.
  destruct (JS.truthy (url report)) eqn:Hu.
  - assert (url report <> "") as Hne by (apply Htruthy; reflexivity).
    split; [split; [discriminate | tauto] |].
    intros b [= <-]. cbn [heading tiles details note].
    repeat split; destruct (performanceScore report); congruence.
  - assert (url report = "") as Hempty.
    { destruct (url report); [reflexivity | discriminate]. }
    destruct (performanceScore report) as [p |] eqn:Hp.
    + split; [split; [discriminate | intros [_ H]; discriminate] |].
      intros b [= <-]. cbn [heading tiles details note].
      repeat split; congruence.
    + split; [tauto |]. discriminate.
Qed.

Definition storedRow : ReportCardDisplayData :=
  {| url := "https://example.com"; strategy := "desktop";
     performanceScore := Some 72; accessibilityScore := Some 100;
     bestPracticesScore := None; seoScore := Some 91; pwaScore := None;
     fullLighthouseDetails := None;
     createdAt := Some "2024-01-01T00:00:00.000Z" |}.

Lemma card_without_details_witness :
  exists b,
    ReportCard storedRow false (fun _ => Diagnostics.collapsed) = Complete b /\
    details b = None /\ note b = true.
Proof.
  eexists. split; [reflexivity |].
  destruct (proj2 (card_without_details storedRow false
                     (fun _ => Diagnostics.collapsed) eq_refl) _ eq_refl)
    as (_ & _ & Hd & Hn).
  split; [exact Hd | apply Hn; discriminate].
Defined.

End CardProofs.

(** ** The security page *)

Module SecurityPageProofs.

Import SecurityScan SecurityPage.
Local Open Scope string_scope.

Lemma oneOf_spec (s : string) (cases : list string) :
  oneOf s cases = true <-> s ∈ cases.
Proof.
  unfold oneOf. rewrite existsb_exists. split.
  - intros (x & Hx & Heq). apply String.eqb_eq in Heq. subst x.
    apply list_elem_of_In, Hx.
  - intros Hin. exists s. split; [apply list_elem_of_In, Hin |].
    apply String.eqb_refl.
Qed.

Lemma oneOf_other (s : string) (cases others : list string) :
  forallb (fun c => negb (oneOf c others)) cases = true ->
  oneOf s cases = true -> oneOf s others = false.
Proof.
  intros Hall Hin. unfold oneOf in Hin.
  apply existsb_exists in Hin as (x & Hx & Heq).
  apply String.eqb_eq in Heq. subst x.
  rewrite forallb_forall in Hall. apply negb_true_iff, Hall, Hx.
Qed.

(** X18.  How the page shows a status or a severity: the green shield
    exactly for [pass], [good], [clean] and [not_blacklisted]; the red
    cross exactly for [fail], [danger], [infected] and [blacklisted]; the
    yellow triangle exactly for [warn] and [warning]; and the blue
    information icon for everything else, [info] and a missing status
    included.  The colours go with the icon. *)
Theorem status_display_cases (status : option string) :
  let shown := getStatusIconAndColor status in
  (Icon shown = ShieldCheckIcon <->
   exists s, status = Some s /\
             s ∈ ["pass"; "good"; "clean"; "not_blacklisted"]) /\
  (Icon shown = XCircleIcon <->
   exists s, status = Some s /\
             s ∈ ["fail"; "danger"; "infected"; "blacklisted"]) /\
  (Icon shown = ExclamationTriangleIcon <->
   exists s, status = Some s /\ s ∈ ["warn"; "warning"]) /\
  (Icon shown = InformationCircleIcon <->
   forall s, status = Some s ->
             s ∉ ["pass"; "good"; "clean"; "not_blacklisted";
                  "fail"; "danger"; "infected"; "blacklisted";
                  "warn"; "warning"]) /\
  (color shown, bgColor shown, borderColor shown)
  = match Icon shown with
    | ShieldCheckIcon => ("text-green-500", "bg-green-50", "border-green-200")
    | XCircleIcon => ("text-red-500", "bg-red-50", "border-red-200")
    | ExclamationTriangleIcon =>
        ("text-yellow-500", "bg-yellow-50", "border-yellow-200")
    | InformationCircleIcon =>
        ("text-blue-500", "bg-blue-50", "border-blue-200")
    end.
Proof.
  cbv zeta. unfold getStatusIconAndColor.
  change ["pass"; "good"; "clean"; "not_blacklisted";
          "fail"; "danger"; "infected"; "blacklisted"; "warn"; "warning"]
    with (["pass"; "good"; "clean"; "not_blacklisted"]
            ++ ["fail"; "danger"; "infected"; "blacklisted"]
            ++ ["warn"; "warning"])%list.
  set (green := ["pass"; "good"; "clean"; "not_blacklisted"]).
  set (red := ["fail"; "danger"; "infected"; "blacklisted"]).
  set (yellow := ["warn"; "warning"]).
  assert (forall s, s ∈ (green ++ red ++ yellow)%list <->
                    oneOf s green = true \/ oneOf s red = true
                    \/ oneOf s yellow = true) as Hany
      by (intros s; rewrite !elem_of_app, !oneOf_spec; tauto).
  destruct status as [s |].
  - change (default "" (Some s)) with s.
    pose proof (oneOf_other s green red eq_refl) as Hgr.
    pose proof (oneOf_other s green yellow eq_refl) as Hgy.
    pose proof (oneOf_other s red yellow eq_refl) as Hry.
    pose proof (Hany s) as Hs.
    assert (forall l, (exists s', Some s = Some s' /\ s' ∈ l)
                      <-> oneOf s l = true) as Hex.
    { intros l. rewrite oneOf_spec. split.
      - intros (s' & [= <-] & Hin). exact Hin.
      - intros Hin. exists s. split; [reflexivity | exact Hin]. }
    rewrite !Hex.
    assert ((forall s', Some s = Some s' -> s' ∉ (green ++ red ++ yellow)%list)
            <-> ~ (oneOf s green = true \/ oneOf s red = true
                   \/ oneOf s yellow = true)) as ->.
    { rewrite <- Hs. split.
      - intros H. apply H. reflexivity.
      - intros H s' [= <-]. exact H. }
    clearbody green red yellow. clear Hany Hs Hex.
    destruct (oneOf s green);
      [rewrite (Hgr eq_refl), (Hgy eq_refl) |];
      (destruct (oneOf s red); [rewrite ?(Hry eq_refl) |]);
      destruct (oneOf s yellow); cbn [Icon color bgColor borderColor];
      repeat split; intros; try discriminate; try reflexivity;
      try (exfalso; tauto);
      try (intros [? | [? | ?]]; discriminate);
      try (specialize (Hgr eq_refl); discriminate Hgr);
      try (specialize (Hgy eq_refl); discriminate Hgy);
      try (specialize (Hry eq_refl); discriminate Hry).
  - cbn. repeat split; intros; try discriminate; try reflexivity.
    all: match goal with H : exists _, _ |- _ => destruct H as (? & ? & _) end;
      discriminate.
Qed.

Definition rank (r : Risk) : nat :=
  match r with
  | Minimal => 0 | Low => 1 | Medium => 2 | High => 3 | Critical => 4
  end.

(** X20.  The risk meter grows with the risk: a higher risk level gives a
    strictly wider bar, and every bar is wider than 0 and narrower than
    100 percent.  No risk at all gives an empty bar. *)
Theorem meter_grows_with_risk (r1 r2 : Risk) :
  ((rank r1 < rank r2)%nat ->
   (width (getRiskMeterStyles (Some (riskName r1)))
    < width (getRiskMeterStyles (Some (riskName r2))))%Q) /\
  (0 < width (getRiskMeterStyles (Some (riskName r1))) < 100)%Q /\
  width (getRiskMeterStyles None) == 0.
Proof.
  split; [| split; [| reflexivity]].
  - destruct r1, r2; cbn [rank]; intros H; try lia; vm_compute; reflexivity.
  - destruct r1; vm_compute; split; reflexivity.
Qed.

Lemma meter_grows_with_risk_witness :
  (width (getRiskMeterStyles (Some "Low"))
   < width (getRiskMeterStyles (Some "High")))%Q.
Proof.
  apply (proj1 (meter_grows_with_risk Low High)). cbn. lia.
Defined.

End SecurityPageProofs.

(** ** More on the report history *)

Module ReportsMore.

Import Reports ReportsProofs.
Local Open Scope string_scope.

(** The stored reports of one user. *)
Definition owned (table : list Report) (uid : string) : list Report :=
  List.filter (fun r => String.eqb (userId r) uid) table.

Lemma ordered_permutation table uid : ordered table uid ≡ₚ owned table uid.
Proof. unfold ordered, owned. apply merge_sort_Permutation. Qed.

(** X21.  A signed-in user with a working query gets back as many rows as
    they have stored, up to 20; with at most 20 stored reports the answer
    holds each of them exactly once. *)
Theorem history_complete (env : Env) (uid : string) :
  identity env = Some uid ->
  queryError env = None ->
  exists rows,
    handler env "GET" = {| status := 200; json := Rows rows |} /\
    length rows = Nat.min 20 (length (owned (table env) uid)) /\
    ((length (owned (table env) uid) <= 20)%nat ->
     rows ≡ₚ owned (table env) uid).
Proof.
  intros Hid Hok. exists (findMany (table env) (newest uid 20)).
  split; [unfold handler; simpl; rewrite Hid, Hok; reflexivity |].
  change (findMany (table env) (newest uid 20))
    with (list.take 20 (ordered (table env) uid)).
  pose proof (ordered_permutation (table env) uid) as Hperm.
  rewrite length_take, (Permutation_length Hperm).
  split; [reflexivity |].
  intros Hle. rewrite take_ge; [exact Hperm |].
  rewrite (Permutation_length Hperm). exact Hle.
Qed.

Lemma history_complete_witness :
  exists rows,
    handler {| session := signedIn "u1"; table := sampleTable;
               queryError := None |} "GET"
    = {| status := 200; json := Rows rows |} /\
    length rows = 2%nat.
Proof.
  destruct (history_complete
              {| session := signedIn "u1"; table := sampleTable;
                 queryError := None |} "u1" eq_refl eq_refl)
    as (rows & Hresp & Hlen & _).
  exists rows. split; [exact Hresp | exact Hlen].
Defined.

End ReportsMore.

(** ** Sign-in and identity *)

Module AuthProofs.

Import Auth.
Local Open Scope string_scope.

(** X22.  The id given at sign-in survives the round trip through the
    token: after [jwt] has seen the user once, and however often it runs
    again without one, the session built from that token carries the
    user's id, and both API handlers read exactly that id from it (a
    non-empty id passes the guard of the history endpoint).  A session
    without a user object stays without identity. *)
Theorem sign_in_round_trip
  (token0 : Token) (u : AuthUser) (s : Analyze.Session) (refreshes : nat)
  (table : list Reports.Report) (env : Analyze.Env) :
  let token := Nat.iter refreshes (fun t => jwt t None) (jwt token0 (Some u)) in
  let s' := session s (Some token) in
  (Analyze.user s <> None ->
   id u <> "" ->
   Reports.identity {| Reports.session := Some s'; Reports.table := table;
                       Reports.queryError := None |} = Some (id u) /\
   (Analyze.session env = inr (Some s') ->
    Analyze.userId env = Some (id u))) /\
  (Analyze.user s = None ->
   Reports.identity {| Reports.session := Some s'; Reports.table := table;
                       Reports.queryError := None |} = None).
Proof.
  intros token s'.
  assert (token = {| sub := Some (id u) |}) as Htoken.
  { unfold token. induction refreshes as [| n IH]; [reflexivity |].
    rewrite Nat.iter_succ, IH. reflexivity. }
  unfold s', session. rewrite Htoken. split.
  - intros Huser Hid. destruct (Analyze.user s) as [usr |]; [| contradiction].
    apply FormsProofs.truthy_nonempty in Hid.
    split.
    + unfold Reports.identity. cbn. rewrite Hid. reflexivity.
    + intros Hs. unfold Analyze.userId. rewrite Hs. reflexivity.
  - intros Hnone. destruct s as [usr]. cbn in Hnone. subst usr. reflexivity.
Qed.

Lemma sign_in_round_trip_witness :
  Reports.identity
    {| Reports.session :=
         Some (session {| Analyze.user := Some {| Analyze.user_id := None |} |}
                       (Some (jwt {| sub := None |} (Some {| id := "u1" |}))));
       Reports.table := []; Reports.queryError := None |}
  = Some "u1".
Proof.
  refine (proj1 (proj1 (sign_in_round_trip
                          {| sub := None |} {| id := "u1" |}
                          {| Analyze.user := Some {| Analyze.user_id := None |} |}
                          0 [] AnalyzeProofs.engineCrash) _ _)).
  - discriminate.
  - discriminate.
Defined.

End AuthProofs.

(** ** The home page *)

Module HomePageProofs.

Import HomePage.
Local Open Scope string_scope.

Lemma sum_bounds (lo hi : Z) (l : list Z) (acc : Z) :
  Forall (fun n => lo <= n <= hi) l ->
  acc + lo * Z.of_nat (length l) <= fold_left Z.add l acc
  <= acc + hi * Z.of_nat (length l).
Proof.
  intros Hall. revert acc.
  induction Hall as [| n l Hn _ IH]; intros acc; [simpl; lia |].
  cbn [fold_left length]. specialize (IH (acc + n)). lia.
Qed.

Lemma mean_bounds (lo hi sum len : Z) :
  0 < len -> lo * len <= sum <= hi * len ->
  (inject_Z lo <= inject_Z sum / inject_Z len /\
   inject_Z sum / inject_Z len <= inject_Z hi)%Q.
Proof.
  intros Hlen [Hlo Hhi].
  assert (0 < inject_Z len)%Q as Hpos
      by (change 0%Q with (inject_Z 0); rewrite <- Zlt_Qlt; exact Hlen).
  split.
  - apply Qle_shift_div_l; [exact Hpos |].
    rewrite <- inject_Z_mult, <- Zle_Qle. exact Hlo.
  - apply Qle_shift_div_r; [exact Hpos |].
    rewrite <- inject_Z_mult, <- Zle_Qle. exact Hhi.
Qed.

Lemma round_between (lo hi : Z) (x : Q) :
  (inject_Z lo <= x /\ x <= inject_Z hi)%Q -> lo <= JS.Math_round x <= hi.
Proof.
  intros [Hlo Hhi]. split.
  - apply JSProofs.Math_round_ge. lra.
  - destruct (Z_le_gt_dec (JS.Math_round x) hi) as [H | H]; [exact H |].
    assert (hi + 1 <= JS.Math_round x) as Hup by lia.
    apply JSProofs.Math_round_ge in Hup.
    rewrite inject_Z_plus in Hup. change (inject_Z 1) with 1%Q in Hup. lra.
Qed.

Lemma omap_nil_iff {A B} (f : A -> option B) (l : list A) :
  omap f l = [] <-> forall x, x ∈ l -> f x = None.
Proof.
  induction l as [| a l IH]; [split; [intros _ x Hx; inversion Hx | reflexivity] |].
  cbn [omap list_omap]. destruct (f a) eqn:Ha.
  - split; [discriminate |]. intros H. specialize (H a ltac:(left)). congruence.
  - rewrite IH. split.
    + intros H x Hx. apply elem_of_cons in Hx as [-> | Hx]; auto.
    + intros H x Hx. apply H. right. exact Hx.
Qed.

(** The sum of the scores, as the reducer computes it in doubles. *)
Definition doubleSum (scores : list Z) (acc : Q) : Q :=
  fold_left (fun acc score => JS.plus acc (inject_Z score)) scores acc.

(** Percentages add up without rounding: every partial sum is an integer
    below [2^53]. *)
Lemma doubleSum_exact (scores : list Z) (acc : Q) (z : Z) :
  (acc == inject_Z z)%Q -> 0 <= z ->
  Forall (fun n => 0 <= n <= 100) scores ->
  z + 100 * Z.of_nat (length scores) < 2 ^ 53 ->
  (doubleSum scores acc == inject_Z (fold_left Z.add scores z))%Q.
Proof.
  intros Hacc Hz Hall. revert acc z Hacc Hz.
  induction Hall as [| n l Hn _ IH]; intros acc z Hacc Hz Hlen;
    [exact Hacc |].
  cbn [doubleSum fold_left]. apply IH.
  - unfold JS.plus. rewrite Hacc, <- inject_Z_plus.
    apply JSProofs.toDouble_int. cbn [length] in Hlen. lia.
  - lia.
  - cbn [length] in Hlen. lia.
Qed.

(** Dividing in doubles does not change which integer the mean rounds to:
    the mean of fewer than [2^46] percentages, when not on a tie, is
    further from it than a double is from the exact quotient. *)
Lemma mean_rounds_exactly (sum len : Z) :
  0 < len < 2 ^ 46 -> 0 <= sum <= 100 * len ->
  JS.Math_round (JS.toDouble (inject_Z sum / inject_Z len))
  = JS.Math_round (inject_Z sum / inject_Z len).
Proof.
  intros Hlen Hsum.
  set (mean := (inject_Z sum / inject_Z len)%Q).
  assert (0 < inject_Z len)%Q as Hpos
      by (change 0%Q with (inject_Z 0); rewrite <- Zlt_Qlt; lia).
  destruct (mean_bounds 0 100 sum len ltac:(lia) ltac:(lia)) as [Hlo Hhi].
  fold mean in Hlo, Hhi.
  change (inject_Z 0) with 0%Q in Hlo. change (inject_Z 100) with 100%Q in Hhi.
  set (k := JS.Math_round mean).
  destruct (proj1 (JSProofs.Math_round_spec mean k) eq_refl) as [Hk1 Hk2].
  assert (0 <= k <= 100) as Hk by (apply round_between; split; assumption).
  apply JSProofs.Math_round_spec. split.
  - assert (inject_Z k - (1 # 2) == (2 * k - 1) # 2)%Q as Hhalf
        by (unfold Qeq, Qminus, Qplus, Qopp, inject_Z; simpl; lia).
    rewrite Hhalf, <- (JSProofs.toDouble_half (2 * k - 1)) by lia.
    apply JSProofs.toDouble_mono. rewrite <- Hhalf. exact Hk1.
  - destruct (JSProofs.toDouble_err mean Hlo ltac:(lra)) as [_ Herr].
    assert (mean + JS.pow2 (-47) < inject_Z k + (1 # 2))%Q as Hgap; [| lra].
    assert (mean * inject_Z len == inject_Z sum)%Q as Hmean
        by (unfold mean; field; lra).
    assert (2 * sum + 1 <= (2 * k + 1) * len) as Hint.
    { assert (2 * sum < (2 * k + 1) * len); [| lia].
      rewrite Zlt_Qlt. rewrite !inject_Z_mult, inject_Z_plus, inject_Z_mult.
      change (inject_Z 2) with 2%Q. change (inject_Z 1) with 1%Q.
      rewrite <- Hmean. nra. }
    rewrite Zle_Qle in Hint.
    rewrite inject_Z_plus, !inject_Z_mult, inject_Z_plus, inject_Z_mult in Hint.
    change (inject_Z 2) with 2%Q in Hint. change (inject_Z 1) with 1%Q in Hint.
    rewrite <- Hmean in Hint.
    assert (inject_Z len * JS.pow2 (-47) < 1 # 2)%Q as Hsmall.
    { assert (inject_Z len < JS.pow2 46)%Q as Hl
          by (rewrite (JSProofs.pow2_Z 46) by lia; rewrite <- Zlt_Qlt; lia).
      assert (JS.pow2 46 * JS.pow2 (-47) == 1 # 2)%Q as Hp by reflexivity.
      pose proof (JSProofs.pow2_pos (-47)) as Hp47.
      generalize dependent (JS.pow2 46). generalize dependent (JS.pow2 (-47)).
      intros. nra. }
    clearbody mean k. clear Hlen Hsum Hk.
    generalize dependent (JS.pow2 (-47)). generalize dependent (inject_Z len).
    generalize dependent (inject_Z k). intros. nra.
Qed.

(** X23.  The session's average PWA score is null exactly when no report
    of the session has a PWA score.  When the scores present are
    percentages (0 to 100) and fewer than [2^46], it is the mean of the
    scores present rounded to the nearest integer, a tie going up: the
    double arithmetic of the sum and of the quotient changes nothing.  It
    then lies between the smallest and the largest of them. *)
Theorem session_average_bounds
  (reports : list Card.ReportCardDisplayData) :
  let scores := omap Card.pwaScore reports in
  let sum := fold_left Z.add scores 0 in
  let count := Z.of_nat (length scores) in
  (averagePwa reports = None <->
   forall r, r ∈ reports -> Card.pwaScore r = None) /\
  (scores <> [] ->
   Forall (fun n => 0 <= n <= 100) scores ->
   count < 2 ^ 46 ->
   exists a,
     averagePwa reports = Some a /\
     a = JS.Math_round (inject_Z sum / inject_Z count) /\
     (2 * a - 1) * count <= 2 * sum < (2 * a + 1) * count /\
     (forall lo hi, Forall (fun n => lo <= n <= hi) scores -> lo <= a <= hi)).
Proof.
  cbv zeta. unfold averagePwa. split.
  - rewrite <- omap_nil_iff.
    destruct reports as [| r rs]; [split; reflexivity |].
    change (0 <? length (r :: rs))%nat with true. cbv iota.
    destruct (omap Card.pwaScore (r :: rs)) as [| n ns];
      [split; reflexivity | split; discriminate].
  - intros Hne Hall Hcount.
    destruct (0 <? length reports)%nat eqn:Hlen;
      [| destruct reports; [contradiction Hne; reflexivity | discriminate]].
    set (scores := omap Card.pwaScore reports) in *.
    assert (0 < Z.of_nat (length scores)) as Hpos
        by (destruct scores; [contradiction | cbn [length]; lia]).
    assert ((0 <? length scores)%nat = true) as ->
        by (apply Nat.ltb_lt; lia).
    pose proof (sum_bounds 0 100 scores 0 Hall) as Hsum.
    pose proof (doubleSum_exact scores 0%Q 0 ltac:(reflexivity) ltac:(lia)
                  Hall ltac:(lia)) as Hexact.
    unfold doubleSum in Hexact.
    set (sum := fold_left Z.add scores 0) in *.
    set (count := Z.of_nat (length scores)) in *.
    assert (JS.Math_round
              (JS.divide (fold_left (fun acc score => JS.plus acc (inject_Z score))
                                    scores 0%Q) (inject_Z count))
            = JS.Math_round (inject_Z sum / inject_Z count)) as Hmean.
    { unfold JS.divide.
      rewrite (ScoreProofs.Math_round_comp
                 _ (JS.toDouble (inject_Z sum / inject_Z count)))
        by (rewrite Hexact; reflexivity).
      apply mean_rounds_exactly; lia. }
    eexists. split; [reflexivity |]. rewrite Hmean.
    split; [reflexivity |].
    set (a := JS.Math_round (inject_Z sum / inject_Z count)).
    destruct (proj1 (JSProofs.Math_round_spec
                       (inject_Z sum / inject_Z count) a) eq_refl)
      as [Ha1 Ha2].
    assert (0 < inject_Z count)%Q as Hq
        by (change 0%Q with (inject_Z 0); rewrite <- Zlt_Qlt; lia).
    assert (inject_Z sum / inject_Z count * inject_Z count == inject_Z sum)%Q
      as Hdiv by (field; lra).
    split.
    + split.
      * assert (2 * a * count <= 2 * sum + count); [| lia].
        rewrite Zle_Qle.
        rewrite inject_Z_plus, !inject_Z_mult.
        change (inject_Z 2) with 2%Q.
        rewrite <- Hdiv. clearbody a.
        generalize dependent (inject_Z sum / inject_Z count)%Q.
        generalize dependent (inject_Z count). generalize dependent (inject_Z a).
        intros. nra.
      * rewrite Zlt_Qlt.
        rewrite !inject_Z_mult, inject_Z_plus, inject_Z_mult.
        change (inject_Z 2) with 2%Q. change (inject_Z 1) with 1%Q.
        rewrite <- Hdiv. clearbody a.
        generalize dependent (inject_Z sum / inject_Z count)%Q.
        generalize dependent (inject_Z count). generalize dependent (inject_Z a).
        intros. nra.
    + intros lo hi Hbounds. apply round_between, mean_bounds; [lia |].
      pose proof (sum_bounds lo hi scores 0 Hbounds) as Hs.
      fold sum count in Hs. lia.
Qed.

Definition withPwa (p : option Z) : Card.ReportCardDisplayData :=
  {| Card.url := "https://example.com"; Card.strategy := "mobile";
     Card.performanceScore := None; Card.accessibilityScore := None;
     Card.bestPracticesScore := None; Card.seoScore := None;
     Card.pwaScore := p; Card.fullLighthouseDetails := None;
     Card.createdAt := None |}.

(** Scores 30 and 45 and a report without one: the mean 37.5 is shown
    as 38. *)
Lemma session_average_bounds_witness :
  averagePwa [withPwa (Some 30); withPwa None; withPwa (Some 45)] = Some 38.
Proof.
  destruct (proj2 (session_average_bounds
                     [withPwa (Some 30); withPwa None; withPwa (Some 45)])
              ltac:(discriminate)
              ltac:(repeat constructor; cbn; lia)
              ltac:(reflexivity))
    as (a & Hshown & _ & Hnear & _).
  rewrite Hshown. f_equal. cbn in Hnear. lia.
Defined.

Lemma step_keeps_db_average (s : State) (e : Event) :
  dbAveragePwaScore s = None -> dbAveragePwaScore (step s e) = None.
Proof.
  intros Hs. destruct e as [[] | ? | | ? | ? | | [] | [] []]; cbn; try exact Hs;
    try reflexivity.
  unfold submitPressed.
  destruct (negb (JS.truthy (JS.trim (url s)))); [exact Hs |].
  destruct (_ && _); exact Hs.
Qed.

(** X24.  Whatever happens on the page, the average PWA score kept for
    signed-in users is never set: after every history of events it is
    null, so for a signed-in user the average-score section is never
    shown. *)
Theorem signed_in_average_never_shown (events : list Event) :
  dbAveragePwaScore (after events) = None /\
  showPwaAverageSection true (after events) = false.
Proof.
  assert (forall s, dbAveragePwaScore s = None ->
                    dbAveragePwaScore (fold_left step events s) = None) as Hinv.
  { induction events as [| e events IH]; intros s Hs; [exact Hs |].
    cbn [fold_left]. apply IH, step_keeps_db_average, Hs. }
  specialize (Hinv initial eq_refl). fold (after events) in Hinv.
  split; [exact Hinv |].
  unfold showPwaAverageSection, pwaAverageToShow. rewrite Hinv. reflexivity.
Qed.

(** How a tab looks once its request has come back. *)
Definition settled (tab : Analyze.Strategy)
           (outcome : AxiosError + Card.ReportCardDisplayData) : AnalysisState :=
  match outcome with
  | inr r => {| report := Some r; error := None; isLoading := false |}
  | inl e => {| report := None; error := Some (errorDetails e tab);
                isLoading := false |}
  end.

Definition successes
           (outcomes : list (AxiosError + Card.ReportCardDisplayData))
  : list Card.ReportCardDisplayData :=
  omap (fun o => match o with inr r => Some r | inl _ => None end) outcomes.

(** What decides whether a submission passes the form checks. *)
Definition acceptable (u : string) : Prop :=
  JS.trim u <> "" /\
  (JS.startsWith "http://" (JS.trim u) = true \/
   JS.startsWith "https://" (JS.trim u) = true).

Lemma submitPressed_passes (s : State) :
  snd (submitPressed s) = true <-> acceptable (url s).
Proof.
  unfold submitPressed, acceptable.
  destruct (JS.trim (url s)) as [| c rest] eqn:Htrim.
  { cbn. split; [discriminate | intros [H _]; contradiction H; reflexivity]. }
  change (JS.truthy (String c rest)) with true. cbn [negb].
  destruct (JS.startsWith "http://" (String c rest));
    destruct (JS.startsWith "https://" (String c rest)); cbn;
    split; intros H; try reflexivity; try discriminate H;
    try (split; [discriminate | tauto]).
  destruct H as [_ [H | H]]; discriminate H.
Qed.

(** X25.  A submission passes the form checks exactly when the URL,
    trimmed of white space, is non-empty and starts with [http://] or
    [https://].  It then runs both analyses to the end: afterwards the
    mobile tab shows the outcome of the mobile request and the desktop tab
    that of the desktop request, whichever of them failed; neither is
    loading; and the session's reports have grown by the successful ones,
    mobile first.  A submission that fails the form checks touches neither
    tab nor the session's reports, and leaves a form error. *)
Theorem both_tabs_settle
  (s : State) (mobile desktop : AxiosError + Card.ReportCardDisplayData) :
  let s' := handleSubmit mobile desktop s in
  (acceptable (url s) ->
   mobileAnalysis s' = settled Analyze.mobile mobile /\
   desktopAnalysis s' = settled Analyze.desktop desktop /\
   sessionReports s' = (sessionReports s ++ successes [mobile; desktop])%list /\
   isLoadingAny s' = false /\ formError s' = None) /\
  (~ acceptable (url s) ->
   mobileAnalysis s' = mobileAnalysis s /\
   desktopAnalysis s' = desktopAnalysis s /\
   sessionReports s' = sessionReports s /\
   formError s' <> None).
Proof.
  cbv zeta. rewrite <- submitPressed_passes.
  unfold handleSubmit, submitPressed.
  destruct (negb (JS.truthy (JS.trim (url s)))).
  { cbn. split; [discriminate | intros _; repeat split; discriminate]. }
  destruct (_ && _).
  { cbn. split; [discriminate | intros _; repeat split; discriminate]. }
  split; [intros _ | intros H; contradiction H; reflexivity].
  destruct mobile as [em | rm], desktop as [ed | rd]; cbn;
    rewrite <- ?app_assoc, ?app_nil_r; repeat split.
Qed.

(** A URL typed with a no-break space in front and a space behind passes
    the checks: the mobile request fails, the desktop one succeeds, and
    the session has one report. *)
Lemma both_tabs_settle_witness :
  sessionReports
    (handleSubmit (inl {| response_errorDetails := None;
                          response_message := None; message := "" |})
                  (inr (withPwa (Some 30)))
                  (step initial
                        (UrlTyped (FormsProofs.nbsp +:+ "https://example.com "))))
  = [withPwa (Some 30)].
Proof.
  refine (proj1 (proj2 (proj2
            (proj1 (both_tabs_settle
                      (step initial
                            (UrlTyped (FormsProofs.nbsp
                                         +:+ "https://example.com ")))
                      (inl {| response_errorDetails := None;
                              response_message := None; message := "" |})
                      (inr (withPwa (Some 30))))
                   _)))).
  split; [vm_compute; discriminate | right; vm_compute; reflexivity].
Defined.

(** [o] holds no text: it is missing or empty. *)
Definition blank (o : option string) : Prop := o = None \/ o = Some "".

(** X26.  A failed analysis always leaves a non-empty error text: the
    server's error details if it sent any; else the server's message if
    it sent one; else the client library's message if it has one; else
    "Mobile analysis failed." or "Desktop analysis failed.". *)
Theorem error_text_never_empty (e : AxiosError) (tab : Analyze.Strategy) :
  errorDetails e tab <> "" /\
  (forall d, response_errorDetails e = Some d -> d <> "" ->
             errorDetails e tab = d) /\
  (forall m, blank (response_errorDetails e) ->
             response_message e = Some m -> m <> "" ->
             errorDetails e tab = m) /\
  (blank (response_errorDetails e) -> blank (response_message e) ->
   message e <> "" -> errorDetails e tab = message e) /\
  (blank (response_errorDetails e) -> blank (response_message e) ->
   message e = "" ->
   errorDetails e tab
   = match tab with
     | Analyze.mobile => "Mobile analysis failed."
     | Analyze.desktop => "Desktop analysis failed."
     end).
Proof.
  unfold errorDetails, firstTruthy, blank. split; [| split; [| split; [| split]]].
  - destruct (response_errorDetails e) as [[| c d] |];
      destruct (response_message e) as [[| c' m] |];
      destruct (message e); destruct tab; cbn; discriminate.
  - intros d -> Hd. destruct d; [contradiction | reflexivity].
  - intros m [-> | ->] -> Hm; (destruct m; [contradiction | reflexivity]).
  - intros [-> | ->] [-> | ->] Hm;
      (destruct (message e); [contradiction | reflexivity]).
  - intros [-> | ->] [-> | ->] ->; destruct tab; reflexivity.
Qed.

(** Without error details the server's message is shown. *)
Lemma error_text_never_empty_witness :
  errorDetails {| response_errorDetails := None;
                  response_message := Some "Error during Lighthouse analysis";
                  message := "Request failed with status code 500" |}
               Analyze.mobile
  = "Error during Lighthouse analysis".
Proof.
  apply (proj1 (proj2 (proj2 (error_text_never_empty
                         {| response_errorDetails := None;
                            response_message := Some "Error during Lighthouse analysis";
                            message := "Request failed with status code 500" |}
                         Analyze.mobile)))).
  - left. reflexivity.
  - reflexivity.
  - discriminate.
Defined.

End HomePageProofs.

(** ** The two forms, once more *)

Module FormsMore.

Import Forms FormsProofs.
Local Open Scope string_scope.

Definition postUrl (p : Post) : string :=
  match p with
  | PostAnalyze u _ => u
  | PostSecurityScan u => u
  end.

Definition hasScheme (u : string) : bool :=
  JS.startsWith "http://" u || JS.startsWith "https://" u.

(** [w] is white space from its first to its last character. *)
Definition allWhite (w : string) : Prop := JS.trimStart w = "".

(** No white space in front of [u] and none behind it. *)
Definition bare (u : string) : Prop :=
  JS.dropWhite u = None /\
  forall a w, u = a +:+ w -> allWhite w -> w = "".

Lemma startsWith_append (p x : string) : JS.startsWith p (p +:+ x) = true.
Proof.
  unfold JS.startsWith. induction p as [| c p IH]; [destruct x; reflexivity |].
  change (String c p +:+ x) with (String c (p +:+ x)). cbn [String.prefix].
  destruct (ascii_dec c c); [exact IH | contradiction].
Qed.

(** What [trimEnd] leaves alone has no white space at its end. *)
Lemma trimEnd_fixed_bare (a w : string) :
  JS.trimEnd (a +:+ w) = a +:+ w -> allWhite w -> w = "".
Proof.
  unfold allWhite. intros Hfix Hw. induction a as [| c a IH].
  - rewrite JSProofs.append_nil_l in Hfix.
    rewrite JSProofs.trimEnd_unfold, Hw in Hfix. symmetry. exact Hfix.
  - apply IH. rewrite JSProofs.append_cons in Hfix.
    rewrite JSProofs.trimEnd_unfold in Hfix.
    destruct (JS.trimStart (String c (a +:+ w))); [discriminate Hfix |].
    injection Hfix as Hfix. exact Hfix.
Qed.

Lemma trim_bare (u : string) : JS.trim u = u -> bare u.
Proof.
  intros Hu. split.
  - rewrite <- Hu. apply JSProofs.trim_head.
  - intros a w -> Hw. apply (trimEnd_fixed_bare a w); [| exact Hw].
    rewrite <- Hu at 2. rewrite <- Hu at 1. apply JSProofs.trimEnd_trim.
Qed.

(** Nothing is trimmed off [https://] in front of a trimmed string. *)
Lemma trim_https (t : string) :
  JS.trimEnd t = t -> JS.trim ("https://" +:+ t) = "https://" +:+ t.
Proof.
  intros Ht. unfold JS.trim. rewrite !JSProofs.append_cons.
  rewrite JSProofs.trimStart_fixed
    by (apply JSProofs.dropWhite_ascii; [apply Nat.ltb_lt |]; reflexivity).
  rewrite !JSProofs.trimEnd_word
    by (first [apply Nat.ltb_lt; reflexivity | reflexivity]).
  rewrite JSProofs.append_nil_l, Ht. reflexivity.
Qed.

(** X27.  No request of either form goes out for a URL without a scheme
    or with white space around it: every URL posted, by the analysis form
    or by the security-scan form, starts with [http://] or [https://], has
    no white space (in the sense of [String.prototype.trim]: the Unicode
    space separators, the line terminators and the byte order mark
    included) in front or behind, and so is its own trimmed form.  An
    input of white space only posts nothing at all. *)
Theorem posted_urls_have_scheme (url : string) (p : Post) :
  (p ∈ posts (HomePage_handleSubmit url) \/
   p ∈ posts (SecurityCheckerPage_handleSubmit url) ->
   hasScheme (postUrl p) = true /\ bare (postUrl p) /\
   JS.trim (postUrl p) = postUrl p) /\
  (allWhite url ->
   posts (HomePage_handleSubmit url) = [] /\
   posts (SecurityCheckerPage_handleSubmit url) = []).
Proof.
  assert (forall u, hasScheme u = true -> JS.trim u = u ->
                    hasScheme u = true /\ bare u /\ JS.trim u = u) as Hgood
      by (intros u Hs Ht; auto using trim_bare).
  unfold HomePage_handleSubmit, SecurityCheckerPage_handleSubmit.
  split.
  - destruct (JS.truthy (JS.trim url)) eqn:Hne; cbn [negb];
      [| intros [H | H]; inversion H].
    rewrite <- negb_orb. fold (hasScheme (JS.trim url)).
    destruct (hasScheme (JS.trim url)) eqn:Hs; cbn [negb posts].
    + intros [H | H];
        repeat (apply elem_of_cons in H as [-> | H]);
        try (inversion H; fail); cbn [postUrl];
        apply Hgood; auto using JSProofs.trim_idem.
    + intros [H | H]; [inversion H |].
      apply list_elem_of_singleton in H as ->. cbn [postUrl]. apply Hgood.
      * unfold hasScheme. rewrite startsWith_append. apply orb_true_r.
      * apply trim_https, JSProofs.trimEnd_trim.
  - unfold allWhite, JS.trim. intros ->. split; reflexivity.
Qed.

(** The scan form, given [example.com] between a no-break space and a
    space, posts [https://example.com], which is bare. *)
Lemma posted_urls_have_scheme_witness :
  PostSecurityScan "https://example.com"
    ∈ posts (SecurityCheckerPage_handleSubmit (nbsp +:+ "example.com ")) /\
  hasScheme "https://example.com" = true /\
  bare "https://example.com" /\
  JS.trim "https://example.com" = "https://example.com".
Proof.
  assert (PostSecurityScan "https://example.com"
            ∈ posts (SecurityCheckerPage_handleSubmit (nbsp +:+ "example.com ")))
    as Hin by (set (l := posts _); vm_compute in l; subst l; left).
  split; [exact Hin |].
  apply (proj1 (posted_urls_have_scheme (nbsp +:+ "example.com ")
                  (PostSecurityScan "https://example.com"))).
  right. exact Hin.
Defined.

(** X28.  The security-scan form is stable under resubmission: pressing
    the button again on the value the form left in its field passes or
    fails the form check as before, sends the same request, and leaves the
    same value in the field. *)
Theorem scan_form_resubmission (url : string) :
  SecurityCheckerPage_handleSubmit (field (SecurityCheckerPage_handleSubmit url))
  = SecurityCheckerPage_handleSubmit url.
Proof.
  assert (forall u, JS.trim u = u -> u <> "" -> hasScheme u = true ->
                    SecurityCheckerPage_handleSubmit u
                    = {| formError := None; field := u;
                         posts := [PostSecurityScan u] |}) as Hfix.
  { intros u Ht Hn Hs. unfold SecurityCheckerPage_handleSubmit.
    apply truthy_nonempty in Hn. rewrite Ht, Hn. cbn [negb].
    rewrite <- negb_orb. fold (hasScheme u). rewrite Hs. reflexivity. }
  remember (SecurityCheckerPage_handleSubmit url) as r eqn:Hr.
  unfold SecurityCheckerPage_handleSubmit in Hr.
  destruct (JS.truthy (JS.trim url)) eqn:Hne; cbn [negb] in Hr.
  - pose proof Hne as Hne'. apply truthy_nonempty in Hne'.
    rewrite <- negb_orb in Hr. fold (hasScheme (JS.trim url)) in Hr.
    destruct (hasScheme (JS.trim url)) eqn:Hs; cbn [negb] in Hr;
      subst r; cbn [field]; apply Hfix.
    + apply JSProofs.trim_idem.
    + exact Hne'.
    + exact Hs.
    + apply trim_https, JSProofs.trimEnd_trim.
    + discriminate.
    + unfold hasScheme. rewrite startsWith_append. apply orb_true_r.
  - subst r. cbn [field]. unfold SecurityCheckerPage_handleSubmit.
    rewrite Hne. reflexivity.
Qed.

End FormsMore.
